(** * Shader Maker: program lifecycle and uniform state

    A shallow embedding of [CUniform] (uniform.cpp, uniform.h) and of
    [CShader] (shader.cpp, interface [IShader] in shader.h): construction of
    uniform values, compiling and linking through the OpenGL driver,
    reflection of the active uniforms, carrying values over a relink, and
    the accessors of [IUniformState]; and of the part of [CUniformWidget]
    (uniformwidget.cpp) that reads and writes the uniform table. *)

From Stdlib Require Import ZArith Lia Ascii String.
From Equations Require Import Equations.
From stdpp Require Import base list strings pretty.

Local Open Scope string_scope.
Local Open Scope list_scope.
Local Open Scope Z_scope.

(** ** OpenGL enumerants

    The symbolic constants come from the OpenGL 2.0 headers and the
    GL_EXT_geometry_shader4 extension, which are not part of the repository;
    they are given the values fixed by the OpenGL registry. *)
Module GL.

Definition GL_FALSE : Z := 0.

Definition GL_INT : Z := 0x1404.
Definition GL_FLOAT : Z := 0x1406.
Definition GL_FLOAT_VEC2 : Z := 0x8B50.
Definition GL_FLOAT_VEC3 : Z := 0x8B51.
Definition GL_FLOAT_VEC4 : Z := 0x8B52.
Definition GL_INT_VEC2 : Z := 0x8B53.
Definition GL_INT_VEC3 : Z := 0x8B54.
Definition GL_INT_VEC4 : Z := 0x8B55.
Definition GL_BOOL : Z := 0x8B56.
Definition GL_BOOL_VEC2 : Z := 0x8B57.
Definition GL_BOOL_VEC3 : Z := 0x8B58.
Definition GL_BOOL_VEC4 : Z := 0x8B59.
Definition GL_FLOAT_MAT2 : Z := 0x8B5A.
Definition GL_FLOAT_MAT3 : Z := 0x8B5B.
Definition GL_FLOAT_MAT4 : Z := 0x8B5C.
Definition GL_SAMPLER_1D : Z := 0x8B5D.
Definition GL_SAMPLER_2D : Z := 0x8B5E.
Definition GL_SAMPLER_3D : Z := 0x8B5F.
Definition GL_SAMPLER_CUBE : Z := 0x8B60.
Definition GL_SAMPLER_1D_SHADOW : Z := 0x8B61.
Definition GL_SAMPLER_2D_SHADOW : Z := 0x8B62.

Definition GL_FRAGMENT_SHADER : Z := 0x8B30.
Definition GL_VERTEX_SHADER : Z := 0x8B31.
Definition GL_GEOMETRY_SHADER_EXT : Z := 0x8DD9.

Definition GL_COMPILE_STATUS : Z := 0x8B81.
Definition GL_LINK_STATUS : Z := 0x8B82.
Definition GL_VALIDATE_STATUS : Z := 0x8B83.
Definition GL_ACTIVE_UNIFORMS : Z := 0x8B86.
Definition GL_ACTIVE_ATTRIBUTES : Z := 0x8B89.
Definition GL_MAX_GEOMETRY_OUTPUT_VERTICES_EXT : Z := 0x8DE0.

Definition GL_TRIANGLE_STRIP : Z := 0x0005.
Definition GL_LINE_STRIP_ADJACENCY : Z := 0x000B.
Definition GL_GEOMETRY_VERTICES_OUT_EXT : Z := 0x8DDA.
Definition GL_GEOMETRY_INPUT_TYPE_EXT : Z := 0x8DDB.
Definition GL_GEOMETRY_OUTPUT_TYPE_EXT : Z := 0x8DDC.

(** The type tags of the Bool family, the Int family and the samplers. *)
Definition bool_int_sampler_types : list Z :=
  [ GL_BOOL; GL_BOOL_VEC2; GL_BOOL_VEC3; GL_BOOL_VEC4;
    GL_INT; GL_INT_VEC2; GL_INT_VEC3; GL_INT_VEC4;
    GL_SAMPLER_1D; GL_SAMPLER_2D; GL_SAMPLER_3D; GL_SAMPLER_CUBE;
    GL_SAMPLER_1D_SHADOW; GL_SAMPLER_2D_SHADOW ].

End GL.
Import GL.

(** ** GLfloat values

    [dataUnit_t] is a union of [GLfloat _float[16]] and [GLint _int[4]]: the
    first four 32-bit words are shared by both views.  A word is kept as
    its bit pattern in [0, 2^32); the float view reads it as IEEE-754
    binary32, the int view as two's complement. *)
Module F32.

Definition zero : Z := 0x00000000.   (* 0.0f *)
Definition c0_1 : Z := 0x3DCCCCCD.   (* 0.1f *)
Definition c0_2 : Z := 0x3E4CCCCD.   (* 0.2f *)
Definition c0_3 : Z := 0x3E99999A.   (* 0.3f *)
Definition c0_4 : Z := 0x3ECCCCCD.   (* 0.4f *)
Definition one  : Z := 0x3F800000.   (* 1.0f *)

(** Fields of a binary32 pattern. *)
Definition sign (w : Z) : bool := Z.testbit w 31.
Definition biased_exponent (w : Z) : Z := Z.land (Z.shiftr w 23) 0xFF.
Definition fraction (w : Z) : Z := Z.land w 0x7FFFFF.

(** A normal number is [significand * 2^(biased_exponent - 150)]. *)
Definition significand (w : Z) : Z := 0x800000 + fraction w.

(** [is_nearest w num den]: the positive normal pattern [w], of value
    [significand w / 2^k] with [k = 150 - biased_exponent w >= 0], lies
    within half a unit in the last place of the rational [num / den]. *)
Definition is_nearest (w num den : Z) : bool :=
  let k := 150 - biased_exponent w in
  negb (sign w) && (0 <? biased_exponent w) && (0 <=? k) &&
  (2 * Z.abs (den * significand w - num * 2 ^ k) <=? den).

(** The int view of a word: [GLint] is 32-bit two's complement. *)
Definition as_int (w : Z) : Z := if w <? 2 ^ 31 then w else w - 2 ^ 32.

End F32.

(** ** CUniform *)

Record CUniform : Type := mkCUniform {
  m_name : string;
  m_type : Z;          (* GL_xxx type identifier *)
  m_location : Z;
  m_data : list Z      (* the 16 words of dataUnit_t *)
}.

#[export] Instance CUniform_eq_dec : EqDecision CUniform.
Proof. solve_decision. Defined.

#[export] Instance CUniform_inhabited : Inhabited CUniform :=
  populate (mkCUniform "" 0 (-1) []).

(** A C integer used as a condition. *)
Definition c_true (z : Z) : bool := negb (z =? 0).

(** [CUniform::CUniform( const QString & name, int type, int location )],
    with the defaults [name=QString(), type=0, location=-1] of uniform.h.
    The second condition is the source's
    [m_type == GL_FLOAT_VEC2 || GL_FLOAT_VEC3 || GL_FLOAT_VEC4]. *)
Definition CUniform_new (name : string) (type location : Z) : CUniform :=
  let d := replicate 16 F32.zero in                       (* memset *)
  let d := if type =? GL_FLOAT then <[0%nat := F32.c0_1]> d else d in
  let d := if (type =? GL_FLOAT_VEC2) || c_true GL_FLOAT_VEC3 || c_true GL_FLOAT_VEC4
           then <[3%nat := F32.c0_4]> (<[2%nat := F32.c0_3]>
                  (<[1%nat := F32.c0_2]> (<[0%nat := F32.c0_1]> d)))
           else d in
  let d := if type =? GL_FLOAT_MAT2
           then <[0%nat := F32.one]> (<[3%nat := F32.one]> d) else d in
  let d := if type =? GL_FLOAT_MAT3
           then <[0%nat := F32.one]> (<[4%nat := F32.one]> (<[8%nat := F32.one]> d))
           else d in
  let d := if type =? GL_FLOAT_MAT4
           then <[0%nat := F32.one]> (<[5%nat := F32.one]>
                  (<[10%nat := F32.one]> (<[15%nat := F32.one]> d)))
           else d in
  mkCUniform name type location d.

(** [CUniform()] *)
Definition CUniform_default : CUniform := CUniform_new "" 0 (-1).

(** [CUniform::CUniform( const CUniform & u, int location )]: a copy of [u]
    whose location is replaced. *)
Definition CUniform_copy (u : CUniform) (location : Z) : CUniform :=
  mkCUniform (m_name u) (m_type u) location (m_data u).

(** [setValueAsFloat( component, value )]; [bits] is the binary32 image of
    [static_cast<float>( value )].  The source asserts
    [0 <= component < 4]. *)
Definition setValueAsFloat (component : nat) (bits : Z) (u : CUniform) : CUniform :=
  mkCUniform (m_name u) (m_type u) (m_location u) (<[component := bits]> (m_data u)).

(** [getValueAsInt( component )]: the int view of the shared words. *)
Definition getValueAsInt (component : nat) (u : CUniform) : Z :=
  F32.as_int (m_data u !!! component).

(** Payload predicates used to state what a default is. *)

(** The column-major [n] x [n] identity followed by zeros. *)
Definition identity_payload (n : nat) : list Z :=
  (λ k, if (k <? n * n)%nat && (k mod (n + 1) =? 0)%nat then F32.one else F32.zero)
    <$> seq 0 16.

Definition all_zero (d : list Z) : Prop := Forall (λ w, w = F32.zero) d.


(** ** QString helpers *)

(** The line feed written [\n] in the source. *)
Definition LF : string := String "010"%char EmptyString.

(** Lines, each closed by a line feed. *)
Definition lines (l : list string) : string :=
  foldr (λ x acc, x +:+ LF +:+ acc) "" l.

(** Case folding of the ASCII letters, as [Qt::CaseInsensitive] does on the
    identifiers a GLSL program can declare. *)
Definition ascii_to_lower (c : ascii) : ascii :=
  let n := nat_of_ascii c in
  if (65 <=? n)%nat && (n <=? 90)%nat then ascii_of_nat (n + 32) else c.

Fixpoint string_to_lower (s : string) : string :=
  match s with
  | EmptyString => EmptyString
  | String c r => String (ascii_to_lower c) (string_to_lower r)
  end.

(** [0 == a.compare( b, Qt::CaseInsensitive )] *)
Definition equal_CaseInsensitive (a b : string) : bool :=
  String.eqb (string_to_lower a) (string_to_lower b).

(** [0 == a.compare( b, Qt::CaseSensitive )], also [a == b] *)
Definition equal_CaseSensitive (a b : string) : bool := String.eqb a b.

(** [QString::isEmpty] *)
Definition isEmpty (s : string) : bool := String.eqb s "".

(** ** VertexAttribLocations (application.h) *)

Record VertexAttribLocations : Type := mkVertexAttribLocations {
  tangent : Z;      (* tangent attribute location *)
  bitangent : Z     (* bitangent attribute location *)
}.

(** [VertexAttribLocations()]: both default to -1, 'not present'. *)
Definition VertexAttribLocations_default : VertexAttribLocations :=
  mkVertexAttribLocations (-1) (-1).

(** ** The OpenGL driver

    Every call the program makes is recorded in order.  The driver's
    answers during one operation are given by a [Driver]: what each query
    returns, and for which calls the driver raises an exception (the case
    the [try]/[catch] of [compileAndLink] is written for). *)

Inductive GLcall : Type :=
| glUseProgram (program : Z)
| glDeleteProgram (program : Z)
| glDeleteShader (shader : Z)
| glCreateProgram
| glCreateShader (type : Z)
| glShaderSource (shader : Z) (source : string)
| glCompileShader (shader : Z)
| glGetShaderInfoLog (shader : Z)
| glGetShaderiv (shader pname : Z)
| glAttachShader (program shader : Z)
| glGetIntegerv (pname : Z)
| glProgramParameteriEXT (program pname value : Z)
| glLinkProgram (program : Z)
| glValidateProgram (program : Z)
| glGetProgramInfoLog (program : Z)
| glGetProgramiv (program pname : Z)
| glGetActiveUniform (program index : Z)
| glGetUniformLocation (program : Z) (name : string)
| glGetActiveAttrib (program index : Z)
| glGetAttribLocation (program : Z) (name : string)
| glUniformfv (components : nat) (location : Z) (value : list Z)
| glUniformMatrixfv (columns : nat) (location : Z) (value : list Z)
| glUniformiv (components : nat) (location : Z) (value : list Z)
| QTime_start.                      (* m_timer.start() *)

#[export] Instance GLcall_eq_dec : EqDecision GLcall.
Proof. solve_decision. Defined.

Record Driver : Type := mkDriver {
  drv_throws : GLcall → bool;
  drv_glCreateProgram : Z;
  drv_glCreateShader : Z → Z;                 (* by GL shader type *)
  drv_shaderInfoLog : Z → string;             (* by shader object *)
  drv_compileStatus : Z → Z;
  drv_linkInfoLog : Z → string;               (* info log read after linking *)
  drv_linkStatus : Z → Z;
  drv_validateStatus : Z → Z;
  drv_validateInfoLog : Z → string;           (* info log read after validating *)
  drv_activeUniforms : Z → Z;                 (* GL_ACTIVE_UNIFORMS *)
  drv_activeUniform : Z → Z → string * Z * Z; (* name, size, type *)
  drv_uniformLocation : Z → string → Z;
  drv_activeAttributes : Z → Z;               (* GL_ACTIVE_ATTRIBUTES *)
  drv_activeAttrib : Z → Z → string * Z * Z;  (* name, size, type *)
  drv_attribLocation : Z → string → Z
}.

(** The driver never raises an exception. *)
Definition no_fault (d : Driver) : Prop := ∀ c, drv_throws d c = false.

(** ** CShader (shader.cpp) *)

(** [IShader::shaderType_e] *)
Definition TYPE_VERTEX : Z := 0.
Definition TYPE_GEOMETRY : Z := 1.
Definition TYPE_FRAGMENT : Z := 2.
Definition MAX_SHADER_TYPES : Z := 3.

(** The values [0 <= i < MAX_SHADER_TYPES] of the [for] loops. *)
Definition shader_types : list Z := [TYPE_VERTEX; TYPE_GEOMETRY; TYPE_FRAGMENT].

Record CShader : Type := mkCShader {
  m_activeUniforms : list CUniform;     (* state of the uniforms *)
  m_oldUniforms : list CUniform;        (* from last state *)
  m_geometryShaderAvailable : bool;
  m_linked : bool;                      (* wether the program is ready to operate *)
  m_log : string;                       (* results of compile and link operation *)
  m_num_output : Z;
  m_geometryInputType : Z;
  m_geometryOutputType : Z;
  m_attribLocations : VertexAttribLocations;
  m_shaderSources : list string;        (* [ MAX_SHADER_TYPES ] *)
  m_shaders : list Z;                   (* [ MAX_SHADER_TYPES ] *)
  m_program : Z
}.

Definition set_activeUniforms (v : list CUniform) (s : CShader) : CShader :=
  mkCShader v (m_oldUniforms s) (m_geometryShaderAvailable s) (m_linked s) (m_log s)
    (m_num_output s) (m_geometryInputType s) (m_geometryOutputType s)
    (m_attribLocations s) (m_shaderSources s) (m_shaders s) (m_program s).

Definition set_oldUniforms (v : list CUniform) (s : CShader) : CShader :=
  mkCShader (m_activeUniforms s) v (m_geometryShaderAvailable s) (m_linked s) (m_log s)
    (m_num_output s) (m_geometryInputType s) (m_geometryOutputType s)
    (m_attribLocations s) (m_shaderSources s) (m_shaders s) (m_program s).

Definition set_linked (v : bool) (s : CShader) : CShader :=
  mkCShader (m_activeUniforms s) (m_oldUniforms s) (m_geometryShaderAvailable s) v (m_log s)
    (m_num_output s) (m_geometryInputType s) (m_geometryOutputType s)
    (m_attribLocations s) (m_shaderSources s) (m_shaders s) (m_program s).

Definition set_log (v : string) (s : CShader) : CShader :=
  mkCShader (m_activeUniforms s) (m_oldUniforms s) (m_geometryShaderAvailable s) (m_linked s) v
    (m_num_output s) (m_geometryInputType s) (m_geometryOutputType s)
    (m_attribLocations s) (m_shaderSources s) (m_shaders s) (m_program s).

Definition set_attribLocations (v : VertexAttribLocations) (s : CShader) : CShader :=
  mkCShader (m_activeUniforms s) (m_oldUniforms s) (m_geometryShaderAvailable s) (m_linked s)
    (m_log s) (m_num_output s) (m_geometryInputType s) (m_geometryOutputType s)
    v (m_shaderSources s) (m_shaders s) (m_program s).

Definition set_shaderSources (v : list string) (s : CShader) : CShader :=
  mkCShader (m_activeUniforms s) (m_oldUniforms s) (m_geometryShaderAvailable s) (m_linked s)
    (m_log s) (m_num_output s) (m_geometryInputType s) (m_geometryOutputType s)
    (m_attribLocations s) v (m_shaders s) (m_program s).

Definition set_shaders (v : list Z) (s : CShader) : CShader :=
  mkCShader (m_activeUniforms s) (m_oldUniforms s) (m_geometryShaderAvailable s) (m_linked s)
    (m_log s) (m_num_output s) (m_geometryInputType s) (m_geometryOutputType s)
    (m_attribLocations s) (m_shaderSources s) v (m_program s).

Definition set_program (v : Z) (s : CShader) : CShader :=
  mkCShader (m_activeUniforms s) (m_oldUniforms s) (m_geometryShaderAvailable s) (m_linked s)
    (m_log s) (m_num_output s) (m_geometryInputType s) (m_geometryOutputType s)
    (m_attribLocations s) (m_shaderSources s) (m_shaders s) v.

(** [CShader::CShader]; the source strings start empty. *)
Definition CShader_new : CShader :=
  mkCShader [] [] false false "" 4 GL_LINE_STRIP_ADJACENCY GL_TRIANGLE_STRIP
    VertexAttribLocations_default ["" ; "" ; ""] [0; 0; 0] 0.

(** [m_shaderSources[ shaderType ]] and [m_shaders[ shaderType ]] *)
Definition source_of (s : CShader) (shaderType : Z) : string :=
  m_shaderSources s !!! Z.to_nat shaderType.

Definition shader_of (s : CShader) (shaderType : Z) : Z :=
  m_shaders s !!! Z.to_nat shaderType.

(** [m_activeUniforms[ index ]] for a C [int] index; [None] outside
    [0 <= index < m_activeUniforms.size()]. *)
Definition uniform_at (l : list CUniform) (index : Z) : option CUniform :=
  if (index <? 0) || (Z.of_nat (length l) <=? index) then None
  else l !! Z.to_nat index.

(** [toGlShaderType]: maps TYPE_xy to GL_xy; the source asserts that no
    other symbol gets here. *)
Definition toGlShaderType (symbol : Z) : Z :=
  if symbol =? TYPE_VERTEX then GL_VERTEX_SHADER
  else if symbol =? TYPE_GEOMETRY then GL_GEOMETRY_SHADER_EXT
  else if symbol =? TYPE_FRAGMENT then GL_FRAGMENT_SHADER
  else 0.

Definition isShaderTypeAvailable (s : CShader) (type : Z) : bool :=
  if (type =? TYPE_VERTEX) || (type =? TYPE_FRAGMENT) then true
  else if type =? TYPE_GEOMETRY then m_geometryShaderAvailable s
  else false.

(** [IShader::getShaderTypeName] *)
Definition getShaderTypeName (symbol : Z) : string :=
  if symbol =? TYPE_VERTEX then "Vertex Shader"
  else if symbol =? TYPE_GEOMETRY then "Geometry Shader"
  else if symbol =? TYPE_FRAGMENT then "Fragment Shader"
  else "<bad shader type>".

(** [CUniform::getTypeNameString] *)
Definition getTypeNameString (type : Z) : string :=
  if type =? GL_FLOAT then "GL_FLOAT"
  else if type =? GL_FLOAT_VEC2 then "GL_FLOAT_VEC2"
  else if type =? GL_FLOAT_VEC3 then "GL_FLOAT_VEC3"
  else if type =? GL_FLOAT_VEC4 then "GL_FLOAT_VEC4"
  else if type =? GL_INT then "GL_INT"
  else if type =? GL_INT_VEC2 then "GL_INT_VEC2"
  else if type =? GL_INT_VEC3 then "GL_INT_VEC3"
  else if type =? GL_INT_VEC4 then "GL_INT_VEC4"
  else if type =? GL_BOOL then "GL_BOOL"
  else if type =? GL_BOOL_VEC2 then "GL_BOOL_VEC2"
  else if type =? GL_BOOL_VEC3 then "GL_BOOL_VEC3"
  else if type =? GL_BOOL_VEC4 then "GL_BOOL_VEC4"
  else if type =? GL_FLOAT_MAT2 then "GL_FLOAT_MAT2"
  else if type =? GL_FLOAT_MAT3 then "GL_FLOAT_MAT3"
  else if type =? GL_FLOAT_MAT4 then "GL_FLOAT_MAT4"
  else if type =? GL_SAMPLER_1D then "GL_SAMPLER_1D"
  else if type =? GL_SAMPLER_2D then "GL_SAMPLER_2D"
  else if type =? GL_SAMPLER_3D then "GL_SAMPLER_3D"
  else if type =? GL_SAMPLER_CUBE then "GL_SAMPLER_CUBE"
  else if type =? GL_SAMPLER_1D_SHADOW then "GL_SAMPLER_1D_SHADOW"
  else if type =? GL_SAMPLER_2D_SHADOW then "GL_SAMPLER_2D_SHADOW"
  else "<unknown type " +:+ pretty type +:+ ">".

(** The type names [logActiveAttributes] knows. *)
Definition attribTypeName (type : Z) : string :=
  if type =? GL_FLOAT then "GL_FLOAT"
  else if type =? GL_FLOAT_VEC2 then "GL_FLOAT_VEC2"
  else if type =? GL_FLOAT_VEC3 then "GL_FLOAT_VEC3"
  else if type =? GL_FLOAT_VEC4 then "GL_FLOAT_VEC4"
  else if type =? GL_FLOAT_MAT2 then "GL_FLOAT_MAT2"
  else if type =? GL_FLOAT_MAT3 then "GL_FLOAT_MAT3"
  else if type =? GL_FLOAT_MAT4 then "GL_FLOAT_MAT4"
  else "<bad type " +:+ pretty type +:+ ">".

(** The text [compileAndLink] puts in the log when the driver raised an
    exception. *)
Definition critical_error_log : string :=
  lines [ "*** CRITICAL ERROR ***";
          "";
          "  There was an exception thrown by the OpenGL driver!";
          "  You should immediately restart the editor!";
          "";
          "Check your sources for things like unresolved symbols.";
          "Missing varying variables can cause trouble too.";
          "";
          "Example:";
          "";
          "varying vec3 notDefinedInVertexShader;";
          "float foo(); // nowhere implemented";
          "";
          "vec3 bar()";
          "{";
          "    return notDefinedInVertexShader * foo();";
          "}";
          "" ].

(** ** Operations on the shader and the driver

    An operation runs from a [World], the object together with the calls
    made so far, and either returns a value or ends by an exception of the
    driver; the world it leaves is kept in both cases, as the members
    assigned before a C++ exception keep their values. *)

Record World : Type := mkWorld {
  shader : CShader;
  calls : list GLcall      (* in the order made *)
}.

Inductive outcome (A : Type) : Type :=
| Returned (a : A)
| Thrown.
Arguments Returned {A} a.
Arguments Thrown {A}.

Definition M (A : Type) : Type := World → outcome A * World.

Definition ret {A} (a : A) : M A := λ w, (Returned a, w).

Definition bind {A B} (m : M A) (k : A → M B) : M B :=
  λ w, match m w with
       | (Returned a, w') => k a w'
       | (Thrown, w') => (Thrown, w')
       end.

Declare Scope shader_scope.
Delimit Scope shader_scope with shader.
Notation "x <- m ;; k" := (bind m (λ x, k))
  (at level 100, m at next level, right associativity) : shader_scope.
Notation "m ;; k" := (bind m (λ _, k))
  (at level 100, k at level 200, right associativity) : shader_scope.
Local Open Scope shader_scope.

Definition get : M CShader := λ w, (Returned (shader w), w).

Definition modify (f : CShader → CShader) : M unit :=
  λ w, (Returned tt, mkWorld (f (shader w)) (calls w)).

(** [try { ... } catch( ... ) { ... }] *)
Definition try_catch {A} (body : M A) (handler : M A) : M A :=
  λ w, match body w with
       | (Returned a, w') => (Returned a, w')
       | (Thrown, w') => handler w'
       end.

(** [for] over the values of a list, in order. *)
Fixpoint for_each {A} (l : list A) (body : A → M unit) : M unit :=
  match l with
  | [] => ret tt
  | x :: r => (body x ;; for_each r body)
  end.

(** [for( int i = 0 ; i < n ; i++ )] *)
Definition for_upto (n : Z) (body : Z → M unit) : M unit :=
  for_each (Z.of_nat <$> seq 0 (Z.to_nat n)) body.

(** [m_log += text] *)
Definition log_append (text : string) : M unit :=
  modify (λ s, set_log (m_log s +:+ text) s).

(** [setupRememberedUniformState], on the two tables: the inner loop over
    [j], for the old entry [old]. *)
Definition remember_one (old : CUniform) (active : list CUniform) : list CUniform :=
  foldl (λ act j,
           match act !! j with
           | Some neu =>
               if negb (equal_CaseSensitive (m_name old) (m_name neu)) then act  (* continue *)
               else if negb (m_type old =? m_type neu) then act                  (* continue *)
               else <[j := CUniform_copy old (m_location neu)]> act
           | None => act
           end)
        active (seq 0 (length active)).

(** The outer loop over [i]. *)
Definition remember_all (olds active : list CUniform) : list CUniform :=
  foldl (λ act old, remember_one old act) active olds.

(** [updateTimeVariable]; [seconds] is the binary32 image of
    [double(m_timer.elapsed()) * 0.001]. *)
Definition is_time_variable (u : CUniform) : bool :=
  (m_type u =? GL_FLOAT) && equal_CaseInsensitive "time" (m_name u).

Definition updateTimeVariable (seconds : Z) (u : CUniform) : CUniform :=
  if is_time_variable u then setValueAsFloat 0 seconds u else u.

(** The [glUniform*] call [CUniform::applyToGL] selects by the type, if
    any. *)
Definition applyToGL_call (u : CUniform) : option GLcall :=
  let t := m_type u in
  let loc := m_location u in
  let floats n := take n (m_data u) in
  let ints n := F32.as_int <$> take n (m_data u) in
  if t =? GL_FLOAT then Some (glUniformfv 1 loc (floats 1%nat))
  else if t =? GL_FLOAT_VEC2 then Some (glUniformfv 2 loc (floats 2%nat))
  else if t =? GL_FLOAT_VEC3 then Some (glUniformfv 3 loc (floats 3%nat))
  else if t =? GL_FLOAT_VEC4 then Some (glUniformfv 4 loc (floats 4%nat))
  else if t =? GL_FLOAT_MAT2 then Some (glUniformMatrixfv 2 loc (floats 4%nat))
  else if t =? GL_FLOAT_MAT3 then Some (glUniformMatrixfv 3 loc (floats 9%nat))
  else if t =? GL_FLOAT_MAT4 then Some (glUniformMatrixfv 4 loc (floats 16%nat))
  else if (t =? GL_INT) || (t =? GL_BOOL) then Some (glUniformiv 1 loc (ints 1%nat))
  else if (t =? GL_INT_VEC2) || (t =? GL_BOOL_VEC2) then Some (glUniformiv 2 loc (ints 2%nat))
  else if (t =? GL_INT_VEC3) || (t =? GL_BOOL_VEC3) then Some (glUniformiv 3 loc (ints 3%nat))
  else if (t =? GL_INT_VEC4) || (t =? GL_BOOL_VEC4) then Some (glUniformiv 4 loc (ints 4%nat))
  else if (t =? GL_SAMPLER_1D) || (t =? GL_SAMPLER_2D) || (t =? GL_SAMPLER_3D) ||
          (t =? GL_SAMPLER_CUBE) || (t =? GL_SAMPLER_1D_SHADOW) || (t =? GL_SAMPLER_2D_SHADOW)
       then Some (glUniformiv 1 loc (ints 1%nat))
  else None.

Section WithDriver.

Variable drv : Driver.

(** One call into the driver: it is recorded, and ends the operation if
    the driver raises an exception. *)
Definition gl (c : GLcall) : M unit :=
  λ w, let w' := mkWorld (shader w) (calls w ++ [c]) in
       if drv_throws drv c then (Thrown, w') else (Returned tt, w').

(** [CUniform::applyToGL] *)
Definition applyToGL (u : CUniform) : M unit :=
  if m_location u =? -1 then ret tt          (* can't be set *)
  else match applyToGL_call u with
       | Some c => gl c
       | None => ret tt
       end.

(** [CShader::deactivateProgram] *)
Definition deactivateProgram : M unit :=
  modify (set_linked false) ;;
  modify (set_attribLocations VertexAttribLocations_default) ;;
  gl (glUseProgram 0) ;;
  s <- get ;;
  (if negb (m_program s =? 0)
   then gl (glDeleteProgram (m_program s)) ;; modify (set_program 0)
   else ret tt) ;;
  for_each shader_types (λ i,
    s <- get ;;
    if negb (shader_of s i =? 0)
    then gl (glDeleteShader (shader_of s i)) ;;
         modify (λ s, set_shaders (<[Z.to_nat i := 0]> (m_shaders s)) s)
    else ret tt).

(** [CShader::compileAndAttachShader]; on entry [m_shaders[ shaderType ]]
    is 0, which the source asserts and [deactivateProgram] ensures. *)
Definition compileAndAttachShader (shaderType : Z) : M bool :=
  s <- get ;;
  if negb (isShaderTypeAvailable s shaderType) then ret true   (* not supported, skip *)
  else if isEmpty (source_of s shaderType) then ret true       (* shader not used *)
  else
    log_append ("Compiling " +:+ getShaderTypeName shaderType +:+ LF) ;;
    gl (glCreateShader (toGlShaderType shaderType)) ;;
    let sh := drv_glCreateShader drv (toGlShaderType shaderType) in
    modify (λ s, set_shaders (<[Z.to_nat shaderType := sh]> (m_shaders s)) s) ;;
    if sh =? 0
    then log_append ("ERROR: failed on glCreateShader( " +:+
                     getShaderTypeName shaderType +:+ " )" +:+ LF) ;;
         ret false
    else
      gl (glShaderSource sh (source_of s shaderType)) ;;
      gl (glCompileShader sh) ;;
      gl (glGetShaderInfoLog sh) ;;
      log_append (drv_shaderInfoLog drv sh +:+ LF) ;;
      gl (glGetShaderiv sh GL_COMPILE_STATUS) ;;
      if negb (drv_compileStatus drv sh =? GL_FALSE)
      then gl (glAttachShader (m_program s) sh) ;; ret true     (* success *)
      else ret false.

(** [CShader::setupProgramParameters] *)
Definition setupProgramParameters : M unit :=
  s <- get ;;
  if m_geometryShaderAvailable s
  then gl (glGetIntegerv GL_MAX_GEOMETRY_OUTPUT_VERTICES_EXT) ;;
       gl (glProgramParameteriEXT (m_program s) GL_GEOMETRY_VERTICES_OUT_EXT (m_num_output s)) ;;
       gl (glProgramParameteriEXT (m_program s) GL_GEOMETRY_INPUT_TYPE_EXT
             (m_geometryInputType s)) ;;
       gl (glProgramParameteriEXT (m_program s) GL_GEOMETRY_OUTPUT_TYPE_EXT
             (m_geometryOutputType s))
  else ret tt.

(** [CShader::logActiveUniforms]; the place markers of each line are
    filled in order. *)
Definition logActiveUniforms : M unit :=
  s <- get ;;
  let p := m_program s in
  gl (glGetProgramiv p GL_ACTIVE_UNIFORMS) ;;
  log_append (LF +:+ "-----" +:+ LF +:+ LF) ;;
  log_append ("Active Uniforms:  <index:  name @ location,  type>" +:+ LF +:+ LF) ;;
  for_upto (drv_activeUniforms drv p) (λ i,
    gl (glGetActiveUniform p i) ;;
    let '(name, size, type) := drv_activeUniform drv p i in
    gl (glGetUniformLocation p name) ;;
    let loc := drv_uniformLocation drv p name in
    log_append (pretty i +:+ ":  " +:+ name +:+ " @ " +:+ pretty loc +:+ ",  " +:+
                getTypeNameString type +:+
                (if 1 <? size then " [ " +:+ pretty size +:+ " ]" else "") +:+ LF)) ;;
  log_append LF.

(** [CShader::logActiveAttributes] *)
Definition logActiveAttributes : M unit :=
  s <- get ;;
  let p := m_program s in
  gl (glGetProgramiv p GL_ACTIVE_ATTRIBUTES) ;;
  log_append (LF +:+ "-----" +:+ LF +:+ LF) ;;
  log_append ("Active Attributes:  <index: name @ location,  type>" +:+ LF +:+ LF) ;;
  for_upto (drv_activeAttributes drv p) (λ i,
    gl (glGetActiveAttrib p i) ;;
    let '(name, size, type) := drv_activeAttrib drv p i in
    gl (glGetAttribLocation p name) ;;
    let locus := drv_attribLocation drv p name in
    log_append (pretty i +:+ ": " +:+ name +:+ " @ " +:+ pretty locus +:+ ",  " +:+
                attribTypeName type +:+ LF)) ;;
  log_append LF.

(** [CShader::linkAndValidateProgram] *)
Definition linkAndValidateProgram : M bool :=
  log_append ("Linking..." +:+ LF) ;;
  setupProgramParameters ;;                      (* must be done before linking *)
  s <- get ;;
  let p := m_program s in
  gl (glLinkProgram p) ;;
  gl (glGetProgramInfoLog p) ;;
  log_append (drv_linkInfoLog drv p +:+ LF +:+ LF) ;;
  gl (glGetProgramiv p GL_LINK_STATUS) ;;
  modify (set_linked (negb (drv_linkStatus drv p =? GL_FALSE))) ;;
  gl (glValidateProgram p) ;;
  gl (glGetProgramiv p GL_VALIDATE_STATUS) ;;
  log_append ("Validation: " +:+
              (if c_true (drv_validateStatus drv p) then "succeeded" else "failed") +:+ LF) ;;
  gl (glGetProgramInfoLog p) ;;
  log_append (drv_validateInfoLog drv p +:+ LF) ;;
  log_append LF ;;
  gl QTime_start ;;                              (* restart timer *)
  gl (glGetAttribLocation p "attrTangent") ;;
  modify (λ s, set_attribLocations
                 (mkVertexAttribLocations (drv_attribLocation drv p "attrTangent")
                                          (bitangent (m_attribLocations s))) s) ;;
  gl (glGetAttribLocation p "attrBitangent") ;;
  modify (λ s, set_attribLocations
                 (mkVertexAttribLocations (tangent (m_attribLocations s))
                                          (drv_attribLocation drv p "attrBitangent")) s) ;;
  logActiveUniforms ;;
  logActiveAttributes ;;
  s <- get ;;
  ret (m_linked s).

(** The [CUniform] that [setupInitialUniforms] builds for index [i]. *)
Definition reflected_uniform (p i : Z) : CUniform :=
  let '(name, size, type) := drv_activeUniform drv p i in
  CUniform_new name type (drv_uniformLocation drv p name).

(** [CShader::setupInitialUniforms] *)
Definition setupInitialUniforms : M unit :=
  s <- get ;;
  let p := m_program s in
  gl (glGetProgramiv p GL_ACTIVE_UNIFORMS) ;;
  let n := drv_activeUniforms drv p in
  for_upto n (λ i,
    gl (glGetActiveUniform p i) ;;
    gl (glGetUniformLocation p (fst (fst (drv_activeUniform drv p i))))) ;;
  let uniforms := reflected_uniform p <$> (Z.of_nat <$> seq 0 (Z.to_nat n)) in
  (* replace buffers *)
  modify (λ s, set_oldUniforms (m_activeUniforms s) s) ;;
  modify (set_activeUniforms uniforms).

(** [CShader::setupRememberedUniformState] *)
Definition setupRememberedUniformState : M unit :=
  modify (λ s, set_activeUniforms (remember_all (m_oldUniforms s) (m_activeUniforms s)) s).

(** The loop of [compileAndLink2] over the shader types:
    [totalResult = totalResult && result] after each call. *)
Fixpoint compile_stages (types : list Z) (totalResult : bool) : M bool :=
  match types with
  | [] => ret totalResult
  | i :: r =>
      result <- compileAndAttachShader i ;;
      compile_stages r (totalResult && result)
  end.

(** [CShader::compileAndLink2] *)
Definition compileAndLink2 : M bool :=
  deactivateProgram ;;                           (* clean up old state *)
  modify (set_log "") ;;
  gl glCreateProgram ;;
  modify (set_program (drv_glCreateProgram drv)) ;;
  if drv_glCreateProgram drv =? 0
  then log_append ("ERROR: Failed on glCreateProgram()" +:+ LF) ;; ret false
  else
    totalResult <- compile_stages shader_types true ;;
    totalResult <- (if totalResult : bool
                    then result <- linkAndValidateProgram ;; ret (totalResult && result)
                    else ret totalResult) ;;
    (if totalResult : bool
     then setupInitialUniforms ;; setupRememberedUniformState
     else ret tt) ;;
    ret totalResult.

(** [CShader::compileAndLink] *)
Definition compileAndLink : M bool :=
  try_catch compileAndLink2
            (modify (set_log critical_error_log) ;; ret false).

(** [CShader::bindState]; the result pairs the return value with the
    [attribs] argument on return. *)
Definition bindState (seconds : Z) : M (bool * VertexAttribLocations) :=
  s <- get ;;
  if negb (m_program s =? 0) && m_linked s
  then
    gl (glUseProgram (m_program s)) ;;
    for_upto (Z.of_nat (length (m_activeUniforms s))) (λ i,
      s <- get ;;
      match m_activeUniforms s !! Z.to_nat i with
      | Some u =>
          let u' := updateTimeVariable seconds u in
          modify (λ s, set_activeUniforms (<[Z.to_nat i := u']> (m_activeUniforms s)) s) ;;
          applyToGL u'
      | None => ret tt
      end) ;;
    ret (true, m_attribLocations s)
  else
    gl (glUseProgram 0) ;;
    ret (false, VertexAttribLocations_default).

End WithDriver.

(** [CShader::setShaderSource] *)
Definition setShaderSource (shaderType : Z) (src : string) : M unit :=
  if (0 <=? shaderType) && (shaderType <? MAX_SHADER_TYPES)
  then modify (λ s, set_shaderSources (<[Z.to_nat shaderType := src]> (m_shaderSources s)) s)
  else ret tt.

(** [CShader::setUniform] *)
Definition setUniform (index : Z) (u : CUniform) : M unit :=
  s <- get ;;
  if negb (m_linked s) || (index <? 0) || (Z.of_nat (length (m_activeUniforms s)) <=? index)
  then ret tt                                   (* must be valid *)
  else
    let u2 := m_activeUniforms s !!! Z.to_nat index in
    if negb (equal_CaseSensitive (m_name u2) (m_name u)) ||
       negb (m_type u2 =? m_type u) ||
       negb (m_location u2 =? m_location u)
    then ret tt                                 (* type/name mismatch *)
    else modify (λ s, set_activeUniforms (<[Z.to_nat index := u]> (m_activeUniforms s)) s).

(** [CShader::getActiveUniforms] *)
Definition getActiveUniforms : M Z :=
  s <- get ;;
  if negb (m_linked s) then ret 0
  else ret (Z.of_nat (length (m_activeUniforms s))).

(** [CShader::getUniform] *)
Definition getUniform (index : Z) : M CUniform :=
  s <- get ;;
  if m_linked s && (0 <=? index) && (index <? Z.of_nat (length (m_activeUniforms s)))
  then ret (m_activeUniforms s !!! Z.to_nat index)
  else ret CUniform_default.                    (* invalid... *)

(** [CShader::getBuildLog] *)
Definition getBuildLog : M string :=
  s <- get ;; ret (m_log s).

(** Running an operation: the value returned, if any, and the object and
    calls it leaves. *)
Definition result_of {A} (r : outcome A * World) : outcome A := fst r.
Definition shader_after {A} (r : outcome A * World) : CShader := shader (snd r).
Definition calls_after {A} (r : outcome A * World) : list GLcall := calls (snd r).

(** ** How an old entry is carried into a new one

    [carry old neu] is what the body of the inner loop of
    [setupRememberedUniformState] leaves in place of [neu]. *)
Definition same_name_and_type (old neu : CUniform) : bool :=
  equal_CaseSensitive (m_name old) (m_name neu) && (m_type old =? m_type neu).

Definition carry (old neu : CUniform) : CUniform :=
  if same_name_and_type old neu then CUniform_copy old (m_location neu) else neu.

(** The last entry of the old table with the name and type of [neu]. *)
Definition last_match (olds : list CUniform) (neu : CUniform) : option CUniform :=
  last (filter (λ old, same_name_and_type old neu = true) olds).

(** The payload of the default constructor for every type but the matrices. *)
Definition tenths_payload : list Z :=
  [F32.c0_1; F32.c0_2; F32.c0_3; F32.c0_4] ++ replicate 12 F32.zero.

(** ** What one attempt does, stage by stage

    The values below describe a run of [compileAndAttachShader] on which
    the driver raises no exception. *)

(** The stage is compiled at all: it is available and has source. *)
Definition stage_attempted (s : CShader) (i : Z) : bool :=
  isShaderTypeAvailable s i && negb (isEmpty (source_of s i)).

(** The shader object the driver creates for the stage. *)
Definition stage_shader (d : Driver) (i : Z) : Z :=
  drv_glCreateShader d (toGlShaderType i).

(** The stage goes as far as [glCompileShader]. *)
Definition stage_compiled (d : Driver) (s : CShader) (i : Z) : bool :=
  stage_attempted s i && negb (stage_shader d i =? 0).

(** The value returned for the stage. *)
Definition stage_result (d : Driver) (s : CShader) (i : Z) : bool :=
  if stage_attempted s i
  then negb (stage_shader d i =? 0) &&
       negb (drv_compileStatus d (stage_shader d i) =? GL_FALSE)
  else true.

(** The text the stage appends to the build log. *)
Definition stage_log (d : Driver) (s : CShader) (i : Z) : string :=
  if stage_attempted s i
  then ("Compiling " +:+ getShaderTypeName i +:+ LF) +:+
       (if stage_shader d i =? 0
        then "ERROR: failed on glCreateShader( " +:+ getShaderTypeName i +:+ " )" +:+ LF
        else drv_shaderInfoLog d (stage_shader d i) +:+ LF)
  else "".

(** The calls the stage makes. *)
Definition stage_calls (d : Driver) (s : CShader) (i : Z) : list GLcall :=
  if stage_attempted s i
  then glCreateShader (toGlShaderType i) ::
       (if stage_shader d i =? 0 then []
        else [ glShaderSource (stage_shader d i) (source_of s i);
               glCompileShader (stage_shader d i);
               glGetShaderInfoLog (stage_shader d i);
               glGetShaderiv (stage_shader d i) GL_COMPILE_STATUS ] ++
             (if negb (drv_compileStatus d (stage_shader d i) =? GL_FALSE)
              then [glAttachShader (m_program s) (stage_shader d i)] else []))
  else [].

(** [m_shaders] after the stage. *)
Definition stage_shaders (d : Driver) (s : CShader) (i : Z) : list Z :=
  if stage_attempted s i then <[Z.to_nat i := stage_shader d i]> (m_shaders s)
  else m_shaders s.

(** Every stage returned true. *)
Definition stages_ok (d : Driver) (s : CShader) : bool :=
  stage_result d s TYPE_VERTEX && stage_result d s TYPE_GEOMETRY &&
  stage_result d s TYPE_FRAGMENT.

(** The link status the driver reports for the program it created. *)
Definition link_ok (d : Driver) : bool :=
  negb (drv_linkStatus d (drv_glCreateProgram d) =? GL_FALSE).


(** The table [setupInitialUniforms] reflects from the driver. *)
Definition reflected_table (d : Driver) : list CUniform :=
  reflected_uniform d (drv_glCreateProgram d)
    <$> (Z.of_nat <$> seq 0 (Z.to_nat (drv_activeUniforms d (drv_glCreateProgram d)))).

(** The calls that release objects, made by [deactivateProgram]. *)
Definition release_call (c : GLcall) : Prop :=
  match c with
  | glUseProgram _ | glDeleteProgram _ | glDeleteShader _ => True
  | _ => False
  end.

(** The calls [CUniform::applyToGL] makes for a uniform. *)
Definition uniform_calls (u : CUniform) : list GLcall :=
  if m_location u =? -1 then []
  else match applyToGL_call u with Some c => [c] | None => [] end.

(** ** Runs that return

    [runs m w post]: from [w] the operation returns; [post] holds of the
    value, the object it leaves and the calls it made. *)
Definition runs {A} (m : M A) (w : World) (post : A → CShader → list GLcall → Prop) : Prop :=
  ∃ a s' cs, m w = (Returned a, mkWorld s' (calls w ++ cs)) ∧ post a s' cs.

(** The members that releasing, compiling and logging leave alone: the
    two tables, the availability of the geometry stage and the sources. *)
Definition core (s : CShader) : list CUniform * list CUniform * bool * list string :=
  (m_activeUniforms s, m_oldUniforms s, m_geometryShaderAvailable s, m_shaderSources s).

(** [s'] differs from [s] at most in the log, the attribute locations and
    the shader objects. *)
Definition keeps (s s' : CShader) : Prop :=
  core s' = core s ∧ m_program s' = m_program s ∧ m_linked s' = m_linked s.

(** The value one attempt returns when the driver raises no exception:
    the program object was created, every stage returned true, and the
    driver reports the program as linked. *)
Definition attempt_result (d : Driver) (s : CShader) : bool :=
  negb (drv_glCreateProgram d =? 0) && stages_ok d s && link_ok d.

(** The object as the stages see it: the program is the one just
    created. *)
Definition with_new_program (d : Driver) (s : CShader) : CShader :=
  set_program (drv_glCreateProgram d) s.

(** The build log and the calls of an attempt that stops after the
    stages. *)
Definition stages_log (d : Driver) (s : CShader) : string :=
  stage_log d s TYPE_VERTEX +:+ stage_log d s TYPE_GEOMETRY +:+ stage_log d s TYPE_FRAGMENT.

Definition stages_calls (d : Driver) (s : CShader) : list GLcall :=
  stage_calls d (with_new_program d s) TYPE_VERTEX ++
  stage_calls d (with_new_program d s) TYPE_GEOMETRY ++
  stage_calls d (with_new_program d s) TYPE_FRAGMENT.

(** ** Example objects *)

(** A linked program with one reflected uniform, as left by a successful
    link of a fragment shader declaring [uniform vec4 myColor;]. *)
Definition example_linked : CShader :=
  set_linked true (set_program 1
    (set_activeUniforms [CUniform_new "myColor" GL_FLOAT_VEC4 3] CShader_new)).

(** A value read before a relink, when [myColor] was at location 5. *)
Definition example_stale_value : CUniform := CUniform_new "myColor" GL_FLOAT_VEC4 5.

(** The value of the user: red, at the current location. *)
Definition example_red : CUniform :=
  mkCUniform "myColor" GL_FLOAT_VEC4 3
    ([F32.one; F32.zero; F32.zero; F32.one] ++ replicate 12 F32.zero).

(** The payload (1, 2, 3) of a vec3, entered by the user. *)
Definition example_payload_123 : list Z :=
  [0x3F800000; 0x40000000; 0x40400000] ++ replicate 13 F32.zero.

(** After a relink: the old table holds [foo] at location 3 with the
    payload (1, 2, 3), the reflected table holds [foo] at location 7 with
    the default payload. *)
Definition example_relinked : CShader :=
  set_oldUniforms [mkCUniform "foo" GL_FLOAT_VEC3 3 example_payload_123]
    (set_activeUniforms [CUniform_new "foo" GL_FLOAT_VEC3 7] example_linked).

(** The same, with a driver that reported [foo] twice, at locations 7
    and 8. *)
Definition example_relinked_twice : CShader :=
  set_oldUniforms [mkCUniform "foo" GL_FLOAT_VEC3 3 example_payload_123]
    (set_activeUniforms [CUniform_new "foo" GL_FLOAT_VEC3 7; CUniform_new "foo" GL_FLOAT_VEC3 8]
       example_linked).

(** After a relink: the old table holds [foo] twice, as reflected from a
    driver that reported it at the locations 3 and 4, the first entry with
    the payload (1, 2, 3) entered by the user and the second with the
    default payload; the reflected table holds [foo] once, at location 7. *)
Definition example_relinked_two_olds : CShader :=
  set_oldUniforms [ mkCUniform "foo" GL_FLOAT_VEC3 3 example_payload_123;
                    mkCUniform "foo" GL_FLOAT_VEC3 4 tenths_payload ]
    (set_activeUniforms [CUniform_new "foo" GL_FLOAT_VEC3 7] example_linked).



(** A driver that accepts everything: the program is object 1, the
    shaders are objects 2, 3 and 4, every status is GL_TRUE, and the one
    active uniform is [myColor], a vec4 at location 3. *)
Definition example_driver : Driver :=
  mkDriver (λ _, false) 1
    (λ ty, if ty =? GL_VERTEX_SHADER then 2 else if ty =? GL_FRAGMENT_SHADER then 3 else 4)
    (λ _, "") (λ _, 1) (λ _, "") (λ _, 1) (λ _, 1) (λ _, "")
    (λ _, 1) (λ _ _, ("myColor", 1, GL_FLOAT_VEC4)) (λ _ _, 3)
    (λ _, 0) (λ _ _, ("", 0, 0)) (λ _ _, -1).

(** An object with a vertex and a fragment source, never linked. *)
Definition example_sources : CShader :=
  set_shaderSources [ "void main() { gl_Position = ftransform(); }"; "";
                      "void main() { gl_FragColor = vec4( 1.0 ); }" ] CShader_new.

(** An object with all three sources on a platform with geometry
    shaders; the fragment source has a syntax error. *)
Definition example_three_stages : CShader :=
  mkCShader [] [] true false "" 4 GL_LINE_STRIP_ADJACENCY GL_TRIANGLE_STRIP
    VertexAttribLocations_default
    [ "void main() { gl_Position = ftransform(); }";
      "void main() { }";
      "void main() { gl_FragColor = ; }" ]
    [0; 0; 0] 0.


(** [example_driver], but the fragment shader (object 3) does not
    compile. *)
Definition example_driver_syntax_error : Driver :=
  mkDriver (λ _, false) 1
    (λ ty, if ty =? GL_VERTEX_SHADER then 2 else if ty =? GL_FRAGMENT_SHADER then 3 else 4)
    (λ sh, if sh =? 3 then "ERROR: 0:1: syntax error" else "")
    (λ sh, if sh =? 3 then 0 else 1)
    (λ _, "") (λ _, 1) (λ _, 1) (λ _, "")
    (λ _, 1) (λ _ _, ("myColor", 1, GL_FLOAT_VEC4)) (λ _ _, 3)
    (λ _, 0) (λ _ _, ("", 0, 0)) (λ _ _, -1).

(** [example_driver], but [glValidateProgram] raises an exception. *)
Definition example_driver_faulty : Driver :=
  mkDriver (λ c, match c with glValidateProgram _ => true | _ => false end) 1
    (λ ty, if ty =? GL_VERTEX_SHADER then 2 else if ty =? GL_FRAGMENT_SHADER then 3 else 4)
    (λ _, "") (λ _, 1) (λ _, "") (λ _, 1) (λ _, 1) (λ _, "")
    (λ _, 1) (λ _ _, ("myColor", 1, GL_FLOAT_VEC4)) (λ _ _, 3)
    (λ _, 0) (λ _ _, ("", 0, 0)) (λ _ _, -1).

(** ** CUniform: the remaining accessors (uniform.cpp) *)

(** [CUniform::baseType_e] *)
Inductive baseType_e : Type :=
| BASE_TYPE_BAD
| BASE_TYPE_BOOL
| BASE_TYPE_INT
| BASE_TYPE_FLOAT
| BASE_TYPE_SAMPLER.

#[export] Instance baseType_e_eq_dec : EqDecision baseType_e.
Proof. solve_decision. Defined.

(** [setValueAsInt( component, value )]: the word gets the two's
    complement pattern of the [int].  The source asserts
    [0 <= component < 4]. *)
Definition setValueAsInt (component : nat) (value : Z) (u : CUniform) : CUniform :=
  mkCUniform (m_name u) (m_type u) (m_location u)
             (<[component := value mod 2 ^ 32]> (m_data u)).

(** [setValueAsBool( component, value )] calls [setValueAsInt] with the
    [bool] converted to [int]. *)
Definition setValueAsBool (component : nat) (value : bool) (u : CUniform) : CUniform :=
  setValueAsInt component (if value then 1 else 0) u.

(** [getValueAsBool( component )]: [m_data._int[ component ] ? true : false] *)
Definition getValueAsBool (component : nat) (u : CUniform) : bool :=
  negb (getValueAsInt component u =? 0).

(** [getValueAsFloat( component )], as the binary32 pattern stored. *)
Definition getValueAsFloat (component : nat) (u : CUniform) : Z :=
  m_data u !!! component.

(** [CUniform::getBaseType] *)
Definition getBaseType (u : CUniform) : baseType_e :=
  let t := m_type u in
  if (t =? GL_BOOL) || (t =? GL_BOOL_VEC2) || (t =? GL_BOOL_VEC3) || (t =? GL_BOOL_VEC4)
  then BASE_TYPE_BOOL
  else if (t =? GL_INT) || (t =? GL_INT_VEC2) || (t =? GL_INT_VEC3) || (t =? GL_INT_VEC4)
  then BASE_TYPE_INT
  else if (t =? GL_FLOAT) || (t =? GL_FLOAT_VEC2) || (t =? GL_FLOAT_VEC3) ||
          (t =? GL_FLOAT_VEC4) || (t =? GL_FLOAT_MAT2) || (t =? GL_FLOAT_MAT3) ||
          (t =? GL_FLOAT_MAT4)
  then BASE_TYPE_FLOAT
  else BASE_TYPE_BAD.

(** [CUniform::getColumnCount] *)
Definition getColumnCount (u : CUniform) : Z :=
  if m_type u =? GL_FLOAT_MAT2 then 2
  else if m_type u =? GL_FLOAT_MAT3 then 3
  else if m_type u =? GL_FLOAT_MAT4 then 4
  else 1.

(** [CUniform::isMatrix] *)
Definition isMatrix (u : CUniform) : bool :=
  (m_type u =? GL_FLOAT_MAT2) || (m_type u =? GL_FLOAT_MAT3) || (m_type u =? GL_FLOAT_MAT4).

(** [CUniform::getComponentCount] *)
Definition getComponentCount (u : CUniform) : Z :=
  let t := m_type u in
  if (t =? GL_BOOL) || (t =? GL_INT) || (t =? GL_FLOAT) then 1
  else if (t =? GL_BOOL_VEC2) || (t =? GL_INT_VEC2) || (t =? GL_FLOAT_VEC2) then 2
  else if (t =? GL_BOOL_VEC3) || (t =? GL_INT_VEC3) || (t =? GL_FLOAT_VEC3) then 3
  else if (t =? GL_BOOL_VEC4) || (t =? GL_INT_VEC4) || (t =? GL_FLOAT_VEC4) then 4
  else if t =? GL_FLOAT_MAT2 then 2
  else if t =? GL_FLOAT_MAT3 then 3
  else if t =? GL_FLOAT_MAT4 then 4
  else if (t =? GL_SAMPLER_1D) || (t =? GL_SAMPLER_2D) || (t =? GL_SAMPLER_3D) ||
          (t =? GL_SAMPLER_CUBE) || (t =? GL_SAMPLER_1D_SHADOW) || (t =? GL_SAMPLER_2D_SHADOW)
  then 1
  else 0.

(** The [switch] of [getColumnVector]: the number of components of a
    column and the type of the column vector; [None] in the [default]
    case. *)
Definition column_shape (u : CUniform) : option (nat * Z) :=
  if m_type u =? GL_FLOAT_MAT2 then Some (2%nat, GL_FLOAT_VEC2)
  else if m_type u =? GL_FLOAT_MAT3 then Some (3%nat, GL_FLOAT_VEC3)
  else if m_type u =? GL_FLOAT_MAT4 then Some (4%nat, GL_FLOAT_VEC4)
  else None.

(** The [assert] at the head of [getColumnVector] and the two at the head
    of [setColumnVector]: where they fail the program is aborted. *)
Definition getColumnVector_assert (column : Z) (u : CUniform) : bool :=
  column <? getColumnCount u.

Definition setColumnVector_assert (column : Z) (src u : CUniform) : bool :=
  (column <? getColumnCount u) && bool_decide (getBaseType src = getBaseType u).

(** [CUniform::getColumnVector( column )], on a call that passes
    [getColumnVector_assert] and, for a matrix, has [0 <= column]: element
    [components * column + i] of the payload is read for
    [i < components]. *)
Definition getColumnVector (column : Z) (u : CUniform) : CUniform :=
  match column_shape u with
  | None => CUniform_default                    (* not a valid matrix... *)
  | Some (components, type) =>
      let v := CUniform_new (m_name u +:+ "[" +:+ pretty column +:+ "]") type (-1) in
      foldl (λ v i,
               mkCUniform (m_name v) (m_type v) (m_location v)
                 (<[i := m_data u !!! Z.to_nat (Z.of_nat components * column + Z.of_nat i)]>
                    (m_data v)))
            v (seq 0 components)
  end.

(** [CUniform::setColumnVector( column, u )], on a call that passes
    [setColumnVector_assert] and, for a matrix, has [0 <= column]; [src] is
    the column vector. *)
Definition setColumnVector (column : Z) (src : CUniform) (u : CUniform) : CUniform :=
  let components := match column_shape u with Some (c, _) => c | None => 0%nat end in
  foldl (λ v i,
           mkCUniform (m_name v) (m_type v) (m_location v)
             (<[Z.to_nat (Z.of_nat components * column + Z.of_nat i) := m_data src !!! i]>
                (m_data v)))
        u (seq 0 components).

(** The payload has the 16 words of [dataUnit_t]. *)
Definition well_sized (u : CUniform) : Prop := length (m_data u) = 16%nat.

(** The type tags [getComponentCount] knows. *)
Definition known_types : list Z :=
  [ GL_FLOAT; GL_FLOAT_VEC2; GL_FLOAT_VEC3; GL_FLOAT_VEC4;
    GL_INT; GL_INT_VEC2; GL_INT_VEC3; GL_INT_VEC4;
    GL_BOOL; GL_BOOL_VEC2; GL_BOOL_VEC3; GL_BOOL_VEC4;
    GL_FLOAT_MAT2; GL_FLOAT_MAT3; GL_FLOAT_MAT4;
    GL_SAMPLER_1D; GL_SAMPLER_2D; GL_SAMPLER_3D; GL_SAMPLER_CUBE;
    GL_SAMPLER_1D_SHADOW; GL_SAMPLER_2D_SHADOW ].

Definition sampler_types : list Z :=
  [ GL_SAMPLER_1D; GL_SAMPLER_2D; GL_SAMPLER_3D; GL_SAMPLER_CUBE;
    GL_SAMPLER_1D_SHADOW; GL_SAMPLER_2D_SHADOW ].

(** A 3 x 3 matrix with the columns (1, 2, 3), (4, 5, 6), (7, 8, 9), the
    words being the numbers themselves for readability. *)
Definition example_mat3 : CUniform :=
  mkCUniform "m" GL_FLOAT_MAT3 2 ([1; 2; 3; 4; 5; 6; 7; 8; 9] ++ replicate 7 0).

(** A column vector (10, 20, 30). *)
Definition example_column : CUniform :=
  mkCUniform "c" GL_FLOAT_VEC3 (-1) ([10; 20; 30] ++ replicate 13 0).

(** The location and the values a [glUniform*] call carries. *)
Definition uniform_call_values (c : GLcall) : option (Z * list Z) :=
  match c with
  | glUniformfv _ location value
  | glUniformMatrixfv _ location value
  | glUniformiv _ location value => Some (location, value)
  | _ => None
  end.

(** Membership of a type tag in a list of tags, as a test. *)
Definition type_in (t : Z) (l : list Z) : bool := existsb (Z.eqb t) l.

(** The facts about one type tag that relate the tables of
    [getComponentCount], [getBaseType], [isMatrix] and [getColumnCount]. *)
Definition type_tables_check (t : Z) : bool :=
  let u := mkCUniform EmptyString t 0 [] in
  let count := getComponentCount u in
  (0 <=? count) && (count <=? 4) &&
  Bool.eqb (count =? 0) (negb (type_in t known_types)) &&
  Bool.eqb (isMatrix u) (1 <? getColumnCount u) &&
  implb (isMatrix u)
        ((getColumnCount u =? count) && bool_decide (getBaseType u = BASE_TYPE_FLOAT)) &&
  negb (bool_decide (getBaseType u = BASE_TYPE_SAMPLER)) &&
  Bool.eqb (bool_decide (getBaseType u = BASE_TYPE_BAD))
           (negb (type_in t known_types) || type_in t sampler_types) &&
  implb (type_in t sampler_types) (count =? 1).

(** ** CShader: shutdown and the geometry parameters (shader.cpp) *)

(** The primitive modes [setGeometryInputType] and [setGeometryOutputType]
    compare with, by their values in the OpenGL registry. *)
Module GLprimitive.

Definition GL_POINTS : Z := 0x0000.
Definition GL_LINES : Z := 0x0001.
Definition GL_LINE_STRIP : Z := 0x0003.
Definition GL_TRIANGLES : Z := 0x0004.
Definition GL_LINES_ADJACENCY_EXT : Z := 0x000A.
Definition GL_TRIANGLES_ADJACENCY_EXT : Z := 0x000C.

End GLprimitive.
Import GLprimitive.

Definition set_geometryShaderAvailable (v : bool) (s : CShader) : CShader :=
  mkCShader (m_activeUniforms s) (m_oldUniforms s) v (m_linked s) (m_log s)
    (m_num_output s) (m_geometryInputType s) (m_geometryOutputType s)
    (m_attribLocations s) (m_shaderSources s) (m_shaders s) (m_program s).

Definition set_num_output (v : Z) (s : CShader) : CShader :=
  mkCShader (m_activeUniforms s) (m_oldUniforms s) (m_geometryShaderAvailable s) (m_linked s)
    (m_log s) v (m_geometryInputType s) (m_geometryOutputType s)
    (m_attribLocations s) (m_shaderSources s) (m_shaders s) (m_program s).

Definition set_geometryInputType (v : Z) (s : CShader) : CShader :=
  mkCShader (m_activeUniforms s) (m_oldUniforms s) (m_geometryShaderAvailable s) (m_linked s)
    (m_log s) (m_num_output s) v (m_geometryOutputType s)
    (m_attribLocations s) (m_shaderSources s) (m_shaders s) (m_program s).

Definition set_geometryOutputType (v : Z) (s : CShader) : CShader :=
  mkCShader (m_activeUniforms s) (m_oldUniforms s) (m_geometryShaderAvailable s) (m_linked s)
    (m_log s) (m_num_output s) (m_geometryInputType s) v
    (m_attribLocations s) (m_shaderSources s) (m_shaders s) (m_program s).

(** [CShader::shutdown] *)
Definition shutdown (drv : Driver) : M unit :=
  modify (set_geometryShaderAvailable false) ;;
  deactivateProgram drv ;;
  for_each shader_types (λ i,
    modify (λ s, set_shaderSources (<[Z.to_nat i := ""]> (m_shaderSources s)) s)).

(** [CShader::setGeometryInputType] *)
Definition setGeometryInputType (type : Z) : M unit :=
  if (type =? GL_POINTS) || (type =? GL_LINES) || (type =? GL_LINES_ADJACENCY_EXT) ||
     (type =? GL_TRIANGLES) || (type =? GL_TRIANGLES_ADJACENCY_EXT)
  then modify (set_geometryInputType type)
  else ret tt.

(** [CShader::setGeometryOutputType] *)
Definition setGeometryOutputType (type : Z) : M unit :=
  if (type =? GL_POINTS) || (type =? GL_LINE_STRIP) || (type =? GL_TRIANGLE_STRIP)
  then modify (set_geometryOutputType type)
  else ret tt.

(** [CShader::setGeometryOutputNum] *)
Definition setGeometryOutputNum (type : Z) : M unit :=
  modify (set_num_output type).

(** The calls by which [deactivateProgram] releases the objects of [s]. *)
Definition release_calls (s : CShader) : list GLcall :=
  glUseProgram 0 ::
  (if m_program s =? 0 then [] else [glDeleteProgram (m_program s)]) ++
  (glDeleteShader <$> filter (λ sh, sh ≠ 0) (m_shaders s)).

(** The object [deactivateProgram] leaves. *)
Definition released (s : CShader) : CShader :=
  set_shaders [0; 0; 0]
    (set_program 0 (set_attribLocations VertexAttribLocations_default (set_linked false s))).

(** An object whose three shader handles are those of a finished attempt
    on [example_driver]. *)
Definition example_built : CShader :=
  set_shaders [2; 0; 3] example_linked.

(** ** The calls of the link step

    The values below describe a run of [linkAndValidateProgram] on which
    the driver raises no exception. *)

(** The calls of [setupProgramParameters]. *)
Definition geometry_parameter_calls (s : CShader) : list GLcall :=
  if m_geometryShaderAvailable s
  then [ glGetIntegerv GL_MAX_GEOMETRY_OUTPUT_VERTICES_EXT;
         glProgramParameteriEXT (m_program s) GL_GEOMETRY_VERTICES_OUT_EXT (m_num_output s);
         glProgramParameteriEXT (m_program s) GL_GEOMETRY_INPUT_TYPE_EXT (m_geometryInputType s);
         glProgramParameteriEXT (m_program s) GL_GEOMETRY_OUTPUT_TYPE_EXT
           (m_geometryOutputType s) ]
  else [].

(** Linking, validating, restarting the timer and asking for the two
    attribute locations. *)
Definition link_calls (p : Z) : list GLcall :=
  [ glLinkProgram p; glGetProgramInfoLog p; glGetProgramiv p GL_LINK_STATUS;
    glValidateProgram p; glGetProgramiv p GL_VALIDATE_STATUS; glGetProgramInfoLog p;
    QTime_start;
    glGetAttribLocation p "attrTangent"; glGetAttribLocation p "attrBitangent" ].

(** The calls of [logActiveUniforms] and of [logActiveAttributes]. *)
Definition uniform_listing_calls (d : Driver) (p : Z) : list GLcall :=
  glGetProgramiv p GL_ACTIVE_UNIFORMS ::
  concat ((λ i, [ glGetActiveUniform p i;
                  glGetUniformLocation p (drv_activeUniform d p i).1.1 ])
            <$> (Z.of_nat <$> seq 0 (Z.to_nat (drv_activeUniforms d p)))).

Definition attribute_listing_calls (d : Driver) (p : Z) : list GLcall :=
  glGetProgramiv p GL_ACTIVE_ATTRIBUTES ::
  concat ((λ i, [ glGetActiveAttrib p i;
                  glGetAttribLocation p (drv_activeAttrib d p i).1.1 ])
            <$> (Z.of_nat <$> seq 0 (Z.to_nat (drv_activeAttributes d p)))).

(** The members the stages and the geometry parameters are read from are
    those of [s], the program being the one just created. *)
Definition build_frame (d : Driver) (s s' : CShader) : Prop :=
  core s' = core s ∧ m_program s' = drv_glCreateProgram d ∧
  m_num_output s' = m_num_output s ∧ m_geometryInputType s' = m_geometryInputType s ∧
  m_geometryOutputType s' = m_geometryOutputType s.

(** ** CUniformWidget (uniformwidget.cpp)

    The widget works on the uniform table through [getActiveUniforms],
    [getUniform] and [setUniform] only.  Of the widget the index map, the
    four component sliders, the matrix column box and the selection of the
    combo box are modelled; labels, colors and the enabling of controls
    are not. *)

(** What the getters of a [CUniversalSlider] return for its value;
    [getContentFloat] is the binary32 image [setValueAsFloat] stores. *)
Record CUniversalSlider : Type := mkCUniversalSlider {
  getContentBool : bool;
  getContentInt : Z;
  getContentFloat : Z
}.

#[export] Instance CUniversalSlider_inhabited : Inhabited CUniversalSlider :=
  populate (mkCUniversalSlider false 0 0).


(** [CUniformWidget::acceptsUniform] *)
Definition acceptsUniform (u : CUniform) : bool :=
  if m_location u =? -1 then false                      (* not editable *)
  else if (m_type u =? GL_FLOAT) && equal_CaseInsensitive "time" (m_name u) then false
  else if isMatrix u && bool_decide (getBaseType u = BASE_TYPE_FLOAT) then true
  else match getBaseType u with
       | BASE_TYPE_BOOL | BASE_TYPE_INT | BASE_TYPE_FLOAT => true
       | _ => false
       end.

(** The loop of [readContentFromState] over [indices]; [indexMap] holds
    the entries [m_indexMap[ 0 ]] to [m_indexMap[ j - 1 ]] written so
    far. *)
Fixpoint fill_indexMap (indices : list Z) (indexMap : list Z) : M (list Z) :=
  match indices with
  | [] => ret indexMap
  | i :: r =>
      u <- getUniform i ;;
      if negb (acceptsUniform u) then fill_indexMap r indexMap       (* not supported *)
      else fill_indexMap r (indexMap ++ [i])
  end.

(** [CUniformWidget::readContentFromState], as far as the index map goes:
    the number of uniforms is read and the loop fills the map.  Filling
    the combo box and showing the first mapped uniform in the controls,
    which follow, are not modelled. *)
Definition readContentFromState : M (list Z) :=
  m_numUniforms <- getActiveUniforms ;;
  fill_indexMap (Z.of_nat <$> seq 0 (Z.to_nat m_numUniforms)) [].

(** The entry of the table at an index. *)
Definition entry_at (s : CShader) (i : nat) : CUniform := m_activeUniforms s !!! i.










(** * Properties *)

(** ** Constants *)

Lemma f32_constants_nearest :
  F32.is_nearest F32.c0_1 1 10 = true ∧ F32.is_nearest F32.c0_2 2 10 = true ∧
  F32.is_nearest F32.c0_3 3 10 = true ∧ F32.is_nearest F32.c0_4 4 10 = true ∧
  F32.is_nearest F32.one 1 1 = true.
Proof. repeat split; vm_compute; reflexivity. Qed.

(** ** The constructor of CUniform *)

Lemma CUniform_new_fields name type location :
  m_name (CUniform_new name type location) = name ∧
  m_type (CUniform_new name type location) = type ∧
  m_location (CUniform_new name type location) = location.
Proof. done. Qed.

(** The float scalar and the float vectors get the four components 0.1,
    0.2, 0.3, 0.4, none of which is zero. *)
Lemma CUniform_new_float_family name type location :
  type ∈ [GL_FLOAT; GL_FLOAT_VEC2; GL_FLOAT_VEC3; GL_FLOAT_VEC4] →
  m_data (CUniform_new name type location) = tenths_payload ∧
  Forall (λ w, w ≠ F32.zero) (take 4 (m_data (CUniform_new name type location))).
Proof.
  intros Ht. repeat (apply elem_of_cons in Ht as [-> | Ht]); try (by apply elem_of_nil in Ht);
    (split; [reflexivity | repeat constructor; discriminate]).
Qed.

(** So does every type of the Bool family, the Int family and the
    samplers: the condition on the float vectors is true for every type. *)
Lemma CUniform_new_bool_int_sampler name type location :
  type ∈ bool_int_sampler_types →
  m_data (CUniform_new name type location) = tenths_payload.
Proof.
  intros Ht. unfold bool_int_sampler_types in Ht.
  repeat (apply elem_of_cons in Ht as [-> | Ht]); try (by apply elem_of_nil in Ht);
    reflexivity.
Qed.

(** No constructed payload is all zero, whatever the type. *)
Lemma CUniform_new_never_zero name type location :
  ¬ all_zero (m_data (CUniform_new name type location)).
Proof.
  unfold all_zero. intros H.
  assert (Hd : ∃ w r, m_data (CUniform_new name type location) = w :: r ∧ w ≠ F32.zero).
  { unfold CUniform_new. cbn [m_data].
    replace (c_true GL_FLOAT_VEC3) with true by reflexivity.
    rewrite orb_true_r. cbn [orb].
    destruct (type =? GL_FLOAT); destruct (type =? GL_FLOAT_MAT2);
      destruct (type =? GL_FLOAT_MAT3); destruct (type =? GL_FLOAT_MAT4);
      cbn; eexists _, _; (split; [reflexivity | discriminate]). }
  destruct Hd as (w & r & Hd & Hw). rewrite Hd in H.
  apply Forall_cons in H as [H _]. done.
Qed.

(** The matrices: ones on the diagonal, but the first four words keep
    0.1 .. 0.4 wherever no diagonal element overwrites them. *)
Lemma CUniform_new_matrices name location :
  m_data (CUniform_new name GL_FLOAT_MAT2 location)
    = ([F32.one; F32.c0_2; F32.c0_3; F32.one] ++ replicate 12 F32.zero)%list ∧
  m_data (CUniform_new name GL_FLOAT_MAT3 location)
    = ([F32.one; F32.c0_2; F32.c0_3; F32.c0_4; F32.one; 0; 0; 0; F32.one]
         ++ replicate 7 F32.zero)%list ∧
  m_data (CUniform_new name GL_FLOAT_MAT4 location)
    = [F32.one; F32.c0_2; F32.c0_3; F32.c0_4; 0; F32.one; 0; 0;
       0; 0; F32.one; 0; 0; 0; 0; F32.one].
Proof. repeat split. Qed.

(** C1 (the code departs from the claim): constructing a Mat2 leaves 0.2
    and 0.3 off the diagonal, so the payload is not the identity, and
    constructing an Int leaves the bit patterns of 0.1 .. 0.4 in the shared
    words, so the payload is not zero and its first int component reads
    1036831949. *)
Theorem C1_constructor_defaults_at_failing_inputs :
  m_data (CUniform_new "m" GL_FLOAT_MAT2 0)
    = ([F32.one; F32.c0_2; F32.c0_3; F32.one] ++ replicate 12 F32.zero)%list ∧
  m_data (CUniform_new "m" GL_FLOAT_MAT2 0) ≠ identity_payload 2 ∧
  m_data (CUniform_new "i" GL_INT 0) = tenths_payload ∧
  ¬ all_zero (m_data (CUniform_new "i" GL_INT 0)) ∧
  getValueAsInt 0 (CUniform_new "i" GL_INT 0) = 1036831949.
Proof.
  split; [reflexivity |]. split; [discriminate |]. split; [reflexivity |].
  split; [apply CUniform_new_never_zero | reflexivity].
Qed.

(** ** The accessors of IUniformState *)

Lemma uniform_at_Some l index e :
  uniform_at l index = Some e →
  0 ≤ index ∧ index < Z.of_nat (length l) ∧ l !! Z.to_nat index = Some e.
Proof.
  unfold uniform_at. intros H.
  destruct (index <? 0) eqn:E1; [done |].
  destruct (Z.of_nat (length l) <=? index) eqn:E2; [done |].
  cbn in H. apply Z.ltb_ge in E1. apply Z.leb_gt in E2. done.
Qed.

Lemma uniform_at_lookup_total l index e :
  uniform_at l index = Some e → l !!! Z.to_nat index = e.
Proof.
  intros H. apply uniform_at_Some in H as (_ & _ & H).
  by apply list_lookup_total_correct.
Qed.

Lemma equal_CaseSensitive_true a b : equal_CaseSensitive a b = true ↔ a = b.
Proof. apply String.eqb_eq. Qed.

Lemma set_activeUniforms_id s : set_activeUniforms (m_activeUniforms s) s = s.
Proof. by destruct s. Qed.

(** The three operations never touch the driver and always return. *)
Lemma accessors_return index u w :
  (∃ w', setUniform index u w = (Returned tt, w') ∧ calls w' = calls w) ∧
  (∃ n, getActiveUniforms w = (Returned n, w)) ∧
  (∃ v, getUniform index w = (Returned v, w)).
Proof.
  destruct w as [s tr]. repeat split.
  - unfold setUniform, bind, get, ret, modify; cbn.
    repeat match goal with |- context [if ?c then _ else _] => destruct c end;
      eexists; split; reflexivity.
  - unfold getActiveUniforms, bind, get, ret; cbn.
    destruct (negb (m_linked s)); eexists; reflexivity.
  - unfold getUniform, bind, get, ret; cbn.
    match goal with |- context [if ?c then _ else _] => destruct c end;
      eexists; reflexivity.
Qed.

(** [setShaderSource] stores the text and does nothing else: no call is
    made, and the link status stays as it is until the next attempt. *)
Lemma setShaderSource_run shaderType src w :
  ∃ sources,
    setShaderSource shaderType src w
    = (Returned tt, mkWorld (set_shaderSources sources (shader w)) (calls w)).
Proof.
  unfold setShaderSource, modify, ret.
  destruct ((0 <=? shaderType) && (shaderType <? MAX_SHADER_TYPES)).
  - by eexists.
  - exists (m_shaderSources (shader w)). by destruct w as [[] ?].
Qed.

(** C9: [setUniform] leaves the object as it is when the stored entry at
    the index differs from the supplied value in name, type or location;
    the object changes only if the program is linked and the stored entry
    has the same name, type and location; and in that case the value is
    stored at the index. *)
Theorem C9_setUniform_requires_name_type_location
    (s : CShader) (tr : list GLcall) (index : Z) (u : CUniform) :
  let r := setUniform index u (mkWorld s tr) in
  (∀ e, uniform_at (m_activeUniforms s) index = Some e →
        m_name e ≠ m_name u ∨ m_type e ≠ m_type u ∨ m_location e ≠ m_location u →
        r = (Returned tt, mkWorld s tr)) ∧
  (shader_after r ≠ s →
     m_linked s = true ∧
     ∃ e, uniform_at (m_activeUniforms s) index = Some e ∧
          m_name e = m_name u ∧ m_type e = m_type u ∧ m_location e = m_location u) ∧
  (∀ e, m_linked s = true →
        uniform_at (m_activeUniforms s) index = Some e →
        m_name e = m_name u → m_type e = m_type u → m_location e = m_location u →
        r = (Returned tt,
             mkWorld (set_activeUniforms (<[Z.to_nat index := u]> (m_activeUniforms s)) s) tr)).
Proof.
  cbn zeta. unfold setUniform, bind, get, ret, modify, shader_after. cbn.
  split; [| split].
  - intros e He Hne. rewrite (uniform_at_lookup_total _ _ _ He).
    apply uniform_at_Some in He as (H0 & H1 & _).
    destruct (m_linked s); cbn; [| done].
    destruct (index <? 0); cbn; [done |].
    destruct (Z.of_nat (length (m_activeUniforms s)) <=? index); cbn; [done |].
    destruct (equal_CaseSensitive (m_name e) (m_name u)) eqn:En; cbn; [| done].
    destruct (m_type e =? m_type u) eqn:Et; cbn; [| done].
    destruct (m_location e =? m_location u) eqn:El; cbn; [| done].
    apply equal_CaseSensitive_true in En. apply Z.eqb_eq in Et, El.
    destruct Hne as [? | [? | ?]]; done.
  - destruct (m_linked s); cbn; [| done].
    unfold uniform_at.
    destruct (index <? 0) eqn:E1; cbn; [done |].
    destruct (Z.of_nat (length (m_activeUniforms s)) <=? index) eqn:E2; cbn; [done |].
    apply Z.ltb_ge in E1. apply Z.leb_gt in E2.
    destruct (m_activeUniforms s !! Z.to_nat index) as [e |] eqn:Hl.
    + rewrite (list_lookup_total_correct _ _ _ Hl).
      destruct (equal_CaseSensitive (m_name e) (m_name u)) eqn:En; cbn; [| done].
      destruct (m_type e =? m_type u) eqn:Et; cbn; [| done].
      destruct (m_location e =? m_location u) eqn:El; cbn; [| done].
      intros _. split; [done |]. exists e.
      apply equal_CaseSensitive_true in En. apply Z.eqb_eq in Et, El. done.
    + apply lookup_ge_None in Hl. lia.
  - intros e Hlk He Hn Ht Hl. rewrite (uniform_at_lookup_total _ _ _ He).
    apply uniform_at_Some in He as (H0 & H1 & _).
    rewrite Hlk. cbn.
    destruct (index <? 0) eqn:E1; [apply Z.ltb_lt in E1; lia |].
    destruct (Z.of_nat (length (m_activeUniforms s)) <=? index) eqn:E2;
      [apply Z.leb_le in E2; lia |].
    cbn. rewrite Hn, Ht, Hl. unfold equal_CaseSensitive.
    rewrite String.eqb_refl, !Z.eqb_refl. done.
Qed.

Lemma C9_setUniform_requires_name_type_location_witness :
  setUniform 0 example_stale_value (mkWorld example_linked [])
    = (Returned tt, mkWorld example_linked []) ∧
  setUniform 0 example_red (mkWorld example_linked [])
    = (Returned tt, mkWorld (set_activeUniforms [example_red] example_linked) []).
Proof.
  pose proof (C9_setUniform_requires_name_type_location
                example_linked [] 0 example_stale_value) as (H1 & _ & _).
  pose proof (C9_setUniform_requires_name_type_location
                example_linked [] 0 example_red) as (_ & _ & H3).
  split.
  - apply (H1 (CUniform_new "myColor" GL_FLOAT_VEC4 3)); [reflexivity |].
    right; right. cbn. lia.
  - apply (H3 (CUniform_new "myColor" GL_FLOAT_VEC4 3)); reflexivity.
Defined.

(** C10: while the program is not linked, [getActiveUniforms] returns 0
    whatever table is stored and [getUniform] returns the default
    [CUniform] (empty name, type 0, location -1); [getUniform] returns that
    default for every index outside the table as well; and neither
    accessor changes the object. *)
Theorem C10_accessors_without_usable_program
    (s : CShader) (tr : list GLcall) (index : Z) :
  let w := mkWorld s tr in
  (m_linked s = false →
     getActiveUniforms w = (Returned 0, w) ∧
     getUniform index w = (Returned CUniform_default, w)) ∧
  (index < 0 ∨ Z.of_nat (length (m_activeUniforms s)) ≤ index →
     getUniform index w = (Returned CUniform_default, w)) ∧
  snd (getActiveUniforms w) = w ∧
  snd (getUniform index w) = w ∧
  m_name CUniform_default = "" ∧
  m_type CUniform_default = 0 ∧
  m_location CUniform_default = -1.
Proof.
  cbn zeta. unfold getActiveUniforms, getUniform, bind, get, ret. cbn.
  split; [| split; [| split; [| split]]].
  - intros ->. done.
  - intros Hi. destruct (m_linked s); cbn; [| done].
    destruct (0 <=? index) eqn:E1; cbn; [| done].
    destruct (index <? Z.of_nat (length (m_activeUniforms s))) eqn:E2; [| done].
    apply Z.leb_le in E1. apply Z.ltb_lt in E2. lia.
  - by destruct (negb (m_linked s)).
  - by destruct (m_linked s && (0 <=? index) &&
                 (index <? Z.of_nat (length (m_activeUniforms s)))).
  - done.
Qed.

Lemma C10_accessors_without_usable_program_witness :
  getActiveUniforms (mkWorld (set_linked false example_linked) [])
    = (Returned 0, mkWorld (set_linked false example_linked) []) ∧
  getUniform 0 (mkWorld (set_linked false example_linked) [])
    = (Returned CUniform_default, mkWorld (set_linked false example_linked) []) ∧
  getUniform 1 (mkWorld example_linked [])
    = (Returned CUniform_default, mkWorld example_linked []).
Proof.
  pose proof (C10_accessors_without_usable_program
                (set_linked false example_linked) [] 0) as (H1 & _).
  pose proof (C10_accessors_without_usable_program example_linked [] 1) as (_ & H2 & _).
  split; [| split].
  - apply H1. reflexivity.
  - apply H1. reflexivity.
  - apply H2. right. cbn. lia.
Defined.

(** ** Carrying values over a relink *)

Lemma carry_fields old neu :
  m_name (carry old neu) = m_name neu ∧
  m_type (carry old neu) = m_type neu ∧
  m_location (carry old neu) = m_location neu.
Proof.
  unfold carry, same_name_and_type.
  destruct (equal_CaseSensitive (m_name old) (m_name neu)) eqn:En; cbn; [| done].
  destruct (m_type old =? m_type neu) eqn:Et; cbn; [| done].
  apply equal_CaseSensitive_true in En. apply Z.eqb_eq in Et. done.
Qed.

Lemma same_name_and_type_true old neu :
  same_name_and_type old neu = true ↔ m_name old = m_name neu ∧ m_type old = m_type neu.
Proof.
  unfold same_name_and_type.
  rewrite andb_true_iff, equal_CaseSensitive_true, Z.eqb_eq. done.
Qed.

Lemma same_name_and_type_carry o old neu :
  same_name_and_type o (carry old neu) = same_name_and_type o neu.
Proof.
  destruct (carry_fields old neu) as (Hn & Ht & _).
  unfold same_name_and_type. by rewrite Hn, Ht.
Qed.

(** The inner loop replaces each entry by what [carry] gives for it. *)
Lemma remember_one_from old (done_ todo : list CUniform) :
  foldl (λ act j,
           match act !! j with
           | Some neu =>
               if negb (equal_CaseSensitive (m_name old) (m_name neu)) then act
               else if negb (m_type old =? m_type neu) then act
               else <[j := CUniform_copy old (m_location neu)]> act
           | None => act
           end)
        (done_ ++ todo) (seq (length done_) (length todo))
  = done_ ++ (carry old <$> todo).
Proof.
  revert done_. induction todo as [| x todo IH]; intros done_; [done |].
  cbn [length seq foldl fmap list_fmap].
  rewrite list_lookup_middle by done.
  assert (Hstep :
    (if negb (equal_CaseSensitive (m_name old) (m_name x)) then done_ ++ x :: todo
     else if negb (m_type old =? m_type x) then done_ ++ x :: todo
     else <[length done_ := CUniform_copy old (m_location x)]> (done_ ++ x :: todo))
    = (done_ ++ [carry old x]) ++ todo).
  { rewrite <- app_assoc. cbn. unfold carry, same_name_and_type.
    destruct (equal_CaseSensitive (m_name old) (m_name x)); cbn; [| done].
    destruct (m_type old =? m_type x); cbn; [| done].
    replace (length done_) with (length done_ + 0)%nat at 1 by lia.
    by rewrite insert_app_r. }
  rewrite Hstep.
  replace (S (length done_)) with (length (done_ ++ [carry old x]))
    by (rewrite length_app; cbn; lia).
  rewrite IH. by rewrite <- app_assoc.
Qed.

Lemma remember_one_carry old active :
  remember_one old active = carry old <$> active.
Proof. apply (remember_one_from old [] active). Qed.

(** What the whole migration leaves at an index: the entry, with every
    old entry carried into it in turn. *)
Lemma remember_all_lookup olds active j :
  remember_all olds active !! j
  = (λ neu, foldl (λ n old, carry old n) neu olds) <$> active !! j.
Proof.
  unfold remember_all. revert active.
  induction olds as [| old olds IH]; intros active; cbn.
  - by destruct (active !! j).
  - rewrite IH, remember_one_carry, list_lookup_fmap.
    by destruct (active !! j).
Qed.

Lemma remember_all_length olds active :
  length (remember_all olds active) = length active.
Proof.
  unfold remember_all. revert active.
  induction olds as [| old olds IH]; intros active; cbn; [done |].
  by rewrite IH, remember_one_carry, length_fmap.
Qed.

(** Carrying the old entries in turn amounts to carrying the last one
    that has the name and type of the entry. *)
Lemma carry_all_last_match olds neu :
  foldl (λ n old, carry old n) neu olds
  = match last_match olds neu with
    | Some old => CUniform_copy old (m_location neu)
    | None => neu
    end.
Proof.
  induction olds as [| old olds IH] using rev_ind; [done |].
  rewrite foldl_snoc.
  assert (Hsame : same_name_and_type old (foldl (λ n o, carry o n) neu olds)
                  = same_name_and_type old neu).
  { clear. induction olds as [| o olds IH] using rev_ind; [done |].
    by rewrite foldl_snoc, same_name_and_type_carry. }
  unfold carry at 1. rewrite Hsame, IH.
  assert (Hloc : m_location (match last_match olds neu with
                             | Some old0 => CUniform_copy old0 (m_location neu)
                             | None => neu end) = m_location neu)
    by (destruct (last_match olds neu); done).
  rewrite Hloc. unfold last_match. rewrite filter_app.
  destruct (same_name_and_type old neu) eqn:E.
  - rewrite filter_cons_True by done. cbn. by rewrite last_snoc.
  - rewrite filter_cons_False by (rewrite E; done). cbn. by rewrite app_nil_r.
Qed.

(** The result of the migration, entry by entry. *)
Lemma remember_all_last_match olds active j :
  remember_all olds active !! j
  = (λ neu, match last_match olds neu with
            | Some old => CUniform_copy old (m_location neu)
            | None => neu
            end) <$> active !! j.
Proof.
  rewrite remember_all_lookup. destruct (active !! j) as [neu |]; [| done].
  cbn. by rewrite carry_all_last_match.
Qed.

Lemma last_match_Some olds neu old :
  last_match olds neu = Some old →
  old ∈ olds ∧ m_name old = m_name neu ∧ m_type old = m_type neu.
Proof.
  unfold last_match. intros H. apply last_Some_elem_of in H.
  apply list_elem_of_filter in H as [H ?]. by apply same_name_and_type_true in H.
Qed.

Lemma last_match_None olds neu :
  last_match olds neu = None →
  ∀ old, old ∈ olds → ¬ (m_name old = m_name neu ∧ m_type old = m_type neu).
Proof.
  unfold last_match. intros H old Hin Hm. apply last_None in H.
  assert (Hf : old ∈ filter (λ o, same_name_and_type o neu = true) olds)
    by (apply list_elem_of_filter; split; [by apply same_name_and_type_true | done]).
  rewrite H in Hf. by apply elem_of_nil in Hf.
Qed.

Lemma setupRememberedUniformState_run w :
  setupRememberedUniformState w
  = (Returned tt,
     mkWorld (set_activeUniforms
                (remember_all (m_oldUniforms (shader w)) (m_activeUniforms (shader w)))
                (shader w))
             (calls w)).
Proof. reflexivity. Qed.

(** C4 (as stated, fails): the old table holds [foo] twice, with the
    payload (1, 2, 3) and with the default payload.  The first old entry
    and the new entry have the same name and type, yet the new entry does
    not end with the payload (1, 2, 3) of that old entry: the second old
    entry is carried into it afterwards. *)
Lemma C4_earlier_old_entry_is_overwritten :
  let olds := m_oldUniforms example_relinked_two_olds in
  let news := m_activeUniforms example_relinked_two_olds in
  let res := m_activeUniforms
               (shader_after (setupRememberedUniformState
                                (mkWorld example_relinked_two_olds []))) in
  olds !! 0%nat = Some (mkCUniform "foo" GL_FLOAT_VEC3 3 example_payload_123) ∧
  news !! 0%nat = Some (CUniform_new "foo" GL_FLOAT_VEC3 7) ∧
  res !! 0%nat = Some (mkCUniform "foo" GL_FLOAT_VEC3 7 tenths_payload) ∧
  res !! 0%nat ≠ Some (mkCUniform "foo" GL_FLOAT_VEC3 7 example_payload_123).
Proof.
  cbn zeta. repeat (apply conj); [reflexivity | reflexivity | reflexivity |].
  intros H. vm_compute in H. discriminate H.
Qed.

(** C4 (amended): migration keeps the length of the new table and the
    name, type and location of each of its entries; a new entry with the
    name and type of an old entry gets that old entry's payload when all
    old entries of that name and type agree on it, as they do when the
    name occurs once in the old table; in general it gets the payload of
    the last old entry of its name and type; a new entry with no old entry
    of its name and type is left as it was reflected. *)
Theorem C4_migration_copies_payload_keeps_location (s : CShader) (tr : list GLcall) :
  let olds := m_oldUniforms s in
  let news := m_activeUniforms s in
  let res := m_activeUniforms (shader_after (setupRememberedUniformState (mkWorld s tr))) in
  length res = length news ∧
  (∀ j neu, news !! j = Some neu →
     ∃ r, res !! j = Some r ∧ m_name r = m_name neu ∧ m_type r = m_type neu ∧
          m_location r = m_location neu) ∧
  (∀ i j old neu,
     olds !! i = Some old → news !! j = Some neu →
     m_name old = m_name neu → m_type old = m_type neu →
     (∀ old', old' ∈ olds → m_name old' = m_name old → m_type old' = m_type old →
              m_data old' = m_data old) →
     res !! j = Some (mkCUniform (m_name neu) (m_type neu) (m_location neu) (m_data old))) ∧
  (∀ j neu, news !! j = Some neu →
     (∀ old, old ∈ olds → ¬ (m_name old = m_name neu ∧ m_type old = m_type neu)) →
     res !! j = Some neu) ∧
  (∀ j neu old, news !! j = Some neu → last_match olds neu = Some old →
     res !! j = Some (mkCUniform (m_name neu) (m_type neu) (m_location neu) (m_data old))).
Proof.
  cbn zeta. rewrite setupRememberedUniformState_run. unfold shader_after. cbn.
  split; [apply remember_all_length |]. split; [| split; [| split]].
  - intros j neu Hj. rewrite remember_all_last_match, Hj. cbn.
    eexists; split; [reflexivity |].
    destruct (last_match (m_oldUniforms s) neu) as [old |] eqn:E; [| done].
    apply last_match_Some in E as (_ & Hn & Ht). done.
  - intros i j old neu Hi Hj Hn Ht Hagree.
    rewrite remember_all_last_match, Hj. cbn.
    destruct (last_match (m_oldUniforms s) neu) as [old' |] eqn:E.
    + apply last_match_Some in E as (Hin & Hn' & Ht').
      unfold CUniform_copy. rewrite Hn', Ht'.
      rewrite (Hagree old' Hin) by congruence. done.
    + exfalso. eapply last_match_None; [exact E | | by split].
      eapply list_elem_of_lookup_2; exact Hi.
  - intros j neu Hj Hnone. rewrite remember_all_last_match, Hj. cbn.
    destruct (last_match (m_oldUniforms s) neu) as [old |] eqn:E; [| done].
    apply last_match_Some in E as (Hin & Hn & Ht). by destruct (Hnone old Hin).
  - intros j neu old Hj Hlast. rewrite remember_all_last_match, Hj. cbn. rewrite Hlast.
    apply last_match_Some in Hlast as (_ & Hn & Ht).
    unfold CUniform_copy. by rewrite Hn, Ht.
Qed.

(** A value entered at location 3 is found at location 7 after the
    relink. *)
Lemma C4_migration_copies_payload_keeps_location_witness :
  m_activeUniforms (shader_after (setupRememberedUniformState (mkWorld example_relinked [])))
    !! 0%nat
  = Some (mkCUniform "foo" GL_FLOAT_VEC3 7 example_payload_123).
Proof.
  pose proof (C4_migration_copies_payload_keeps_location example_relinked [])
    as (_ & _ & H & _).
  apply (H 0%nat 0%nat (mkCUniform "foo" GL_FLOAT_VEC3 3 example_payload_123)
           (CUniform_new "foo" GL_FLOAT_VEC3 7)); try reflexivity.
  intros old' Hin _ _. apply list_elem_of_singleton in Hin. by subst.
Defined.

(** C5 (as stated, fails): with [foo] twice in the new table, the second
    entry is not left at its reflected default; it receives the old
    payload like the first. *)
Lemma C5_later_duplicate_not_left_at_default :
  let res := m_activeUniforms
               (shader_after (setupRememberedUniformState (mkWorld example_relinked_twice []))) in
  res !! 1%nat = Some (mkCUniform "foo" GL_FLOAT_VEC3 8 example_payload_123) ∧
  res !! 1%nat ≠ m_activeUniforms example_relinked_twice !! 1%nat.
Proof. split; [reflexivity | discriminate]. Qed.

(** C5 (amended): every entry of the new table becomes, when some old
    entry has its name and type, a copy of the last such old entry at the
    new entry's own location, and stays as reflected otherwise; so two new
    entries of one name and type both receive the payload of that old
    entry. *)
Theorem C5_migration_reaches_every_duplicate (s : CShader) (tr : list GLcall) :
  let olds := m_oldUniforms s in
  let news := m_activeUniforms s in
  let res := m_activeUniforms (shader_after (setupRememberedUniformState (mkWorld s tr))) in
  (∀ j, res !! j = (λ neu, match last_match olds neu with
                          | Some old => CUniform_copy old (m_location neu)
                          | None => neu
                          end) <$> news !! j) ∧
  (∀ j k n1 n2 old,
     news !! j = Some n1 → news !! k = Some n2 →
     m_name n1 = m_name n2 → m_type n1 = m_type n2 →
     last_match olds n1 = Some old →
     res !! j = Some (CUniform_copy old (m_location n1)) ∧
     res !! k = Some (CUniform_copy old (m_location n2))).
Proof.
  cbn zeta. rewrite setupRememberedUniformState_run. unfold shader_after. cbn.
  split; [intros j; apply remember_all_last_match |].
  intros j k n1 n2 old Hj Hk Hn Ht Hlast.
  rewrite !remember_all_last_match, Hj, Hk. cbn.
  assert (Hlast2 : last_match (m_oldUniforms s) n2 = Some old).
  { rewrite <- Hlast. unfold last_match, same_name_and_type. by rewrite Hn, Ht. }
  by rewrite Hlast, Hlast2.
Qed.

Lemma C5_migration_reaches_every_duplicate_witness :
  let res := m_activeUniforms
               (shader_after (setupRememberedUniformState (mkWorld example_relinked_twice []))) in
  res !! 0%nat = Some (mkCUniform "foo" GL_FLOAT_VEC3 7 example_payload_123) ∧
  res !! 1%nat = Some (mkCUniform "foo" GL_FLOAT_VEC3 8 example_payload_123).
Proof.
  pose proof (C5_migration_reaches_every_duplicate example_relinked_twice []) as (_ & H).
  apply (H 0%nat 1%nat (CUniform_new "foo" GL_FLOAT_VEC3 7) (CUniform_new "foo" GL_FLOAT_VEC3 8)
           (mkCUniform "foo" GL_FLOAT_VEC3 3 example_payload_123)); reflexivity.
Defined.

(** ** Running the operations *)

Lemma append_nil_r (a : string) : a +:+ "" = a.
Proof.
  induction a as [| c a IH]; [done |].
  change (String c (a +:+ "") = String c a). by rewrite IH.
Qed.

Lemma append_assoc (a b c : string) : (a +:+ b) +:+ c = a +:+ (b +:+ c).
Proof.
  induction a as [| x a IH]; [done |].
  change (String x ((a +:+ b) +:+ c) = String x (a +:+ (b +:+ c))). by rewrite IH.
Qed.

Lemma run_bind {A B} (m : M A) (k : A → M B) w a w' :
  m w = (Returned a, w') → bind m k w = k a w'.
Proof. unfold bind. by intros ->. Qed.

Section NoFault.

Variable d : Driver.
Hypothesis Hnf : no_fault d.

Lemma gl_run c w :
  gl d c w = (Returned tt, mkWorld (shader w) (calls w ++ [c])).
Proof. unfold gl. by rewrite Hnf. Qed.

Lemma applyToGL_run u w :
  applyToGL d u w = (Returned tt, mkWorld (shader w) (calls w ++ uniform_calls u)).
Proof.
  unfold applyToGL, uniform_calls.
  destruct (m_location u =? -1).
  - unfold ret. rewrite app_nil_r. by destruct w.
  - destruct (applyToGL_call u); [apply gl_run |].
    unfold ret. rewrite app_nil_r. by destruct w.
Qed.

Lemma set_activeUniforms_twice l l' s :
  set_activeUniforms l (set_activeUniforms l' s) = set_activeUniforms l s.
Proof. done. Qed.

(** The loop of [bindState], from the entry after [done_] on. *)
Lemma bindState_loop seconds (todo done_ : list CUniform) s tr :
  m_activeUniforms s = done_ ++ todo →
  for_each (Z.of_nat <$> seq (length done_) (length todo))
    (λ i, s <- get ;;
          match m_activeUniforms s !! Z.to_nat i with
          | Some u =>
              modify (λ s, set_activeUniforms
                             (<[Z.to_nat i := updateTimeVariable seconds u]>
                                (m_activeUniforms s)) s) ;;
              applyToGL d (updateTimeVariable seconds u)
          | None => ret tt
          end)
    (mkWorld s tr)
  = (Returned tt,
     mkWorld (set_activeUniforms (done_ ++ (updateTimeVariable seconds <$> todo)) s)
             (tr ++ concat (uniform_calls <$> (updateTimeVariable seconds <$> todo)))).
Proof.
  revert done_ s tr. induction todo as [| x todo IH]; intros done_ s tr Hs.
  - cbn. unfold ret. rewrite !app_nil_r, <- (app_nil_r done_), <- Hs.
    by rewrite set_activeUniforms_id.
  - cbn [length seq fmap list_fmap for_each].
    unfold bind at 1. unfold bind at 1. unfold get at 1. cbn [shader].
    rewrite Nat2Z.id, Hs, list_lookup_middle by done.
    unfold bind at 1. unfold modify at 1. cbn [shader calls].
    rewrite applyToGL_run. cbn [shader calls]. rewrite Hs.
    rewrite insert_app_r_alt by lia. rewrite Nat.sub_diag. cbn [insert list_insert].
    replace (S (length done_)) with (length (done_ ++ [updateTimeVariable seconds x]))
      by (rewrite length_app; cbn; lia).
    rewrite IH by (cbn; by rewrite <- app_assoc).
    rewrite set_activeUniforms_twice, <- !app_assoc. done.
Qed.

(** [bindState] on a linked program: every entry is replaced by what
    [updateTimeVariable] gives for it and is then pushed to the driver. *)
Lemma bindState_linked seconds s tr :
  m_linked s = true → m_program s ≠ 0 →
  bindState d seconds (mkWorld s tr)
  = (Returned (true, m_attribLocations s),
     mkWorld (set_activeUniforms (updateTimeVariable seconds <$> m_activeUniforms s) s)
             (tr ++ glUseProgram (m_program s) ::
                    concat (uniform_calls <$> (updateTimeVariable seconds <$> m_activeUniforms s)))).
Proof.
  intros Hl Hp. unfold bindState. cbn zeta.
  unfold bind at 1. unfold get at 1. cbn [shader].
  rewrite Hl. apply Z.eqb_neq in Hp. rewrite Hp. cbn [negb andb].
  unfold bind at 1. rewrite gl_run. cbn [shader calls].
  unfold for_upto. rewrite Nat2Z.id.
  unfold bind at 1.
  rewrite (bindState_loop seconds (m_activeUniforms s) [] s) by done.
  unfold ret. cbn. by rewrite <- app_assoc.
Qed.

End NoFault.

(** [bindState] without a linked program: the fixed-function pipeline is
    selected, nothing else happens, and the attribute locations returned
    are the defaults. *)
Lemma bindState_unlinked d seconds s tr :
  drv_throws d (glUseProgram 0) = false →
  m_linked s = false ∨ m_program s = 0 →
  bindState d seconds (mkWorld s tr)
  = (Returned (false, VertexAttribLocations_default), mkWorld s (tr ++ [glUseProgram 0])).
Proof.
  intros Hnf H. unfold bindState, bind, get, gl, ret. cbn.
  assert (Hc : negb (m_program s =? 0) && m_linked s = false).
  { destruct H as [-> | ->]; [apply andb_false_r | done]. }
  rewrite Hc. cbn. by rewrite Hnf.
Qed.

Lemma example_driver_no_fault : no_fault example_driver.
Proof. intros c. reflexivity. Qed.

(** ** The uniform named "time" *)




(** ** One attempt of compiling and linking, the driver raising no
    exception *)

Lemma runs_ret {A} (a : A) w post :
  post a (shader w) [] → runs (ret a) w post.
Proof.
  intros H. exists a, (shader w), []. rewrite app_nil_r. by destruct w.
Qed.

Lemma runs_bind {A B} (m : M A) (k : A → M B) w Q R :
  runs m w Q →
  (∀ a s' cs, Q a s' cs →
     runs (k a) (mkWorld s' (calls w ++ cs)) (λ b s'' cs', R b s'' (cs ++ cs'))) →
  runs (bind m k) w R.
Proof.
  intros (a & s' & cs & Hm & HQ) Hk.
  destruct (Hk a s' cs HQ) as (b & s'' & cs' & Hka & HR).
  exists b, s'', (cs ++ cs'). rewrite (run_bind _ _ _ _ _ Hm), Hka.
  cbn. by rewrite app_assoc.
Qed.

Lemma runs_bind_get {B} (k : CShader → M B) w R :
  runs (k (shader w)) w R → runs (bind get k) w R.
Proof. intros H. unfold bind, get. exact H. Qed.

Lemma runs_bind_modify {B} f (k : unit → M B) w R :
  runs (k tt) (mkWorld (f (shader w)) (calls w)) R → runs (bind (modify f) k) w R.
Proof. intros H. unfold bind, modify. exact H. Qed.

(** A loop keeps what its body keeps. *)
Lemma runs_for_each {A} (l : list A) (body : A → M unit) (Inv : CShader → Prop) :
  (∀ x s tr, Inv s → runs (body x) (mkWorld s tr) (λ _ s' _, Inv s')) →
  ∀ s tr, Inv s → runs (for_each l body) (mkWorld s tr) (λ _ s' _, Inv s').
Proof.
  intros Hbody. induction l as [| x l IH]; intros s tr HI; cbn [for_each].
  - by apply runs_ret.
  - eapply runs_bind; [by apply Hbody |].
    intros a s' cs HI'. cbn. by apply IH.
Qed.

Section Attempt.

Variable d : Driver.
Hypothesis Hnf : no_fault d.

Lemma runs_bind_gl {B} c (k : unit → M B) w R :
  runs (k tt) (mkWorld (shader w) (calls w ++ [c])) (λ b s' cs, R b s' (c :: cs)) →
  runs (bind (gl d c) k) w R.
Proof.
  intros (b & s' & cs & Hk & HR). exists b, s', (c :: cs).
  rewrite (run_bind _ _ _ _ _ (gl_run d Hnf c w)), Hk. cbn.
  by rewrite <- app_assoc.
Qed.

(** One step of a run, the object after a [modify] being known by the
    property [P] only. *)
Lemma runs_bind_modify_inv {B} f (k : unit → M B) w R (P : CShader → Prop) :
  P (f (shader w)) →
  (∀ s', P s' → runs (k tt) (mkWorld s' (calls w)) R) →
  runs (bind (modify f) k) w R.
Proof. intros HP Hk. apply runs_bind_modify. by apply Hk. Qed.

Lemma runs_modify_inv f w (P : CShader → Prop) :
  P (f (shader w)) → runs (modify f) w (λ _ s' _, P s').
Proof.
  intros HP. exists tt, (f (shader w)), []. split; [| done].
  unfold modify. by rewrite app_nil_r.
Qed.

Ltac step :=
  lazymatch goal with
  | |- runs (bind get _) _ _ => simple apply runs_bind_get; cbn [shader calls]
  | |- runs (bind (gl d _) _) _ _ => simple apply runs_bind_gl; cbn [shader calls]
  end.

Ltac step_modify inv :=
  simple apply runs_bind_modify_inv with (P := inv);
  [ cbn [shader]; solve [unfold keeps in *; cbn in *; intuition congruence]
  | cbn [calls]; intros ? ? ].

Tactic Notation "step_modify_as" ident(x) ident(Hx) constr(inv) :=
  simple apply runs_bind_modify_inv with (P := inv);
  [ cbn [shader]; solve [unfold keeps in *; cbn in *; intuition congruence]
  | cbn [calls]; intros x Hx ].

Lemma runs_gl c w (post : unit → CShader → list GLcall → Prop) :
  post tt (shader w) [c] → runs (gl d c) w post.
Proof. intros H. exists tt, (shader w), [c]. by rewrite gl_run. Qed.

(** Splits on the conditions met while running an operation. *)
Ltac crunch :=
  repeat (first [ rewrite Hnf
                | match goal with
                  | |- context [if ?c then _ else _] => destruct c eqn:?
                  end ];
          cbn).

(** [deactivateProgram]: the program and the shaders are released, the
    link status and the attribute locations are reset, nothing else
    changes. *)
Lemma deactivateProgram_run s tr :
  ∃ sh cs,
    deactivateProgram d (mkWorld s tr)
    = (Returned tt,
       mkWorld (set_shaders sh (set_program 0
                  (set_attribLocations VertexAttribLocations_default (set_linked false s))))
               (tr ++ cs)) ∧
    Forall release_call cs.
Proof.
  unfold deactivateProgram, shader_types, for_each, bind, modify, get, ret, gl.
  cbn. crunch;
    (eexists _, _; split;
     [ rewrite <- ?app_assoc; unfold set_shaders, set_program, set_attribLocations, set_linked;
       cbn;
       try match goal with H : negb (m_program s =? 0) = false |- _ =>
             apply negb_false_iff, Z.eqb_eq in H; rewrite H end;
       reflexivity
     | repeat (apply Forall_cons_2; [exact I |]); apply Forall_nil_2 ]).
Qed.

(** [compileAndAttachShader], in terms of the stage descriptions. *)
Lemma compileAndAttachShader_run i s tr :
  compileAndAttachShader d i (mkWorld s tr)
  = (Returned (stage_result d s i),
     mkWorld (set_shaders (stage_shaders d s i) (set_log (m_log s +:+ stage_log d s i) s))
             (tr ++ stage_calls d s i)).
Proof.
  unfold compileAndAttachShader, stage_result, stage_shaders, stage_log, stage_calls,
    stage_attempted, stage_shader, log_append, bind, modify, get, ret, gl.
  cbn.
  destruct (isShaderTypeAvailable s i); cbn;
    [| rewrite app_nil_r, append_nil_r; by destruct s].
  destruct (isEmpty (source_of s i)); cbn;
    [rewrite app_nil_r, append_nil_r; by destruct s |].
  rewrite !Hnf. cbn.
  destruct (drv_glCreateShader d (toGlShaderType i) =? 0); cbn.
  { by rewrite <- ?app_assoc, ?append_assoc. }
  rewrite ?Hnf. cbn.
  destruct (drv_compileStatus d (drv_glCreateShader d (toGlShaderType i)) =? GL_FALSE); cbn;
    rewrite ?Hnf; cbn; by rewrite <- ?app_assoc, ?append_assoc.
Qed.

(** The descriptions of a stage read the sources, the availability of
    the geometry stage and the program only. *)
Lemma stage_frame sh t s i :
  stage_result d (set_shaders sh (set_log t s)) i = stage_result d s i ∧
  stage_log d (set_shaders sh (set_log t s)) i = stage_log d s i ∧
  stage_calls d (set_shaders sh (set_log t s)) i = stage_calls d s i.
Proof. done. Qed.

Lemma compile_stages_run s tr :
  ∃ sh,
    compile_stages d shader_types true (mkWorld s tr)
    = (Returned (stages_ok d s),
       mkWorld (set_shaders sh
                  (set_log (m_log s +:+ stage_log d s TYPE_VERTEX +:+
                            stage_log d s TYPE_GEOMETRY +:+ stage_log d s TYPE_FRAGMENT) s))
               (tr ++ stage_calls d s TYPE_VERTEX ++ stage_calls d s TYPE_GEOMETRY ++
                      stage_calls d s TYPE_FRAGMENT)).
Proof.
  unfold shader_types, compile_stages.
  rewrite (run_bind _ _ _ _ _ (compileAndAttachShader_run _ _ _)).
  rewrite (run_bind _ _ _ _ _ (compileAndAttachShader_run _ _ _)).
  rewrite (run_bind _ _ _ _ _ (compileAndAttachShader_run _ _ _)).
  unfold ret.
  repeat match goal with
  | |- context [stage_result d (set_shaders ?sh (set_log ?t ?s0)) ?i] =>
      rewrite (proj1 (stage_frame sh t s0 i))
  | |- context [stage_log d (set_shaders ?sh (set_log ?t ?s0)) ?i] =>
      rewrite (proj1 (proj2 (stage_frame sh t s0 i)))
  | |- context [stage_calls d (set_shaders ?sh (set_log ?t ?s0)) ?i] =>
      rewrite (proj2 (proj2 (stage_frame sh t s0 i)))
  end.
  set (l0 := stage_log d s TYPE_VERTEX). set (l1 := stage_log d s TYPE_GEOMETRY).
  set (l2 := stage_log d s TYPE_FRAGMENT).
  set (c0 := stage_calls d s TYPE_VERTEX). set (c1 := stage_calls d s TYPE_GEOMETRY).
  set (c2 := stage_calls d s TYPE_FRAGMENT).
  eexists. apply f_equal2; [reflexivity |]. apply f_equal2.
  - unfold set_shaders, set_log. cbn. rewrite !append_assoc. reflexivity.
  - by rewrite <- !app_assoc.
Qed.

(** The operations that only write to the log. *)
Lemma setupProgramParameters_runs s tr :
  runs (setupProgramParameters d) (mkWorld s tr) (λ _ s' _, s' = s).
Proof.
  unfold setupProgramParameters. step.
  destruct (m_geometryShaderAvailable s); [| by apply runs_ret].
  do 3 step. by apply runs_gl.
Qed.

Lemma logActiveUniforms_runs s tr :
  runs (logActiveUniforms d) (mkWorld s tr) (λ _ s' _, keeps s s').
Proof.
  unfold logActiveUniforms, log_append. do 2 step.
  step_modify (keeps s). step_modify (keeps s).
  eapply runs_bind.
  - unfold for_upto. apply (runs_for_each _ _ (keeps s)); [| done].
    intros i s0 tr0 Hs0. step.
    destruct (drv_activeUniform d (m_program s) i) as [[name size] type].
    step. by apply runs_modify_inv.
  - intros a s2 cs Hs2. cbn beta. by apply runs_modify_inv.
Qed.

Lemma logActiveAttributes_runs s tr :
  runs (logActiveAttributes d) (mkWorld s tr) (λ _ s' _, keeps s s').
Proof.
  unfold logActiveAttributes, log_append. do 2 step.
  step_modify (keeps s). step_modify (keeps s).
  eapply runs_bind.
  - unfold for_upto. apply (runs_for_each _ _ (keeps s)); [| done].
    intros i s0 tr0 Hs0. step.
    destruct (drv_activeAttrib d (m_program s) i) as [[name size] type].
    step. by apply runs_modify_inv.
  - intros a s2 cs Hs2. cbn beta. by apply runs_modify_inv.
Qed.

(** [linkAndValidateProgram] returns the link status the driver reports,
    which is also the value left in [m_linked]; apart from that it changes
    the attribute locations and the log. *)
Lemma linkAndValidateProgram_runs s tr :
  runs (linkAndValidateProgram d) (mkWorld s tr)
       (λ r s' _, r = negb (drv_linkStatus d (m_program s) =? GL_FALSE) ∧
                  m_linked s' = r ∧ core s' = core s ∧ m_program s' = m_program s).
Proof.
  unfold linkAndValidateProgram, log_append.
  step_modify (keeps s).
  eapply runs_bind; [apply setupProgramParameters_runs |].
  intros a s0 cs0 ->. cbn [calls]. step.
  destruct H as (Hc & Hp & _). rewrite Hp.
  set (L := negb (drv_linkStatus d (m_program s) =? GL_FALSE)).
  do 2 step. step_modify (λ s', core s' = core s ∧ m_program s' = m_program s).
  step. step_modify (λ s', m_linked s' = L ∧ core s' = core s ∧ m_program s' = m_program s).
  do 2 step.
  step_modify (λ s', m_linked s' = L ∧ core s' = core s ∧ m_program s' = m_program s).
  step.
  step_modify (λ s', m_linked s' = L ∧ core s' = core s ∧ m_program s' = m_program s).
  step_modify (λ s', m_linked s' = L ∧ core s' = core s ∧ m_program s' = m_program s).
  do 2 step.
  step_modify (λ s', m_linked s' = L ∧ core s' = core s ∧ m_program s' = m_program s).
  step.
  step_modify (λ s', m_linked s' = L ∧ core s' = core s ∧ m_program s' = m_program s).
  eapply runs_bind; [apply logActiveUniforms_runs |].
  intros a1 s1 cs1 (Hc1 & Hp1 & Hl1). cbn [calls].
  eapply runs_bind; [apply logActiveAttributes_runs |].
  intros a2 s2 cs2 (Hc2 & Hp2 & Hl2). cbn [calls]. step. apply runs_ret.
  cbn [shader]. subst L. intuition congruence.
Qed.

(** [setupInitialUniforms] moves the table to [m_oldUniforms] and puts
    the reflected table in its place. *)
Lemma setupInitialUniforms_runs s tr :
  runs (setupInitialUniforms d) (mkWorld s tr)
       (λ _ s' _,
          s' = set_activeUniforms
                 (reflected_uniform d (m_program s)
                    <$> (Z.of_nat <$> seq 0 (Z.to_nat (drv_activeUniforms d (m_program s)))))
                 (set_oldUniforms (m_activeUniforms s) s)).
Proof.
  unfold setupInitialUniforms. do 2 step.
  eapply runs_bind.
  - unfold for_upto. apply (runs_for_each _ _ (λ s', s' = s)); [| done].
    intros i s0 tr0 ->. step. by apply runs_gl.
  - intros a s' cs ->. cbn beta. apply runs_bind_modify. by apply runs_modify_inv.
Qed.

(** The descriptions of a stage are the same for two objects with the
    same sources, availability of the geometry stage and program. *)
Lemma stage_congruence s s' i :
  core s' = core s → m_program s' = m_program s →
  stage_result d s' i = stage_result d s i ∧
  stage_log d s' i = stage_log d s i ∧
  stage_calls d s' i = stage_calls d s i.
Proof.
  unfold core. intros [= _ _ Hg Hs] Hp.
  unfold stage_result, stage_log, stage_calls, stage_attempted, isShaderTypeAvailable,
    source_of.
  by rewrite Hg, Hs, Hp.
Qed.

Lemma stages_congruence s s' :
  core s' = core s →
  stages_ok d s' = stages_ok d s ∧ stages_log d s' = stages_log d s ∧
  stages_calls d s' = stages_calls d s.
Proof.
  intros Hc. unfold stages_ok, stages_log, stages_calls, with_new_program.
  assert (H : ∀ i, stage_result d s' i = stage_result d s i ∧
                   stage_log d s' i = stage_log d s i ∧
                   stage_calls d (set_program (drv_glCreateProgram d) s') i
                   = stage_calls d (set_program (drv_glCreateProgram d) s) i).
  { intros i. destruct (stage_congruence (set_program (drv_glCreateProgram d) s)
                          (set_program (drv_glCreateProgram d) s') i) as (H1 & H2 & H3);
      [by unfold core in *; cbn | done |]. done. }
  split; [| split].
  - by rewrite !(proj1 (H _)).
  - by rewrite !(proj1 (proj2 (H _))).
  - by rewrite !(proj2 (proj2 (H _))).
Qed.

Lemma deactivateProgram_runs s tr :
  runs (deactivateProgram d) (mkWorld s tr)
       (λ _ s' cs, core s' = core s ∧ m_linked s' = false ∧ m_log s' = m_log s ∧
                   m_attribLocations s' = VertexAttribLocations_default ∧
                   Forall release_call cs).
Proof.
  destruct (deactivateProgram_run s tr) as (sh & rel & Hd & Hrel).
  exists tt; eexists _, rel. split; [exact Hd |]. done.
Qed.

Lemma compile_stages_runs s tr :
  runs (compile_stages d shader_types true) (mkWorld s tr)
       (λ r s' cs, r = stages_ok d s ∧ core s' = core s ∧ m_linked s' = m_linked s ∧
                   m_program s' = m_program s ∧
                   m_attribLocations s' = m_attribLocations s ∧
                   m_log s' = m_log s +:+ stage_log d s TYPE_VERTEX +:+
                              stage_log d s TYPE_GEOMETRY +:+ stage_log d s TYPE_FRAGMENT ∧
                   cs = stage_calls d s TYPE_VERTEX ++ stage_calls d s TYPE_GEOMETRY ++
                        stage_calls d s TYPE_FRAGMENT).
Proof.
  destruct (compile_stages_run s tr) as (sh & H).
  eexists _, _, _. split; [exact H |]. done.
Qed.


(** One attempt, from start to end. *)
Lemma compileAndLink2_runs s tr :
  runs (compileAndLink2 d) (mkWorld s tr)
    (λ r s' cs,
       r = attempt_result d s ∧
       m_linked s' = r ∧
       m_program s' = drv_glCreateProgram d ∧
       m_shaderSources s' = m_shaderSources s ∧
       m_geometryShaderAvailable s' = m_geometryShaderAvailable s ∧
       (r = true →
          m_oldUniforms s' = m_activeUniforms s ∧
          m_activeUniforms s' = remember_all (m_activeUniforms s) (reflected_table d)) ∧
       (r = false →
          m_activeUniforms s' = m_activeUniforms s ∧ m_oldUniforms s' = m_oldUniforms s) ∧
       (drv_glCreateProgram d ≠ 0 → stages_ok d s = false →
          m_log s' = stages_log d s ∧
          m_attribLocations s' = VertexAttribLocations_default ∧
          ∃ rel, Forall release_call rel ∧
                 cs = rel ++ [glCreateProgram] ++ stages_calls d s)).
Proof.
  unfold compileAndLink2, log_append, attempt_result.
  assert (Hcore : ∀ x, core x = core s →
            m_activeUniforms x = m_activeUniforms s ∧ m_oldUniforms x = m_oldUniforms s ∧
            m_geometryShaderAvailable x = m_geometryShaderAvailable s ∧
            m_shaderSources x = m_shaderSources s).
  { unfold core. intros x [= ? ? ? ?]. done. }
  eapply runs_bind; [apply deactivateProgram_runs |].
  intros a s0 cs0 (Hc0 & Hl0 & Hlog0 & Hat0 & Hrel). cbn [calls].
  step_modify_as s1 H1
    (λ s', core s' = core s ∧ m_linked s' = false ∧ m_log s' = "" ∧
           m_attribLocations s' = VertexAttribLocations_default).
  step.
  step_modify_as s2 H2
    (λ s', core s' = core s ∧ m_linked s' = false ∧ m_log s' = "" ∧
           m_attribLocations s' = VertexAttribLocations_default ∧
           m_program s' = drv_glCreateProgram d).
  destruct H2 as (Hc2 & Hl2 & Hlog2 & Hat2 & Hp2). clear dependent s1. clear dependent s0.
  destruct (drv_glCreateProgram d =? 0) eqn:Ep.
  { apply Z.eqb_eq in Ep.
    eapply runs_bind; [apply runs_modify_inv with
      (P := λ x, core x = core s ∧ m_linked x = false ∧ m_program x = drv_glCreateProgram d);
      cbn [shader]; by cbn |].
    intros a1 s3 cs3 (Hc3 & Hl3 & Hp3). apply runs_ret. cbn [shader negb andb].
    destruct (Hcore s3 Hc3) as (? & ? & ? & ?). repeat split; try done. }
  apply Z.eqb_neq in Ep. cbn [negb andb].
  eapply runs_bind; [apply compile_stages_runs |].
  intros r s3 cs3 (-> & Hc3 & Hl3 & Hp3 & Hat3 & Hlog3 & ->). cbn [calls].
  destruct (stages_congruence s s2 Hc2) as (Hok & _ & _).
  assert (Hst : ∀ i, stage_log d s2 i = stage_log d s i ∧
                     stage_calls d s2 i = stage_calls d (with_new_program d s) i).
  { intros i.
    destruct (stage_congruence (with_new_program d s) s2 i) as (_ & H2 & H3);
      [by rewrite Hc2 | by rewrite Hp2 |]. done. }
  rewrite Hc2 in Hc3. rewrite Hl2 in Hl3. rewrite Hp2 in Hp3. rewrite Hat2 in Hat3.
  rewrite Hlog2, !(proj1 (Hst _)) in Hlog3. rewrite !(proj2 (Hst _)). rewrite Hok.
  clear dependent s2.
  destruct (stages_ok d s) eqn:Eok; cbn [andb].
  - apply runs_bind with
      (Q := λ r s' _, r = link_ok d ∧ m_linked s' = r ∧ core s' = core s ∧
                      m_program s' = drv_glCreateProgram d).
    { eapply runs_bind; [apply linkAndValidateProgram_runs |].
      intros r s4 cs4 (-> & Hl4 & Hc4 & Hp4). apply runs_ret. cbn [shader].
      rewrite Hp3 in *. unfold link_ok. repeat split; congruence. }
    intros r s4 cs4 (-> & Hl4 & Hc4 & Hp4). cbn [calls].
    destruct (link_ok d) eqn:El.
    + apply runs_bind with
        (Q := λ _ s' _,
           s' = set_activeUniforms
                  (remember_all (m_activeUniforms s4) (reflected_table d))
                  (set_activeUniforms (reflected_table d)
                     (set_oldUniforms (m_activeUniforms s4) s4))).
      { eapply runs_bind; [apply setupInitialUniforms_runs |].
        intros a1 s5 cs5 ->. cbn beta.
        apply runs_modify_inv. cbn. rewrite Hp4. reflexivity. }
      intros a1 s5 cs5 ->. apply runs_ret. cbn [shader].
      destruct (Hcore s4 Hc4) as (Ha & Ho & Hg & Hsrc).
      cbn. rewrite Ha. repeat split; done.
    + apply runs_bind with (Q := λ _ s' _, s' = s4); [by apply runs_ret |].
      intros a1 s5 cs5 ->. apply runs_ret. cbn [shader].
      destruct (Hcore s4 Hc4) as (Ha & Ho & Hg & Hsrc). repeat split; done.
  - apply runs_bind with (Q := λ r s' cs, r = false ∧ s' = s3 ∧ cs = []);
      [by apply runs_ret |].
    intros a1 s4 cs4 (-> & -> & ->).
    apply runs_bind with (Q := λ _ s' cs, s' = s3 ∧ cs = []); [by apply runs_ret |].
    intros a2 s5 cs5 (-> & ->). apply runs_ret. cbn [shader].
    destruct (Hcore s3 Hc3) as (Ha & Ho & Hg & Hsrc).
    repeat split; try done.
    exists cs0. split; [done |]. rewrite !app_nil_r. unfold stages_calls.
    by rewrite <- ?app_assoc.
Qed.

(** [compileAndLink] is [compileAndLink2] when no exception is raised. *)
Lemma compileAndLink_runs s tr post :
  runs (compileAndLink2 d) (mkWorld s tr) post → runs (compileAndLink d) (mkWorld s tr) post.
Proof.
  intros (r & s' & cs & H & Hpost). exists r, s', cs. split; [| done].
  unfold compileAndLink, try_catch. by rewrite H.
Qed.

End Attempt.

(** ** The outcome of compileAndLink *)

(** A successful attempt leaves the reflected table, with the values of
    the table before carried into it, and remembers the table before. *)
Lemma compileAndLink_migrates d s tr :
  no_fault d →
  result_of (compileAndLink d (mkWorld s tr)) = Returned true →
  m_oldUniforms (shader_after (compileAndLink d (mkWorld s tr))) = m_activeUniforms s ∧
  m_activeUniforms (shader_after (compileAndLink d (mkWorld s tr)))
  = remember_all (m_activeUniforms s) (reflected_table d).
Proof.
  intros Hnf.
  destruct (compileAndLink_runs d s tr _ (compileAndLink2_runs d Hnf s tr))
    as (r & s' & cs & -> & _ & _ & _ & _ & _ & Ht & _).
  unfold result_of, shader_after. cbn. intros [= Hr]. by apply Ht.
Qed.

(** Without an exception, the value returned is the link status left in
    the object, and it is what the next [bindState] returns. *)
Lemma compileAndLink_result_is_bound d d' seconds s tr :
  no_fault d → no_fault d' →
  ∃ r, result_of (compileAndLink d (mkWorld s tr)) = Returned r ∧
       m_linked (shader_after (compileAndLink d (mkWorld s tr))) = r ∧
       fst <$> (match result_of (bindState d' seconds (snd (compileAndLink d (mkWorld s tr)))) with
                | Returned v => Some v | Thrown => None end) = Some r.
Proof.
  intros Hnf Hnf'.
  destruct (compileAndLink_runs d s tr _ (compileAndLink2_runs d Hnf s tr))
    as (r & s' & cs & -> & Hr & Hl & Hp & _).
  exists r. unfold result_of, shader_after. cbn [fst snd shader].
  split; [done |]. split; [done |].
  destruct r.
  - rewrite bindState_linked; [done | done | done |].
    rewrite Hp. symmetry in Hr. unfold attempt_result in Hr.
    destruct (drv_glCreateProgram d =? 0) eqn:E; [done |]. by apply Z.eqb_neq in E.
  - rewrite bindState_unlinked; [done | apply Hnf' | by left].
Qed.

(** A failed attempt on which the driver raised no exception leaves no
    usable program. *)
Lemma compileAndLink_false_unlinked d d' seconds s tr :
  no_fault d → no_fault d' →
  result_of (compileAndLink d (mkWorld s tr)) = Returned false →
  m_linked (shader_after (compileAndLink d (mkWorld s tr))) = false ∧
  result_of (bindState d' seconds (snd (compileAndLink d (mkWorld s tr))))
  = Returned (false, VertexAttribLocations_default).
Proof.
  intros Hnf Hnf'.
  destruct (compileAndLink_runs d s tr _ (compileAndLink2_runs d Hnf s tr))
    as (r & s' & cs & -> & Hr & Hl & _).
  unfold result_of, shader_after. cbn [fst snd shader]. intros [= Hf].
  rewrite Hf in Hl. split; [done |].
  rewrite bindState_unlinked; [done | apply Hnf' | by left].
Qed.





(** Membership in a list given by its elements. *)
Ltac list_mem :=
  repeat first [ apply list_elem_of_here | apply list_elem_of_further ].

Lemma stage_calls_no_link d s i p : glLinkProgram p ∉ stage_calls d s i.
Proof.
  unfold stage_calls.
  destruct (stage_attempted s i); [| apply not_elem_of_nil].
  destruct (stage_shader d i =? 0);
    [| destruct (negb (drv_compileStatus d (stage_shader d i) =? GL_FALSE))];
    intros H; repeat (apply elem_of_cons in H as [H | H]; [discriminate |]);
    by apply elem_of_nil in H.
Qed.

Lemma stage_calls_compile d s i :
  stage_compiled d s i = true → glCompileShader (stage_shader d i) ∈ stage_calls d s i.
Proof.
  unfold stage_compiled, stage_calls. intros H.
  apply andb_true_iff in H as [-> H]. apply negb_true_iff in H. rewrite H.
  apply list_elem_of_further, elem_of_app. left. list_mem.
Qed.

Lemma stages_ok_false d s i :
  i ∈ shader_types → stage_result d s i = false → stages_ok d s = false.
Proof.
  unfold shader_types, stages_ok. intros Hi Hr.
  repeat (apply elem_of_cons in Hi as [-> | Hi]); [.. | by apply elem_of_nil in Hi];
    rewrite Hr; by rewrite ?andb_false_r.
Qed.

(** ** A stage that does not compile *)

(** C6: when a stage fails, [compileAndLink] returns false and the
    program stays unlinked; the build log is made of the texts of the three
    stages in order, the text of a compiled stage being its headline
    followed by the compiler log; every stage that reaches the compiler is
    compiled; and no link is requested. *)
Theorem C6_failed_stage_does_not_stop_the_others
    (d : Driver) (s : CShader) (tr : list GLcall) (i : Z) :
  no_fault d →
  drv_glCreateProgram d ≠ 0 →
  i ∈ shader_types →
  stage_result d s i = false →
  let r := compileAndLink d (mkWorld s tr) in
  result_of r = Returned false ∧
  m_linked (shader_after r) = false ∧
  m_log (shader_after r)
    = stage_log d s TYPE_VERTEX +:+ stage_log d s TYPE_GEOMETRY +:+
      stage_log d s TYPE_FRAGMENT ∧
  (∀ j, stage_compiled d s j = true →
        stage_log d s j = ("Compiling " +:+ getShaderTypeName j +:+ LF) +:+
                          drv_shaderInfoLog d (stage_shader d j) +:+ LF) ∧
  ∃ made,
    calls_after r = tr ++ made ∧
    (∀ j, j ∈ shader_types → stage_compiled d s j = true →
          glCompileShader (stage_shader d j) ∈ made) ∧
    (∀ p, glLinkProgram p ∉ made).
Proof.
  intros Hnf Hp Hi Hfail. cbn zeta.
  pose proof (stages_ok_false d s i Hi Hfail) as Hok.
  destruct (compileAndLink_runs d s tr _ (compileAndLink2_runs d Hnf s tr))
    as (r & s' & cs & -> & Hr & Hl & _ & _ & _ & _ & _ & Hlog).
  destruct (Hlog Hp Hok) as (Hlog' & _ & rel & Hrel & ->).
  unfold result_of, shader_after, calls_after. cbn [fst snd shader calls].
  assert (r = false) as ->.
  { rewrite Hr. unfold attempt_result. rewrite Hok. by rewrite andb_false_r. }
  split; [done |]. split; [done |]. split; [done |]. split.
  - intros j Hj. unfold stage_compiled in Hj. apply andb_true_iff in Hj as [Ha Hs].
    unfold stage_log. rewrite Ha. apply negb_true_iff in Hs. by rewrite Hs.
  - eexists. split; [reflexivity |]. split.
    + intros j Hj Hc. unfold stages_calls, shader_types in *.
      assert (Hin : glCompileShader (stage_shader d j)
                    ∈ stage_calls d (with_new_program d s) j)
        by (by apply stage_calls_compile).
      apply elem_of_app; right. apply list_elem_of_further.
      repeat (apply elem_of_cons in Hj as [-> | Hj]); [.. | by apply elem_of_nil in Hj];
        rewrite !elem_of_app; auto.
    + intros p Hin. apply elem_of_app in Hin as [Hin | Hin].
      { eapply Forall_forall in Hrel; [| exact Hin]. exact Hrel. }
      apply elem_of_app in Hin as [Hin | Hin];
        [apply list_elem_of_singleton in Hin; discriminate |].
      unfold stages_calls in Hin.
      repeat (apply elem_of_app in Hin as [Hin | Hin]);
        by eapply stage_calls_no_link.
Qed.

Lemma example_driver_syntax_error_no_fault : no_fault example_driver_syntax_error.
Proof. intros c. reflexivity. Qed.

(** The fragment stage has a syntax error; the vertex and the geometry
    stage are compiled and logged all the same. *)
Lemma C6_failed_stage_does_not_stop_the_others_witness :
  let r := compileAndLink example_driver_syntax_error (mkWorld example_three_stages []) in
  result_of r = Returned false ∧
  m_log (shader_after r)
    = lines [ "Compiling Vertex Shader"; "";
              "Compiling Geometry Shader"; "";
              "Compiling Fragment Shader"; "ERROR: 0:1: syntax error" ] ∧
  glCompileShader 2 ∈ calls_after r ∧ glCompileShader 4 ∈ calls_after r ∧
  glCompileShader 3 ∈ calls_after r.
Proof.
  pose proof (C6_failed_stage_does_not_stop_the_others
                example_driver_syntax_error example_three_stages [] TYPE_FRAGMENT
                example_driver_syntax_error_no_fault) as H.
  destruct H as (H1 & _ & H3 & _ & made & H5 & H6 & _).
  - vm_compute. lia.
  - unfold shader_types. list_mem.
  - reflexivity.
  - cbn zeta. split; [exact H1 |]. split; [exact H3 |].
    rewrite H5. cbn [app].
    split; [| split].
    + apply (H6 TYPE_VERTEX); [unfold shader_types; list_mem | reflexivity].
    + apply (H6 TYPE_GEOMETRY); [unfold shader_types; list_mem | reflexivity].
    + apply (H6 TYPE_FRAGMENT); [unfold shader_types; list_mem | reflexivity].
Defined.

(** ** Empty sources *)

(** C7 (the code departs from the claim): with the three sources empty
    and a driver that links the empty program, [compileAndLink] does
    request a link, returns true, and the [bindState] that follows returns
    true as well, the empty program being in use. *)
Theorem C7_empty_sources_link_an_empty_program :
  m_shaderSources CShader_new = [""; ""; ""] ∧
  let r := compileAndLink example_driver (mkWorld CShader_new []) in
  result_of r = Returned true ∧
  take 3 (calls_after r) = [glUseProgram 0; glCreateProgram; glLinkProgram 1] ∧
  m_linked (shader_after r) = true ∧
  bindState example_driver 0 (snd r)
  = (Returned (true, VertexAttribLocations_default),
     mkWorld (shader_after r) (calls_after r ++ [glUseProgram 1; glUniformfv 4 3 (take 4 tenths_payload)])).
Proof.
  cbn zeta. repeat (apply conj); vm_compute; reflexivity.
Qed.

(** ** An exception of the driver *)

(** C8 (the code departs from the claim): the driver raises an exception
    in [glValidateProgram], after the link status was stored.
    [compileAndLink] returns false with the critical error in the log, but
    [m_linked] stays true with the new program object, and the [bindState]
    that follows puts that program in use and returns true. *)
Theorem C8_exception_after_link_leaves_program_bound :
  let r := compileAndLink example_driver_faulty (mkWorld example_sources []) in
  result_of r = Returned false ∧
  m_log (shader_after r) = critical_error_log ∧
  m_linked (shader_after r) = true ∧
  m_program (shader_after r) = 1 ∧
  bindState example_driver 0 (snd r)
  = (Returned (true, VertexAttribLocations_default),
     mkWorld (shader_after r) (calls_after r ++ [glUseProgram 1])).
Proof.
  cbn zeta. repeat (apply conj); vm_compute; reflexivity.
Qed.

(** * Further properties *)

(** ** The accessors of CUniform *)

(** The tests of an unknown type against the known type tags all fail. *)
Lemma unknown_type_tests t :
  t ∉ known_types → Forall (λ c, (t =? c) = false) known_types.
Proof.
  intros H. apply Forall_forall. intros c Hc. apply Z.eqb_neq. by intros ->.
Qed.

Lemma as_int_pattern v : - 2 ^ 31 ≤ v < 2 ^ 31 → F32.as_int (v mod 2 ^ 32) = v.
Proof.
  intros Hv. unfold F32.as_int.
  destruct (Z_lt_dec v 0) as [Hneg | Hpos].
  - replace (v mod 2 ^ 32) with (v + 2 ^ 32)
      by (apply Z.mod_unique with (q := -1); lia).
    destruct (v + 2 ^ 32 <? 2 ^ 31) eqn:E; [apply Z.ltb_lt in E; lia | lia].
  - rewrite Z.mod_small by lia.
    destruct (v <? 2 ^ 31) eqn:E; [done | apply Z.ltb_ge in E; lia].
Qed.

Lemma int_written_is_read (u : CUniform) (component : nat) (value : Z) :
  (component < length (m_data u))%nat → - 2 ^ 31 ≤ value < 2 ^ 31 →
  getValueAsInt component (setValueAsInt component value u) = value.
Proof.
  intros Hc Hv. unfold getValueAsInt, setValueAsInt. cbn [m_data].
  rewrite list_lookup_total_insert_eq by done. by apply as_int_pattern.
Qed.

(** X1: an [int] written to a component is read back, two's complement
    included, and no other component, nor the name, type or location,
    changes. *)
Theorem setValueAsInt_round_trip (u : CUniform) (component other : nat) (value : Z) :
  well_sized u → (component < 4)%nat → - 2 ^ 31 ≤ value < 2 ^ 31 →
  getValueAsInt component (setValueAsInt component value u) = value ∧
  (other ≠ component →
     getValueAsInt other (setValueAsInt component value u) = getValueAsInt other u) ∧
  m_name (setValueAsInt component value u) = m_name u ∧
  m_type (setValueAsInt component value u) = m_type u ∧
  m_location (setValueAsInt component value u) = m_location u.
Proof.
  unfold well_sized. intros Hu Hc Hv.
  split; [apply int_written_is_read; [lia | done] |].
  unfold getValueAsInt, setValueAsInt. cbn.
  repeat split. intros Hne. by rewrite list_lookup_total_insert_ne.
Qed.

Lemma setValueAsInt_round_trip_witness :
  getValueAsInt 2 (setValueAsInt 2 (-5) example_column) = -5 ∧
  getValueAsInt 0 (setValueAsInt 2 (-5) example_column) = 10.
Proof.
  pose proof (setValueAsInt_round_trip example_column 2 0 (-5)) as H.
  destruct H as (H1 & H2 & _); [reflexivity | lia | lia |].
  split; [exact H1 |]. rewrite H2 by lia. reflexivity.
Defined.

(** X2: a [bool] written to a component is read back; it is stored as the
    [int] 1 or 0, and an [int] component reads as true exactly when it is
    not 0. *)
Theorem setValueAsBool_round_trip (u : CUniform) (component : nat) (value : bool) (n : Z) :
  well_sized u → (component < 4)%nat → - 2 ^ 31 ≤ n < 2 ^ 31 →
  getValueAsBool component (setValueAsBool component value u) = value ∧
  getValueAsInt component (setValueAsBool component value u) = (if value then 1 else 0) ∧
  getValueAsBool component (setValueAsInt component n u) = negb (n =? 0).
Proof.
  unfold well_sized. intros Hu Hc Hn. unfold getValueAsBool, setValueAsBool.
  rewrite !int_written_is_read by (first [lia | destruct value; lia]).
  by destruct value.
Qed.

Lemma setValueAsBool_round_trip_witness :
  getValueAsBool 1 (setValueAsBool 1 true example_column) = true.
Proof.
  pose proof (setValueAsBool_round_trip example_column 1 true 0) as H.
  destruct H as (H & _); [reflexivity | lia | lia |]. exact H.
Defined.

(** ** The type tables *)

Lemma type_in_elem t l : type_in t l = true ↔ t ∈ l.
Proof.
  unfold type_in. rewrite existsb_exists. split.
  - intros (x & Hin & Heq). apply Z.eqb_eq in Heq as ->. by apply list_elem_of_In.
  - intros H. exists t. split; [by apply list_elem_of_In | apply Z.eqb_refl].
Qed.

Lemma type_tables_check_known : Forall (λ t, type_tables_check t = true) known_types.
Proof. vm_compute. repeat (apply List.Forall_cons; [reflexivity |]). apply List.Forall_nil. Qed.

Lemma type_tables_check_all t : type_tables_check t = true.
Proof.
  destruct (decide (t ∈ known_types)) as [Hk | Hu].
  - revert t Hk. apply Forall_forall, type_tables_check_known.
  - pose proof (unknown_type_tests t Hu) as F. unfold known_types in F.
    repeat (apply Forall_cons in F as [? F]).
    unfold type_tables_check, type_in, known_types, sampler_types, getComponentCount,
      getBaseType, isMatrix, getColumnCount. cbn [m_type existsb].
    repeat match goal with H : (t =? _) = false |- _ => rewrite !H; clear H end.
    reflexivity.
Qed.

Lemma getComponentCount_range u : 0 ≤ getComponentCount u ≤ 4.
Proof.
  pose proof (type_tables_check_all (m_type u)) as H.
  unfold type_tables_check in H.
  change (getComponentCount (mkCUniform EmptyString (m_type u) 0 []))
    with (getComponentCount u) in H.
  cbn zeta in H. generalize dependent (getComponentCount u). intros count H.
  do 6 (apply andb_true_iff in H as [H _]).
  apply andb_true_iff in H as [H1 H2]. lia.
Qed.

(** X3: the tables of [getComponentCount], [getBaseType], [isMatrix] and
    [getColumnCount] agree: the component count is between 0 and 4 and is 0
    exactly for the unknown types; the matrices are the types with more
    than one column, they are square and of float base type; the base type
    is never [BASE_TYPE_SAMPLER], the samplers being reported as
    [BASE_TYPE_BAD] like the unknown types, although they have one
    component. *)
Theorem type_tables_agree (u : CUniform) :
  0 ≤ getComponentCount u ≤ 4 ∧
  (getComponentCount u = 0 ↔ m_type u ∉ known_types) ∧
  (isMatrix u = true ↔ 1 < getColumnCount u) ∧
  (isMatrix u = true →
     getColumnCount u = getComponentCount u ∧ getBaseType u = BASE_TYPE_FLOAT) ∧
  getBaseType u ≠ BASE_TYPE_SAMPLER ∧
  (getBaseType u = BASE_TYPE_BAD ↔ m_type u ∉ known_types ∨ m_type u ∈ sampler_types) ∧
  (m_type u ∈ sampler_types → getComponentCount u = 1).
Proof.
  pose proof (type_tables_check_all (m_type u)) as H.
  unfold type_tables_check in H.
  change (getComponentCount (mkCUniform EmptyString (m_type u) 0 []))
    with (getComponentCount u) in H.
  change (getBaseType (mkCUniform EmptyString (m_type u) 0 [])) with (getBaseType u) in H.
  change (isMatrix (mkCUniform EmptyString (m_type u) 0 [])) with (isMatrix u) in H.
  change (getColumnCount (mkCUniform EmptyString (m_type u) 0 []))
    with (getColumnCount u) in H.
  cbn zeta in H.
  assert (Hknown : m_type u ∉ known_types ↔ type_in (m_type u) known_types = false).
  { rewrite <- type_in_elem. by destruct (type_in (m_type u) known_types). }
  assert (Hsamp := type_in_elem (m_type u) sampler_types).
  rewrite Hknown, <- Hsamp. clear Hknown Hsamp.
  generalize dependent (getComponentCount u). intros count.
  generalize (getBaseType u). intros base.
  generalize (isMatrix u). intros matrix.
  generalize (getColumnCount u). intros columns.
  generalize (type_in (m_type u) known_types). intros known.
  generalize (type_in (m_type u) sampler_types). intros sampler.
  intros H.
  repeat (apply andb_true_iff in H as [H ?]).
  destruct (Z.leb_spec 0 count); [| done].
  destruct (Z.leb_spec count 4); [| done].
  destruct (Z.eqb_spec count 0), (Z.eqb_spec count 1), (Z.eqb_spec columns count),
    (Z.ltb_spec 1 columns), known, sampler, matrix, base;
    try discriminate; try lia;
    (split; [lia |]); repeat (apply conj); try tauto; try discriminate; try lia;
    try (intros; discriminate); try (intros; lia); try (intros; split; congruence);
    try (split; intros; first [discriminate | lia | tauto | intuition discriminate]).
Qed.

(** ** Matrix columns *)

Lemma well_sized_payload u :
  well_sized u →
  ∃ d0 d1 d2 d3 d4 d5 d6 d7 d8 d9 d10 d11 d12 d13 d14 d15,
    m_data u = [d0; d1; d2; d3; d4; d5; d6; d7; d8; d9; d10; d11; d12; d13; d14; d15].
Proof.
  unfold well_sized. destruct u as [name t loc data]. cbn [m_data].
  do 16 (destruct data as [| ? data]; [discriminate |]).
  destruct data; [| discriminate]. intros _. by repeat eexists.
Qed.

Lemma isMatrix_cases u :
  isMatrix u = true →
  m_type u = GL_FLOAT_MAT2 ∨ m_type u = GL_FLOAT_MAT3 ∨ m_type u = GL_FLOAT_MAT4.
Proof.
  unfold isMatrix. intros H.
  destruct (Z.eqb_spec (m_type u) GL_FLOAT_MAT2); [by left |].
  destruct (Z.eqb_spec (m_type u) GL_FLOAT_MAT3); [by right; left |].
  destruct (Z.eqb_spec (m_type u) GL_FLOAT_MAT4); [by right; right | done].
Qed.

(** Case analysis on a well sized matrix and a column in its range. *)
Ltac matrix_cases u Hsize Hmatrix column Hcolumn :=
  let Hd := fresh "Hd" in
  destruct (well_sized_payload u Hsize)
    as (d0 & d1 & d2 & d3 & d4 & d5 & d6 & d7 & d8 & d9 & d10 & d11 & d12 & d13 & d14 & d15
        & Hd);
  destruct u as [name t loc data]; cbn [m_data] in Hd; subst data;
  apply isMatrix_cases in Hmatrix; cbn [m_type] in Hmatrix;
  destruct Hmatrix as [-> | [-> | ->]];
  [ assert (column = 0 ∨ column = 1) as [-> | ->] by (cbn in Hcolumn; lia)
  | assert (column = 0 ∨ column = 1 ∨ column = 2) as [-> | [-> | ->]]
      by (cbn in Hcolumn; lia)
  | assert (column = 0 ∨ column = 1 ∨ column = 2 ∨ column = 3) as [-> | [-> | [-> | ->]]]
      by (cbn in Hcolumn; lia) ].

(** X4: writing back the column that was read changes nothing: this is what
    the widget does around the edit of one component of a matrix. *)
Theorem setColumnVector_of_getColumnVector (column : Z) (u : CUniform) :
  well_sized u → isMatrix u = true → 0 ≤ column < getColumnCount u →
  setColumnVector column (getColumnVector column u) u = u.
Proof.
  intros Hsize Hmatrix Hcolumn.
  matrix_cases u Hsize Hmatrix column Hcolumn; vm_compute; reflexivity.
Qed.

Lemma setColumnVector_of_getColumnVector_witness :
  setColumnVector 1 (getColumnVector 1 example_mat3) example_mat3 = example_mat3.
Proof.
  apply (setColumnVector_of_getColumnVector 1 example_mat3);
    [reflexivity | reflexivity | vm_compute; split; [discriminate | reflexivity]].
Defined.

(** X5: matrices are stored column by column: after [setColumnVector] with a
    source vector of the base type of the matrix, as the source asserts,
    the written column reads back, component by component, as the source
    vector, every other column reads back as before, and name, type and
    location of the matrix are kept. *)
Theorem getColumnVector_of_setColumnVector (written read : Z) (i : nat) (v u : CUniform) :
  well_sized u → isMatrix u = true →
  getBaseType v = getBaseType u →
  0 ≤ written < getColumnCount u → 0 ≤ read < getColumnCount u →
  Z.of_nat i < getComponentCount u →
  setColumnVector_assert written v u = true ∧
  getColumnVector_assert read (setColumnVector written v u) = true ∧
  getValueAsFloat i (getColumnVector read (setColumnVector written v u)) =
    (if decide (read = written) then getValueAsFloat i v
     else getValueAsFloat i (getColumnVector read u)) ∧
  m_name (setColumnVector written v u) = m_name u ∧
  m_type (setColumnVector written v u) = m_type u ∧
  m_location (setColumnVector written v u) = m_location u.
Proof.
  intros Hsize Hmatrix Hbase Hwritten Hread Hi.
  assert (Hi' : (i < 4)%nat).
  { pose proof (getComponentCount_range u). lia. }
  assert (Hassert : setColumnVector_assert written v u = true).
  { unfold setColumnVector_assert. rewrite bool_decide_eq_true_2 by done.
    destruct (Z.ltb_spec written (getColumnCount u)); [done | lia]. }
  split; [exact Hassert |]. clear Hassert Hbase.
  destruct i as [| [| [| [| i]]]]; [.. | lia];
    matrix_cases u Hsize Hmatrix written Hwritten;
    try (exfalso; vm_compute in Hi; discriminate Hi);
    match goal with
    | H : 0 ≤ ?r < getColumnCount (mkCUniform _ GL_FLOAT_MAT2 _ _) |- _ =>
        is_var r;
        assert (r = 0 ∨ r = 1) as [-> | ->] by (cbn in H; lia)
    | H : 0 ≤ ?r < getColumnCount (mkCUniform _ GL_FLOAT_MAT3 _ _) |- _ =>
        is_var r;
        assert (r = 0 ∨ r = 1 ∨ r = 2) as [-> | [-> | ->]] by (cbn in H; lia)
    | H : 0 ≤ ?r < getColumnCount (mkCUniform _ GL_FLOAT_MAT4 _ _) |- _ =>
        is_var r;
        assert (r = 0 ∨ r = 1 ∨ r = 2 ∨ r = 3) as [-> | [-> | [-> | ->]]]
          by (cbn in H; lia)
    end;
    (apply conj; [vm_compute; reflexivity |]);
    (apply conj; [| repeat (apply conj); reflexivity]);
    vm_compute; reflexivity.
Qed.

Lemma getColumnVector_of_setColumnVector_witness :
  getValueAsFloat 2 (getColumnVector 1 (setColumnVector 1 example_column example_mat3)) = 30 ∧
  getValueAsFloat 2 (getColumnVector 2 (setColumnVector 1 example_column example_mat3)) = 9.
Proof.
  split.
  - apply (getColumnVector_of_setColumnVector 1 1 2 example_column example_mat3);
      [reflexivity | reflexivity | reflexivity
       | vm_compute; split; [discriminate | reflexivity] ..
       | reflexivity].
  - apply (getColumnVector_of_setColumnVector 1 2 2 example_column example_mat3);
      [reflexivity | reflexivity | reflexivity
       | vm_compute; split; [discriminate | reflexivity] ..
       | reflexivity].
Defined.

(** X6: the column vector taken from a matrix is a float vector with as many
    components as the matrix has rows, it is no matrix itself, it has the
    name of the matrix followed by the column index in brackets and the
    location -1, and its component [i] is word [rows * column + i] of the
    matrix. *)
Theorem getColumnVector_shape (column : Z) (i : nat) (u : CUniform) :
  well_sized u → isMatrix u = true → 0 ≤ column < getColumnCount u →
  Z.of_nat i < getComponentCount u →
  let v := getColumnVector column u in
  m_name v = m_name u +:+ "[" +:+ pretty column +:+ "]" ∧
  m_location v = -1 ∧
  isMatrix v = false ∧
  getBaseType v = BASE_TYPE_FLOAT ∧
  getComponentCount v = getComponentCount u ∧
  well_sized v ∧
  getValueAsFloat i v = m_data u !!! Z.to_nat (getComponentCount u * column + Z.of_nat i).
Proof.
  intros Hsize Hmatrix Hcolumn Hi.
  assert (Hi' : (i < 4)%nat).
  { pose proof (getComponentCount_range u). lia. }
  destruct i as [| [| [| [| i]]]]; [.. | lia];
    matrix_cases u Hsize Hmatrix column Hcolumn;
    try (exfalso; vm_compute in Hi; discriminate Hi);
    cbn zeta; repeat (apply conj); vm_compute; reflexivity.
Qed.

Lemma getColumnVector_shape_witness :
  m_name (getColumnVector 2 example_mat3) = "m[2]" ∧
  getValueAsFloat 1 (getColumnVector 2 example_mat3) = 8.
Proof.
  pose proof (getColumnVector_shape 2 1 example_mat3) as H.
  destruct H as (H1 & _ & _ & _ & _ & _ & H7);
    [reflexivity | reflexivity | vm_compute; split; [discriminate | reflexivity]
     | reflexivity |].
  split; [exact H1 | exact H7].
Defined.

(** X7: on a uniform that is no matrix the asserted column range is
    [column <= 0]; on a call that passes the assert [getColumnVector]
    returns the default uniform, and on a call that passes its two asserts
    (the column, and a source of the same base type) [setColumnVector]
    changes nothing. *)
Theorem column_access_without_matrix (column : Z) (v u : CUniform) :
  isMatrix u = false →
  (getColumnVector_assert column u = true ↔ column ≤ 0) ∧
  (getColumnVector_assert column u = true → getColumnVector column u = CUniform_default) ∧
  (setColumnVector_assert column v u = true → setColumnVector column v u = u).
Proof.
  unfold isMatrix, getColumnVector_assert, setColumnVector_assert, getColumnVector,
    setColumnVector, column_shape, getColumnCount. intros H.
  destruct (m_type u =? GL_FLOAT_MAT2); [done |].
  destruct (m_type u =? GL_FLOAT_MAT3); [done |].
  destruct (m_type u =? GL_FLOAT_MAT4); [done |].
  split; [| split].
  - destruct (Z.ltb_spec column 1); split; intros; try done; lia.
  - reflexivity.
  - intros _. cbn. reflexivity.
Qed.

Lemma column_access_without_matrix_witness :
  getColumnVector 0 example_column = CUniform_default ∧
  setColumnVector 0 example_mat3 example_column = example_column.
Proof.
  destruct (column_access_without_matrix 0 example_mat3 example_column) as (_ & H1 & H2);
    [reflexivity |].
  split; [apply H1 | apply H2]; reflexivity.
Defined.

(** ** Passing a uniform to OpenGL *)

Lemma applyToGL_call_known u :
  m_type u ∈ known_types →
  applyToGL_call u
  = Some (if isMatrix u
          then glUniformMatrixfv (Z.to_nat (getColumnCount u)) (m_location u)
                 (take (Z.to_nat (getComponentCount u * getColumnCount u)) (m_data u))
          else if decide (getBaseType u = BASE_TYPE_FLOAT)
          then glUniformfv (Z.to_nat (getComponentCount u)) (m_location u)
                 (take (Z.to_nat (getComponentCount u)) (m_data u))
          else glUniformiv (Z.to_nat (getComponentCount u)) (m_location u)
                 (F32.as_int <$> take (Z.to_nat (getComponentCount u)) (m_data u))).
Proof.
  destruct u as [name t loc data]. cbn [m_location m_type m_data]. intros Hk.
  unfold known_types in Hk.
  repeat (apply elem_of_cons in Hk as [-> | Hk]); [.. | by apply elem_of_nil in Hk];
    reflexivity.
Qed.

Lemma applyToGL_call_unknown u : m_type u ∉ known_types → applyToGL_call u = None.
Proof.
  destruct u as [name t loc data]. cbn [m_type]. intros Hu.
  pose proof (unknown_type_tests t Hu) as F. unfold known_types in F.
  repeat (apply Forall_cons in F as [? F]).
  unfold applyToGL_call. cbn [m_type].
  repeat match goal with H : (t =? _) = false |- _ => rewrite !H; clear H end.
  reflexivity.
Qed.

(** X8: [applyToGL] makes no call for the location -1 or for a type it does
    not know, and otherwise exactly one call at the location of the
    uniform: for a matrix [glUniformMatrix{n}fv] with [n] the column count
    and the first [n * n] floats of the payload; for a float scalar or
    vector [glUniform{n}fv], and for the bool, int and sampler types
    [glUniform{n}iv], with [n] the component count and the first [n] words
    of the payload, read as floats and as integers. *)
Theorem applyToGL_passes_the_components (d : Driver) (u : CUniform) (w : World) :
  no_fault d →
  ∃ cs, applyToGL d u w = (Returned tt, mkWorld (shader w) (calls w ++ cs)) ∧
    (m_location u = -1 ∨ m_type u ∉ known_types → cs = []) ∧
    (m_location u ≠ -1 → m_type u ∈ known_types →
       cs = [ if isMatrix u
              then glUniformMatrixfv (Z.to_nat (getColumnCount u)) (m_location u)
                     (take (Z.to_nat (getComponentCount u * getColumnCount u)) (m_data u))
              else if decide (getBaseType u = BASE_TYPE_FLOAT)
              then glUniformfv (Z.to_nat (getComponentCount u)) (m_location u)
                     (take (Z.to_nat (getComponentCount u)) (m_data u))
              else glUniformiv (Z.to_nat (getComponentCount u)) (m_location u)
                     (F32.as_int <$> take (Z.to_nat (getComponentCount u)) (m_data u)) ]).
Proof.
  intros Hnf. exists (uniform_calls u). split; [by apply applyToGL_run |].
  unfold uniform_calls.
  destruct (Z.eqb_spec (m_location u) (-1)) as [Hloc | Hloc];
    [split; [done | intros; contradiction] |].
  split.
  - intros [? | Hu]; [contradiction |]. by rewrite (applyToGL_call_unknown u Hu).
  - intros _ Hk. by rewrite (applyToGL_call_known u Hk).
Qed.

Lemma applyToGL_passes_the_components_witness :
  applyToGL example_driver example_mat3 (mkWorld CShader_new [])
  = (Returned tt,
     mkWorld CShader_new [glUniformMatrixfv 3 2 [1; 2; 3; 4; 5; 6; 7; 8; 9]]).
Proof.
  destruct (applyToGL_passes_the_components example_driver example_mat3
              (mkWorld CShader_new []) example_driver_no_fault) as (cs & Hrun & _ & Hone).
  rewrite Hrun, Hone; [reflexivity | discriminate |].
  apply type_in_elem. reflexivity.
Defined.

(** ** Releasing the objects *)

Lemma three_handles (l : list Z) : length l = 3%nat → ∃ a b c, l = [a; b; c].
Proof.
  destruct l as [| a [| b [| c [| ? ?]]]]; try discriminate. intros _. by exists a, b, c.
Qed.

Lemma bind_modify {B} f (k : unit → M B) w :
  bind (modify f) k w = k tt (mkWorld (f (shader w)) (calls w)).
Proof. reflexivity. Qed.

Lemma bind_get {B} (k : CShader → M B) w : bind get k w = k (shader w) w.
Proof. reflexivity. Qed.

Lemma bind_ret {A B} (a : A) (k : A → M B) w : bind (ret a) k w = k a w.
Proof. reflexivity. Qed.

Lemma bind_gl {B} d c (k : unit → M B) w :
  no_fault d → bind (gl d c) k w = k tt (mkWorld (shader w) (calls w ++ [c])).
Proof. intros Hnf. unfold bind, gl. by rewrite Hnf. Qed.

Lemma bind_assoc {A B C} (m : M A) (k : A → M B) (h : B → M C) w :
  bind (bind m k) h w = bind m (λ a, bind (k a) h) w.
Proof. unfold bind. by destruct (m w) as [[a |] w']. Qed.

(** One round of the loop of [deactivateProgram] over the shader objects. *)
Lemma delete_shader_step {B} d i (k : unit → M B) s tr :
  no_fault d →
  bind (s <- get ;;
        if negb (shader_of s i =? 0)
        then gl d (glDeleteShader (shader_of s i)) ;;
             modify (λ s, set_shaders (<[Z.to_nat i := 0]> (m_shaders s)) s)
        else ret tt) k (mkWorld s tr)
  = k tt (mkWorld (set_shaders (<[Z.to_nat i := 0]> (m_shaders s)) s)
                  (tr ++ (if shader_of s i =? 0 then [] else [glDeleteShader (shader_of s i)]))).
Proof.
  intros Hnf. rewrite bind_assoc, bind_get. cbn [shader].
  destruct (Z.eqb_spec (shader_of s i) 0) as [Hz | Hz]; cbn [negb].
  - rewrite bind_ret, app_nil_r. f_equal. f_equal.
    unfold shader_of in Hz. destruct s as [au ou ga li lo no gi go al so sh p].
    cbn [m_shaders] in *. unfold set_shaders. cbn. f_equal.
    destruct (sh !! Z.to_nat i) as [x |] eqn:E.
    + rewrite (list_lookup_total_correct _ _ _ E) in Hz. subst x.
      symmetry. by apply list_insert_id.
    + symmetry. apply list_insert_ge. by apply lookup_ge_None.
  - rewrite bind_assoc, bind_gl by done. rewrite bind_modify. reflexivity.
Qed.

Lemma delete_program_step {B} d (k : unit → M B) s tr :
  no_fault d →
  bind (if negb (m_program s =? 0)
        then gl d (glDeleteProgram (m_program s)) ;; modify (set_program 0)
        else ret tt) k (mkWorld s tr)
  = k tt (mkWorld (set_program 0 s)
                  (tr ++ if m_program s =? 0 then [] else [glDeleteProgram (m_program s)])).
Proof.
  intros Hnf. destruct (Z.eqb_spec (m_program s) 0) as [Hz | Hz]; cbn [negb].
  - rewrite bind_ret, app_nil_r. f_equal. f_equal. destruct s; cbn in *. by subst.
  - rewrite bind_assoc, bind_gl by done. by rewrite bind_modify.
Qed.

Lemma set_shaders_twice x y s : set_shaders x (set_shaders y s) = set_shaders x s.
Proof. reflexivity. Qed.

Lemma m_shaders_set_shaders x s : m_shaders (set_shaders x s) = x.
Proof. reflexivity. Qed.

Lemma deactivateProgram_exact d s tr :
  no_fault d → length (m_shaders s) = 3%nat →
  deactivateProgram d (mkWorld s tr) = (Returned tt, mkWorld (released s) (tr ++ release_calls s)).
Proof.
  intros Hnf Hlen. destruct (three_handles _ Hlen) as (a & b & c & Hsh). clear Hlen.
  unfold deactivateProgram, release_calls, released.
  rewrite !bind_modify. cbn [shader calls]. rewrite bind_gl by done. rewrite bind_get.
  cbn [shader calls].
  set (s1 := set_attribLocations VertexAttribLocations_default (set_linked false s)).
  assert (Hp1 : m_program s1 = m_program s) by reflexivity.
  assert (Hs1 : m_shaders (set_program 0 s1) = [a; b; c]) by exact Hsh.
  rewrite delete_program_step by done. rewrite Hp1.
  generalize dependent (set_program 0 s1). clear s1 Hp1. intros s2 Hs2.
  unfold shader_types, for_each.
  rewrite !delete_shader_step by done. unfold ret, shader_of.
  rewrite !set_shaders_twice, !m_shaders_set_shaders, Hs2, Hsh.
  change (Z.to_nat TYPE_VERTEX) with 0%nat. change (Z.to_nat TYPE_GEOMETRY) with 1%nat.
  change (Z.to_nat TYPE_FRAGMENT) with 2%nat.
  cbn [list_insert insert lookup_total list_lookup_total].
  f_equal. f_equal. rewrite <- !app_assoc. f_equal. cbn [app]. f_equal. f_equal.
  rewrite !filter_cons, filter_nil.
  destruct (Z.eqb_spec a 0), (Z.eqb_spec b 0), (Z.eqb_spec c 0);
    repeat (destruct (decide _) as [? | ?]; try done).
Qed.

(** X9: [deactivateProgram] deletes the program and every shader object
    whose handle is not 0, once each and in this order, after selecting
    the fixed-function pipeline; it leaves the handles at 0, so that a
    second call only selects the fixed-function pipeline again and changes
    nothing.  The two uniform tables, the sources and the log are kept. *)
Theorem deactivateProgram_releases_once (d : Driver) (s : CShader) (tr : list GLcall) :
  no_fault d → length (m_shaders s) = 3%nat →
  let r := deactivateProgram d (mkWorld s tr) in
  result_of r = Returned tt ∧
  calls_after r = tr ++ release_calls s ∧
  m_program (shader_after r) = 0 ∧ m_shaders (shader_after r) = [0; 0; 0] ∧
  m_linked (shader_after r) = false ∧
  m_attribLocations (shader_after r) = VertexAttribLocations_default ∧
  core (shader_after r) = core s ∧ m_log (shader_after r) = m_log s ∧
  deactivateProgram d (snd r) = (Returned tt, mkWorld (shader_after r) (calls_after r ++ [glUseProgram 0])).
Proof.
  intros Hnf Hlen r. subst r. rewrite (deactivateProgram_exact d s tr Hnf Hlen).
  unfold result_of, calls_after, shader_after. cbn [fst snd shader calls].
  repeat (apply conj); try reflexivity.
  rewrite (deactivateProgram_exact d (released s) _ Hnf eq_refl).
  reflexivity.
Qed.

Lemma deactivateProgram_releases_once_witness :
  calls_after (deactivateProgram example_driver (mkWorld example_built []))
  = [glUseProgram 0; glDeleteProgram 1; glDeleteShader 2; glDeleteShader 3].
Proof.
  pose proof (deactivateProgram_releases_once example_driver example_built []
                example_driver_no_fault eq_refl) as (_ & H & _).
  exact H.
Defined.

(** X10: [shutdown] releases the objects as [deactivateProgram] does,
    empties the three sources and withdraws the geometry stage.  It does
    not clear the two uniform tables, the build log or the geometry
    parameters: the entries stay stored, hidden behind the link status, as
    [getActiveUniforms] returns 0. *)
Theorem shutdown_keeps_the_tables (d : Driver) (s : CShader) (tr : list GLcall) :
  no_fault d → length (m_shaders s) = 3%nat → length (m_shaderSources s) = 3%nat →
  let r := shutdown d (mkWorld s tr) in
  result_of r = Returned tt ∧
  calls_after r = tr ++ release_calls s ∧
  m_shaderSources (shader_after r) = [""; ""; ""] ∧
  m_geometryShaderAvailable (shader_after r) = false ∧
  m_program (shader_after r) = 0 ∧ m_shaders (shader_after r) = [0; 0; 0] ∧
  m_linked (shader_after r) = false ∧
  m_activeUniforms (shader_after r) = m_activeUniforms s ∧
  m_oldUniforms (shader_after r) = m_oldUniforms s ∧
  m_log (shader_after r) = m_log s ∧
  (m_num_output (shader_after r), m_geometryInputType (shader_after r),
   m_geometryOutputType (shader_after r))
  = (m_num_output s, m_geometryInputType s, m_geometryOutputType s) ∧
  result_of (getActiveUniforms (snd r)) = Returned 0.
Proof.
  intros Hnf Hlen Hsrc r. subst r.
  destruct (m_shaderSources s) as [| a [| b [| c [| ? ?]]]] eqn:Esrc; try discriminate.
  unfold shutdown. rewrite bind_modify. cbn [shader calls].
  rewrite (run_bind _ _ _ _ _
             (deactivateProgram_exact d (set_geometryShaderAvailable false s) tr Hnf Hlen)).
  unfold shader_types, for_each. rewrite !bind_modify. cbn [shader calls].
  unfold ret, result_of, calls_after, shader_after. cbn [fst snd shader calls].
  repeat (apply conj); try reflexivity.
  cbn. rewrite Esrc. reflexivity.
Qed.

Lemma shutdown_keeps_the_tables_witness :
  let r := shutdown example_driver (mkWorld example_built []) in
  calls_after r = [glUseProgram 0; glDeleteProgram 1; glDeleteShader 2; glDeleteShader 3] ∧
  m_activeUniforms (shader_after r) = [CUniform_new "myColor" GL_FLOAT_VEC4 3].
Proof.
  pose proof (shutdown_keeps_the_tables example_driver example_built []
                example_driver_no_fault eq_refl eq_refl) as (_ & H1 & _ & _ & _ & _ & _ & H2 & _).
  split; [exact H1 | exact H2].
Defined.

(** ** The geometry parameters *)

(** X11: [setGeometryInputType] stores one of five primitive modes and
    ignores every other value.  The mode the constructor sets,
    GL_LINE_STRIP_ADJACENCY, is not among the five: a call that leaves this
    mode stored has changed nothing, so the initial mode cannot be set
    again once it was replaced.  [setGeometryOutputType] stores one of
    three modes, the constructor's GL_TRIANGLE_STRIP among them. *)
Theorem setGeometryInputType_rejects_initial_mode (type : Z) (s : CShader) (tr : list GLcall) :
  let r := setGeometryInputType type (mkWorld s tr) in
  let r' := setGeometryOutputType type (mkWorld s tr) in
  m_geometryInputType CShader_new = GL_LINE_STRIP_ADJACENCY ∧
  m_geometryOutputType CShader_new = GL_TRIANGLE_STRIP ∧
  (type ∈ [GL_POINTS; GL_LINES; GL_LINES_ADJACENCY_EXT; GL_TRIANGLES;
           GL_TRIANGLES_ADJACENCY_EXT] →
     r = (Returned tt, mkWorld (set_geometryInputType type s) tr)) ∧
  (type ∉ [GL_POINTS; GL_LINES; GL_LINES_ADJACENCY_EXT; GL_TRIANGLES;
           GL_TRIANGLES_ADJACENCY_EXT] →
     r = (Returned tt, mkWorld s tr)) ∧
  (m_geometryInputType (shader_after r) = GL_LINE_STRIP_ADJACENCY → shader_after r = s) ∧
  (type ∈ [GL_POINTS; GL_LINE_STRIP; GL_TRIANGLE_STRIP] →
     r' = (Returned tt, mkWorld (set_geometryOutputType type s) tr)) ∧
  (type ∉ [GL_POINTS; GL_LINE_STRIP; GL_TRIANGLE_STRIP] → r' = (Returned tt, mkWorld s tr)).
Proof.
  cbn zeta. unfold setGeometryInputType, setGeometryOutputType.
  split; [reflexivity |]. split; [reflexivity |].
  split; [| split; [| split; [| split]]].
  - intros H. repeat (apply elem_of_cons in H as [-> | H]); try reflexivity.
    by apply elem_of_nil in H.
  - intros H.
    destruct (Z.eqb_spec type GL_POINTS) as [-> | ?]; [destruct H; list_mem |].
    destruct (Z.eqb_spec type GL_LINES) as [-> | ?]; [destruct H; list_mem |].
    destruct (Z.eqb_spec type GL_LINES_ADJACENCY_EXT) as [-> | ?]; [destruct H; list_mem |].
    destruct (Z.eqb_spec type GL_TRIANGLES) as [-> | ?]; [destruct H; list_mem |].
    destruct (Z.eqb_spec type GL_TRIANGLES_ADJACENCY_EXT) as [-> | ?];
      [destruct H; list_mem |].
    reflexivity.
  - destruct (Z.eqb_spec type GL_POINTS) as [-> | ?]; [discriminate |].
    destruct (Z.eqb_spec type GL_LINES) as [-> | ?]; [discriminate |].
    destruct (Z.eqb_spec type GL_LINES_ADJACENCY_EXT) as [-> | ?]; [discriminate |].
    destruct (Z.eqb_spec type GL_TRIANGLES) as [-> | ?]; [discriminate |].
    destruct (Z.eqb_spec type GL_TRIANGLES_ADJACENCY_EXT) as [-> | ?]; [discriminate |].
    reflexivity.
  - intros H. repeat (apply elem_of_cons in H as [-> | H]); try reflexivity.
    by apply elem_of_nil in H.
  - intros H.
    destruct (Z.eqb_spec type GL_POINTS) as [-> | ?]; [destruct H; list_mem |].
    destruct (Z.eqb_spec type GL_LINE_STRIP) as [-> | ?]; [destruct H; list_mem |].
    destruct (Z.eqb_spec type GL_TRIANGLE_STRIP) as [-> | ?]; [destruct H; list_mem |].
    reflexivity.
Qed.

(** ** Building without a program object *)

(** X12: when [glCreateProgram] returns 0, [compileAndLink] returns false after
    releasing the objects of the attempt before: the build log is the one
    line of the error, no shader object is created, nothing is compiled or
    linked, and the two uniform tables and the sources are kept. *)
Theorem compileAndLink_without_program_object (d : Driver) (s : CShader) (tr : list GLcall) :
  no_fault d → length (m_shaders s) = 3%nat → drv_glCreateProgram d = 0 →
  let r := compileAndLink d (mkWorld s tr) in
  result_of r = Returned false ∧
  calls_after r = tr ++ release_calls s ++ [glCreateProgram] ∧
  m_log (shader_after r) = "ERROR: Failed on glCreateProgram()" +:+ LF ∧
  m_linked (shader_after r) = false ∧
  m_program (shader_after r) = 0 ∧ m_shaders (shader_after r) = [0; 0; 0] ∧
  core (shader_after r) = core s.
Proof.
  intros Hnf Hlen H0 r. subst r.
  unfold compileAndLink, try_catch, compileAndLink2.
  rewrite (run_bind _ _ _ _ _ (deactivateProgram_exact d s tr Hnf Hlen)).
  rewrite bind_modify. cbn [shader calls]. rewrite bind_gl by done.
  rewrite bind_modify. cbn [shader calls]. rewrite H0. change (0 =? 0) with true. cbv iota.
  unfold log_append. rewrite bind_modify. unfold ret.
  unfold result_of, calls_after, shader_after. cbn [fst snd shader calls].
  rewrite <- app_assoc. repeat (apply conj); reflexivity.
Qed.

Lemma example_driver_no_program_no_fault :
  no_fault (mkDriver (λ _, false) 0 (λ _, 2) (λ _, "") (λ _, 1) (λ _, "") (λ _, 1) (λ _, 1)
              (λ _, "") (λ _, 0) (λ _ _, ("", 0, 0)) (λ _ _, -1)
              (λ _, 0) (λ _ _, ("", 0, 0)) (λ _ _, -1)).
Proof. intros c. reflexivity. Qed.

Lemma compileAndLink_without_program_object_witness :
  let d := mkDriver (λ _, false) 0 (λ _, 2) (λ _, "") (λ _, 1) (λ _, "") (λ _, 1) (λ _, 1)
             (λ _, "") (λ _, 0) (λ _ _, ("", 0, 0)) (λ _ _, -1)
             (λ _, 0) (λ _ _, ("", 0, 0)) (λ _ _, -1) in
  calls_after (compileAndLink d (mkWorld example_sources []))
  = [glUseProgram 0; glCreateProgram].
Proof.
  cbn zeta.
  pose proof (compileAndLink_without_program_object _ example_sources []
                example_driver_no_program_no_fault eq_refl eq_refl) as (_ & H & _).
  exact H.
Defined.

(** ** The table after a successful link *)

Lemma reflected_table_lookup d (j : nat) :
  (j < Z.to_nat (drv_activeUniforms d (drv_glCreateProgram d)))%nat →
  reflected_table d !! j = Some (reflected_uniform d (drv_glCreateProgram d) (Z.of_nat j)).
Proof.
  intros Hj. unfold reflected_table. rewrite !list_lookup_fmap.
  rewrite lookup_seq_lt by done. reflexivity.
Qed.

Lemma reflected_uniform_fields d p i :
  m_name (reflected_uniform d p i) = (drv_activeUniform d p i).1.1 ∧
  m_type (reflected_uniform d p i) = (drv_activeUniform d p i).2 ∧
  m_location (reflected_uniform d p i)
  = drv_uniformLocation d p (drv_activeUniform d p i).1.1.
Proof. unfold reflected_uniform. by destruct (drv_activeUniform d p i) as [[name size] type]. Qed.

(** What a returned attempt leaves, by its result. *)
Lemma compileAndLink_returned d s tr r :
  no_fault d →
  result_of (compileAndLink d (mkWorld s tr)) = Returned r →
  let s' := shader_after (compileAndLink d (mkWorld s tr)) in
  m_linked s' = r ∧
  (r = true → m_oldUniforms s' = m_activeUniforms s ∧
              m_activeUniforms s' = remember_all (m_activeUniforms s) (reflected_table d)) ∧
  (r = false → m_activeUniforms s' = m_activeUniforms s ∧
               m_oldUniforms s' = m_oldUniforms s).
Proof.
  intros Hnf.
  destruct (compileAndLink_runs d s tr _ (compileAndLink2_runs d Hnf s tr))
    as (r' & s' & cs & -> & _ & Hl & _ & _ & _ & Ht & Hf & _).
  unfold result_of, shader_after. cbn. intros [= ->]. done.
Qed.

Lemma getUniform_linked s tr index e :
  m_linked s = true → uniform_at (m_activeUniforms s) index = Some e →
  getUniform index (mkWorld s tr) = (Returned e, mkWorld s tr).
Proof.
  intros Hl He. pose proof (uniform_at_lookup_total _ _ _ He) as Ht.
  apply uniform_at_Some in He as (H0 & Hn & _).
  unfold getUniform, bind, get, ret. cbn [shader]. rewrite Hl, Ht.
  destruct (Z.leb_spec 0 index); [| lia].
  destruct (Z.ltb_spec index (Z.of_nat (length (m_activeUniforms s)))); [done | lia].
Qed.

Lemma uniform_at_lookup l (j : nat) e : l !! j = Some e → uniform_at l (Z.of_nat j) = Some e.
Proof.
  intros H. pose proof (lookup_lt_Some _ _ _ H). unfold uniform_at.
  destruct (Z.ltb_spec (Z.of_nat j) 0); [lia |].
  destruct (Z.leb_spec (Z.of_nat (length l)) (Z.of_nat j)); [lia |].
  cbn. by rewrite Nat2Z.id.
Qed.

(** X13: after a successful link the table mirrors the active uniforms of the
    driver: [getActiveUniforms] returns their number, and the entry at each
    index has the name and type the driver reports for this index and the
    location the driver gives for the name, whatever was stored before.
    The array size the driver reports is not used. *)
Theorem link_mirrors_the_driver (d : Driver) (s : CShader) (tr : list GLcall) (i : Z) :
  no_fault d →
  result_of (compileAndLink d (mkWorld s tr)) = Returned true →
  0 ≤ i < drv_activeUniforms d (drv_glCreateProgram d) →
  let w := snd (compileAndLink d (mkWorld s tr)) in
  let p := drv_glCreateProgram d in
  getActiveUniforms w = (Returned (drv_activeUniforms d p), w) ∧
  ∃ u, getUniform i w = (Returned u, w) ∧
       m_name u = (drv_activeUniform d p i).1.1 ∧
       m_type u = (drv_activeUniform d p i).2 ∧
       m_location u = drv_uniformLocation d p (drv_activeUniform d p i).1.1.
Proof.
  intros Hnf Hr Hi w p. subst p.
  destruct (compileAndLink_returned d s tr true Hnf Hr) as (Hl & Ht & _).
  destruct (Ht eq_refl) as (_ & Ha). clear Ht.
  fold (shader_after (compileAndLink d (mkWorld s tr))) in *.
  assert (Hw : w = mkWorld (shader w) (calls w)) by (by destruct w).
  change (shader_after (compileAndLink d (mkWorld s tr))) with (shader w) in Hl, Ha.
  split.
  - rewrite Hw. unfold getActiveUniforms, bind, get, ret. cbn [shader].
    rewrite Hl, Ha, remember_all_length. unfold reflected_table.
    rewrite !length_fmap, length_seq. cbn [negb]. do 2 f_equal. lia.
  - assert (Hj : (Z.to_nat i < Z.to_nat (drv_activeUniforms d (drv_glCreateProgram d)))%nat)
      by lia.
    pose proof (reflected_table_lookup d (Z.to_nat i) Hj) as Hlook.
    rewrite Z2Nat.id in Hlook by lia.
    pose proof (remember_all_last_match (m_activeUniforms s) (reflected_table d) (Z.to_nat i))
      as Hres.
    rewrite Hlook in Hres. cbn [fmap option_fmap option_map] in Hres. rewrite <- Ha in Hres.
    apply uniform_at_lookup in Hres. rewrite Z2Nat.id in Hres by lia.
    eexists. split; [rewrite Hw; apply getUniform_linked; [exact Hl | exact Hres] |].
    destruct (reflected_uniform_fields d (drv_glCreateProgram d) i) as (Hn & Hty & Hloc).
    destruct (last_match (m_activeUniforms s)
                (reflected_uniform d (drv_glCreateProgram d) i)) as [old |] eqn:E.
    + apply last_match_Some in E as (_ & Hn' & Hty'). cbn. by rewrite Hn', Hty'.
    + done.
Qed.

Lemma link_mirrors_the_driver_witness :
  let w := snd (compileAndLink example_driver (mkWorld example_sources [])) in
  getActiveUniforms w = (Returned 1, w) ∧
  ∃ u, getUniform 0 w = (Returned u, w) ∧ m_name u = "myColor" ∧ m_type u = GL_FLOAT_VEC4 ∧
       m_location u = 3.
Proof.
  apply (link_mirrors_the_driver example_driver example_sources [] 0 example_driver_no_fault);
    [vm_compute; reflexivity | vm_compute; split; [discriminate | reflexivity]].
Defined.

(** ** Values across builds *)

Lemma setUniform_accepted s tr index e u :
  m_linked s = true → uniform_at (m_activeUniforms s) index = Some e →
  m_name u = m_name e → m_type u = m_type e → m_location u = m_location e →
  setUniform index u (mkWorld s tr)
  = (Returned tt,
     mkWorld (set_activeUniforms (<[Z.to_nat index := u]> (m_activeUniforms s)) s) tr).
Proof.
  intros Hl He Hn Hty Hloc. pose proof (uniform_at_lookup_total _ _ _ He) as Ht.
  apply uniform_at_Some in He as (H0 & Hlt & _).
  unfold setUniform, bind, get, ret, modify. cbn [shader calls]. rewrite Hl, Ht. cbn [negb orb].
  destruct (Z.ltb_spec index 0); [lia |].
  destruct (Z.leb_spec (Z.of_nat (length (m_activeUniforms s))) index); [lia |].
  cbn [orb]. rewrite Hn, Hty, Hloc.
  rewrite (proj2 (equal_CaseSensitive_true _ _) eq_refl), !Z.eqb_refl. reflexivity.
Qed.

Lemma filter_none {A} (P : A → Prop) `{∀ x, Decision (P x)} (l : list A) :
  (∀ x, x ∈ l → ¬ P x) → filter P l = [].
Proof.
  induction l as [| x l IH]; intros Hl; [done |].
  rewrite filter_cons_False by (apply Hl; apply list_elem_of_here).
  apply IH. intros y Hy. apply Hl. by apply list_elem_of_further.
Qed.

Lemma last_match_only olds (i : nat) u neu :
  olds !! i = Some u →
  same_name_and_type u neu = true →
  (∀ k e, olds !! k = Some e → k ≠ i → same_name_and_type e neu = false) →
  last_match olds neu = Some u.
Proof.
  unfold last_match. revert i. induction olds as [| x olds IH]; intros i Hi Hu Hothers.
  - done.
  - destruct i as [| i]; cbn in Hi.
    + injection Hi as ->. rewrite filter_cons_True by done.
      assert (Hnil : filter (λ old, same_name_and_type old neu = true) olds = []).
      { apply filter_none. intros e He.
        apply list_elem_of_lookup in He as (k & Hk).
        rewrite (Hothers (S k) e Hk); [discriminate | done]. }
      by rewrite Hnil.
    + rewrite filter_cons_False.
      * apply (IH i Hi Hu). intros k e Hk Hne. apply (Hothers (S k) e Hk). lia.
      * rewrite (Hothers 0%nat x eq_refl); [discriminate | done].
Qed.

(** X14: a value written with [setUniform] survives the next successful
    build: wherever the new program has a uniform of the same name and
    type, [getUniform] returns the written payload under the new location,
    provided no other entry of the table before has this name and type. *)
Theorem written_value_survives_relink
    (d : Driver) (s : CShader) (tr : list GLcall) (index j : Z) (e u : CUniform) :
  no_fault d →
  m_linked s = true →
  uniform_at (m_activeUniforms s) index = Some e →
  m_name u = m_name e → m_type u = m_type e → m_location u = m_location e →
  (∀ k e', m_activeUniforms s !! k = Some e' → k ≠ Z.to_nat index →
           ¬ (m_name e' = m_name u ∧ m_type e' = m_type u)) →
  let w1 := snd (setUniform index u (mkWorld s tr)) in
  let p := drv_glCreateProgram d in
  result_of (compileAndLink d w1) = Returned true →
  0 ≤ j < drv_activeUniforms d p →
  (drv_activeUniform d p j).1.1 = m_name u → (drv_activeUniform d p j).2 = m_type u →
  result_of (getUniform j (snd (compileAndLink d w1)))
  = Returned (mkCUniform (m_name u) (m_type u) (drv_uniformLocation d p (m_name u)) (m_data u)).
Proof.
  intros Hnf Hl He Hn Hty Hloc Honly w1 p Hr Hj Hname Htype. subst w1 p.
  rewrite (setUniform_accepted s tr index e u Hl He Hn Hty Hloc) in *. cbn [snd] in *.
  set (s1 := set_activeUniforms (<[Z.to_nat index := u]> (m_activeUniforms s)) s) in *.
  destruct (compileAndLink_returned d s1 tr true Hnf Hr) as (Hl' & Ht & _).
  destruct (Ht eq_refl) as (_ & Ha). clear Ht.
  set (w := compileAndLink d (mkWorld s1 tr)) in *.
  assert (Hw : snd w = mkWorld (shader_after w) (calls_after w)) by (by destruct w as [? []]).
  assert (Hjn : (Z.to_nat j < Z.to_nat (drv_activeUniforms d (drv_glCreateProgram d)))%nat)
    by lia.
  pose proof (reflected_table_lookup d (Z.to_nat j) Hjn) as Hlook.
  rewrite Z2Nat.id in Hlook by lia.
  pose proof (remember_all_last_match (m_activeUniforms s1) (reflected_table d) (Z.to_nat j))
    as Hres.
  rewrite Hlook in Hres. cbn [fmap option_fmap option_map] in Hres. rewrite <- Ha in Hres.
  destruct (reflected_uniform_fields d (drv_glCreateProgram d) j) as (Hn' & Hty' & Hloc').
  apply uniform_at_Some in He as (H0 & Hlt & Hlk).
  rewrite (last_match_only (m_activeUniforms s1) (Z.to_nat index) u) in Hres.
  - apply uniform_at_lookup in Hres. rewrite Z2Nat.id in Hres by lia.
    rewrite Hw, (getUniform_linked _ _ _ _ Hl' Hres). unfold result_of. cbn [fst].
    unfold CUniform_copy. by rewrite Hloc', Hname.
  - subst s1. cbn [m_activeUniforms set_activeUniforms].
    apply list_lookup_insert_eq. lia.
  - apply same_name_and_type_true. by rewrite Hn', Hty', Hname, Htype.
  - intros k e' Hk Hne. subst s1. cbn [m_activeUniforms set_activeUniforms] in Hk.
    rewrite list_lookup_insert_ne in Hk by done.
    destruct (same_name_and_type e' (reflected_uniform d (drv_glCreateProgram d) j)) eqn:E;
      [| done].
    apply same_name_and_type_true in E as (E1 & E2).
    destruct (Honly k e' Hk Hne). split; congruence.
Qed.

Lemma written_value_survives_relink_witness :
  result_of (getUniform 0
               (snd (compileAndLink example_driver
                       (snd (setUniform 0 example_red (mkWorld example_linked []))))))
  = Returned example_red.
Proof.
  apply (written_value_survives_relink example_driver example_linked [] 0 0
           (CUniform_new "myColor" GL_FLOAT_VEC4 3) example_red example_driver_no_fault);
    try reflexivity.
  - intros [| k] e' Hk Hne; [done | discriminate].
  - vm_compute. split; [discriminate | reflexivity].
Defined.

(** X15: a failed build loses no value: it leaves both tables as they were,
    although [getActiveUniforms] returns 0 and [getUniform] the default
    uniform until the next success; a successful build after it, with
    whatever sources, carries the values from before the failure into the
    new table. *)
Theorem failed_build_keeps_the_values
    (d1 d2 : Driver) (s : CShader) (tr : list GLcall) (shaderType index : Z) (src : string) :
  no_fault d1 → no_fault d2 →
  let w1 := snd (compileAndLink d1 (mkWorld s tr)) in
  let w2 := snd (setShaderSource shaderType src w1) in
  let w3 := snd (compileAndLink d2 w2) in
  result_of (compileAndLink d1 (mkWorld s tr)) = Returned false →
  result_of (compileAndLink d2 w2) = Returned true →
  m_activeUniforms (shader w1) = m_activeUniforms s ∧
  m_oldUniforms (shader w1) = m_oldUniforms s ∧
  result_of (getActiveUniforms w1) = Returned 0 ∧
  result_of (getUniform index w1) = Returned CUniform_default ∧
  m_activeUniforms (shader w3) = remember_all (m_activeUniforms s) (reflected_table d2) ∧
  m_oldUniforms (shader w3) = m_activeUniforms s.
Proof.
  intros Hnf1 Hnf2 w1 w2 w3 Hr1 Hr2.
  destruct (compileAndLink_returned d1 s tr false Hnf1 Hr1) as (Hl1 & _ & Hf).
  destruct (Hf eq_refl) as (Ha1 & Ho1). clear Hf.
  change (shader_after (compileAndLink d1 (mkWorld s tr))) with (shader w1) in *.
  assert (Hw1 : w1 = mkWorld (shader w1) (calls w1)) by (by destruct w1).
  destruct (setShaderSource_run shaderType src w1) as (sources & Hsrc).
  assert (Hw2 : w2 = mkWorld (set_shaderSources sources (shader w1)) (calls w1)).
  { unfold w2. by rewrite Hsrc. }
  subst w3. rewrite Hw2 in Hr2 |- *.
  destruct (compileAndLink_returned d2 _ _ true Hnf2 Hr2) as (_ & Ht & _).
  destruct (Ht eq_refl) as (Ho3 & Ha3). clear Ht.
  cbn [m_activeUniforms set_shaderSources] in Ho3, Ha3. rewrite Ha1 in Ho3, Ha3.
  repeat (apply conj); try done.
  - rewrite Hw1. unfold getActiveUniforms, bind, get, ret, result_of. cbn. by rewrite Hl1.
  - rewrite Hw1. unfold getUniform, bind, get, ret, result_of. cbn. by rewrite Hl1.
Qed.

Lemma failed_build_keeps_the_values_witness :
  let w1 := snd (compileAndLink example_driver_syntax_error
                   (mkWorld (set_shaderSources (m_shaderSources example_three_stages)
                               (set_activeUniforms [example_red] example_linked)) [])) in
  let w3 := snd (compileAndLink example_driver
                   (snd (setShaderSource TYPE_FRAGMENT "void main() { }" w1))) in
  result_of (getUniform 0 w1) = Returned CUniform_default ∧
  m_activeUniforms (shader w3) = [example_red].
Proof.
  cbn zeta.
  pose proof (failed_build_keeps_the_values example_driver_syntax_error example_driver
                (set_shaderSources (m_shaderSources example_three_stages)
                   (set_activeUniforms [example_red] example_linked)) []
                TYPE_FRAGMENT 0 "void main() { }"
                example_driver_syntax_error_no_fault example_driver_no_fault) as H.
  cbn zeta in H.
  destruct H as (_ & _ & _ & H4 & H5 & _); [vm_compute; reflexivity .. |].
  split; [exact H4 |]. rewrite H5. vm_compute. reflexivity.
Defined.

(** ** Reading back what was written *)

(** X16: on a linked program a uniform written with its name, type and
    location is what [getUniform] returns at this index afterwards; the
    entries at the other indices and the number of uniforms are as
    before. *)
Theorem setUniform_then_getUniform
    (s : CShader) (tr : list GLcall) (index other : Z) (e u : CUniform) :
  m_linked s = true →
  uniform_at (m_activeUniforms s) index = Some e →
  m_name u = m_name e → m_type u = m_type e → m_location u = m_location e →
  let w := snd (setUniform index u (mkWorld s tr)) in
  result_of (getUniform index w) = Returned u ∧
  (other ≠ index →
     result_of (getUniform other w) = result_of (getUniform other (mkWorld s tr))) ∧
  result_of (getActiveUniforms w) = result_of (getActiveUniforms (mkWorld s tr)).
Proof.
  intros Hl He Hn Hty Hloc w. subst w.
  rewrite (setUniform_accepted s tr index e u Hl He Hn Hty Hloc). cbn [snd].
  apply uniform_at_Some in He as (H0 & Hlt & Hlk).
  unfold getUniform, getActiveUniforms, bind, get, ret, result_of.
  cbn [shader fst m_linked m_activeUniforms set_activeUniforms]. rewrite Hl.
  rewrite !length_insert. cbn [negb andb].
  split; [| split; [| done]].
  - destruct (Z.leb_spec 0 index); [| lia].
    destruct (Z.ltb_spec index (Z.of_nat (length (m_activeUniforms s)))); [| lia].
    cbn [andb fst]. f_equal. apply list_lookup_total_insert_eq. lia.
  - intros Hne.
    destruct (Z.leb_spec 0 other); [| done].
    destruct (Z.ltb_spec other (Z.of_nat (length (m_activeUniforms s)))); [| done].
    cbn [andb fst]. f_equal. apply list_lookup_total_insert_ne. lia.
Qed.

Lemma setUniform_then_getUniform_witness :
  result_of (getUniform 0 (snd (setUniform 0 example_red (mkWorld example_linked []))))
  = Returned example_red.
Proof.
  pose proof (setUniform_then_getUniform example_linked [] 0 1
                (CUniform_new "myColor" GL_FLOAT_VEC4 3) example_red) as H.
  destruct H as (H & _); [reflexivity .. |]. exact H.
Defined.

(** X17: [setUniform] never changes which uniforms there are: whatever is
    passed, the table keeps its length and every entry keeps its name,
    type and location; neither the link status nor any other member
    changes, and no call is made. *)
Theorem setUniform_keeps_the_layout (s : CShader) (tr : list GLcall) (index : Z) (u : CUniform) :
  let r := setUniform index u (mkWorld s tr) in
  result_of r = Returned tt ∧ calls_after r = tr ∧
  set_activeUniforms (m_activeUniforms s) (shader_after r) = s ∧
  length (m_activeUniforms (shader_after r)) = length (m_activeUniforms s) ∧
  ∀ k e, m_activeUniforms s !! k = Some e →
    ∃ e', m_activeUniforms (shader_after r) !! k = Some e' ∧
          m_name e' = m_name e ∧ m_type e' = m_type e ∧ m_location e' = m_location e.
Proof.
  cbn zeta. unfold setUniform, bind, get, ret, modify, result_of, calls_after, shader_after.
  cbn [shader calls].
  destruct (negb (m_linked s) || (index <? 0)
            || (Z.of_nat (length (m_activeUniforms s)) <=? index)) eqn:Eguard.
  { cbn [fst snd shader calls]. rewrite set_activeUniforms_id.
    repeat (apply conj); try done. intros k e Hk. by exists e. }
  apply orb_false_iff in Eguard as [Eguard Hhi]. apply orb_false_iff in Eguard as [_ Hlo].
  apply Z.ltb_ge in Hlo. apply Z.leb_gt in Hhi.
  destruct (negb (equal_CaseSensitive (m_name (m_activeUniforms s !!! Z.to_nat index)) (m_name u))
            || negb (m_type (m_activeUniforms s !!! Z.to_nat index) =? m_type u)
            || negb (m_location (m_activeUniforms s !!! Z.to_nat index) =? m_location u))
    eqn:Esame.
  { cbn [fst snd shader calls]. rewrite set_activeUniforms_id.
    repeat (apply conj); try done. intros k e Hk. by exists e. }
  apply orb_false_iff in Esame as [Esame Eloc]. apply orb_false_iff in Esame as [Ename Etype].
  apply negb_false_iff in Ename, Etype, Eloc.
  apply equal_CaseSensitive_true in Ename. apply Z.eqb_eq in Etype, Eloc.
  cbn [fst snd shader calls m_activeUniforms set_activeUniforms].
  repeat (apply conj); try done.
  - by destruct s.
  - by rewrite length_insert.
  - intros k e Hk. destruct (decide (k = Z.to_nat index)) as [-> | Hne].
    + exists u. rewrite list_lookup_insert_eq by lia.
      rewrite (list_lookup_total_correct _ _ _ Hk) in Ename, Etype, Eloc. done.
    + exists e. by rewrite list_lookup_insert_ne.
Qed.

(** ** The calls of the link step *)

(** A loop makes the calls of its rounds, in order. *)
Lemma runs_for_each_calls {A} (l : list A) (body : A → M unit) (Inv : CShader → Prop)
    (C : A → list GLcall) :
  (∀ x s tr, Inv s → runs (body x) (mkWorld s tr) (λ _ s' cs, Inv s' ∧ cs = C x)) →
  ∀ s tr, Inv s →
    runs (for_each l body) (mkWorld s tr) (λ _ s' cs, Inv s' ∧ cs = concat (C <$> l)).
Proof.
  intros Hbody. induction l as [| x l IH]; intros s tr HI; cbn [for_each].
  - by apply runs_ret.
  - eapply runs_bind; [by apply Hbody |].
    intros a s' cs (HI' & ->). cbn [calls].
    destruct (IH s' (tr ++ C x) HI') as (b & s'' & cs' & Hrun & HI'' & ->).
    exists b, s'', (concat (C <$> l)). split; [exact Hrun |]. by split.
Qed.

Lemma runs_modify_post f w (post : unit → CShader → list GLcall → Prop) :
  post tt (f (shader w)) [] → runs (modify f) w post.
Proof.
  intros H. exists tt, (f (shader w)), []. split; [| done].
  unfold modify. by rewrite app_nil_r.
Qed.

Section LinkStep.

Variable d : Driver.
Hypothesis Hnf : no_fault d.

Ltac step :=
  lazymatch goal with
  | |- runs (bind get _) _ _ => simple apply runs_bind_get; cbn [shader calls]
  | |- runs (bind (gl d _) _) _ _ => simple apply (runs_bind_gl d Hnf); cbn [shader calls]
  end.

Ltac step_modify inv :=
  simple apply runs_bind_modify_inv with (P := inv);
  [ cbn [shader]; solve [unfold keeps in *; cbn in *; intuition congruence]
  | cbn [calls]; intros ? ? ].

Tactic Notation "step_modify_as" ident(x) ident(Hx) constr(inv) :=
  simple apply runs_bind_modify_inv with (P := inv);
  [ cbn [shader]; solve [unfold keeps in *; cbn in *; intuition congruence]
  | cbn [calls]; intros x Hx ].

Lemma setupProgramParameters_calls s tr :
  runs (setupProgramParameters d) (mkWorld s tr)
       (λ _ s' cs, s' = s ∧ cs = geometry_parameter_calls s).
Proof.
  unfold setupProgramParameters, geometry_parameter_calls. step.
  destruct (m_geometryShaderAvailable s); [| by apply runs_ret].
  do 3 step. by apply (runs_gl d Hnf).
Qed.

Lemma logActiveUniforms_calls s tr :
  runs (logActiveUniforms d) (mkWorld s tr)
       (λ _ s' cs, keeps s s' ∧ m_attribLocations s' = m_attribLocations s ∧
                   cs = uniform_listing_calls d (m_program s)).
Proof.
  unfold logActiveUniforms, log_append, uniform_listing_calls. do 2 step.
  step_modify (λ s', keeps s s' ∧ m_attribLocations s' = m_attribLocations s).
  step_modify (λ s', keeps s s' ∧ m_attribLocations s' = m_attribLocations s).
  eapply runs_bind.
  - unfold for_upto.
    apply (runs_for_each_calls _ _
             (λ s', keeps s s' ∧ m_attribLocations s' = m_attribLocations s)
             (λ i, [ glGetActiveUniform (m_program s) i;
                     glGetUniformLocation (m_program s)
                       (drv_activeUniform d (m_program s) i).1.1 ])); [| done].
    intros i s0 tr0 Hs0. step.
    destruct (drv_activeUniform d (m_program s) i) as [[name size] type].
    step. cbn [fst]. apply runs_modify_post. cbn [shader].
    split; [| done]. unfold keeps in *. cbn in *. intuition congruence.
  - intros a s2 cs (Hs2 & ->). cbn beta. cbn [calls].
    apply runs_modify_post. cbn [shader]. rewrite app_nil_r.
    unfold keeps in *. cbn in *. intuition congruence.
Qed.

Lemma logActiveAttributes_calls s tr :
  runs (logActiveAttributes d) (mkWorld s tr)
       (λ _ s' cs, keeps s s' ∧ m_attribLocations s' = m_attribLocations s ∧
                   cs = attribute_listing_calls d (m_program s)).
Proof.
  unfold logActiveAttributes, log_append, attribute_listing_calls. do 2 step.
  step_modify (λ s', keeps s s' ∧ m_attribLocations s' = m_attribLocations s).
  step_modify (λ s', keeps s s' ∧ m_attribLocations s' = m_attribLocations s).
  eapply runs_bind.
  - unfold for_upto.
    apply (runs_for_each_calls _ _
             (λ s', keeps s s' ∧ m_attribLocations s' = m_attribLocations s)
             (λ i, [ glGetActiveAttrib (m_program s) i;
                     glGetAttribLocation (m_program s)
                       (drv_activeAttrib d (m_program s) i).1.1 ])); [| done].
    intros i s0 tr0 Hs0. step.
    destruct (drv_activeAttrib d (m_program s) i) as [[name size] type].
    step. cbn [fst]. apply runs_modify_post. cbn [shader].
    split; [| done]. unfold keeps in *. cbn in *. intuition congruence.
  - intros a s2 cs (Hs2 & ->). cbn beta. cbn [calls].
    apply runs_modify_post. cbn [shader]. rewrite app_nil_r.
    unfold keeps in *. cbn in *. intuition congruence.
Qed.

Lemma linkAndValidateProgram_calls s tr :
  runs (linkAndValidateProgram d) (mkWorld s tr)
       (λ r s' cs,
          r = negb (drv_linkStatus d (m_program s) =? GL_FALSE) ∧
          m_linked s' = r ∧ core s' = core s ∧ m_program s' = m_program s ∧
          m_attribLocations s'
          = mkVertexAttribLocations (drv_attribLocation d (m_program s) "attrTangent")
                                    (drv_attribLocation d (m_program s) "attrBitangent") ∧
          cs = geometry_parameter_calls s ++ link_calls (m_program s) ++
               uniform_listing_calls d (m_program s) ++
               attribute_listing_calls d (m_program s)).
Proof.
  unfold linkAndValidateProgram, log_append.
  step_modify_as s0 H0
    (λ s', keeps s s' ∧ m_num_output s' = m_num_output s ∧
           m_geometryInputType s' = m_geometryInputType s ∧
           m_geometryOutputType s' = m_geometryOutputType s).
  eapply runs_bind; [apply setupProgramParameters_calls |].
  intros a s0' cs0 (-> & ->). cbn [calls]. step.
  destruct H0 as ((Hc & Hp & _) & Hno & Hgi & Hgo).
  assert (Hgeo : geometry_parameter_calls s0 = geometry_parameter_calls s).
  { unfold geometry_parameter_calls. unfold core in Hc. injection Hc as _ _ Hg _.
    by rewrite Hg, Hp, Hno, Hgi, Hgo. }
  rewrite Hgeo, Hp. clear Hgeo Hno Hgi Hgo.
  set (L := negb (drv_linkStatus d (m_program s) =? GL_FALSE)).
  set (T := drv_attribLocation d (m_program s) "attrTangent").
  set (B := drv_attribLocation d (m_program s) "attrBitangent").
  do 2 step.
  step_modify_as s1 H1 (λ s', core s' = core s ∧ m_program s' = m_program s).
  step.
  step_modify_as s2 H2
    (λ s', m_linked s' = L ∧ core s' = core s ∧ m_program s' = m_program s).
  do 2 step.
  step_modify_as s3 H3
    (λ s', m_linked s' = L ∧ core s' = core s ∧ m_program s' = m_program s).
  step.
  step_modify_as s4 H4
    (λ s', m_linked s' = L ∧ core s' = core s ∧ m_program s' = m_program s).
  step_modify_as s5 H5
    (λ s', m_linked s' = L ∧ core s' = core s ∧ m_program s' = m_program s).
  do 2 step.
  step_modify_as s6 H6
    (λ s', m_linked s' = L ∧ core s' = core s ∧ m_program s' = m_program s ∧
           tangent (m_attribLocations s') = T).
  step.
  step_modify_as s7 H7
    (λ s', m_linked s' = L ∧ core s' = core s ∧ m_program s' = m_program s ∧
           m_attribLocations s' = mkVertexAttribLocations T B).
  destruct H7 as (Hl7 & Hc7 & Hp7 & Ha7).
  eapply runs_bind; [apply logActiveUniforms_calls |].
  intros a1 s8 cs1 ((Hc8 & Hp8 & Hl8) & Ha8 & ->). cbn [calls].
  eapply runs_bind; [apply logActiveAttributes_calls |].
  intros a2 s9 cs2 ((Hc9 & Hp9 & Hl9) & Ha9 & ->). cbn [calls]. step. apply runs_ret.
  cbn [shader]. subst L. rewrite Hp8, Hp7.
  repeat (apply conj); try congruence.
  rewrite app_nil_r. reflexivity.
Qed.

Lemma setupInitialUniforms_calls s tr :
  runs (setupInitialUniforms d) (mkWorld s tr)
       (λ _ s' cs,
          s' = set_activeUniforms
                 (reflected_uniform d (m_program s)
                    <$> (Z.of_nat <$> seq 0 (Z.to_nat (drv_activeUniforms d (m_program s)))))
                 (set_oldUniforms (m_activeUniforms s) s) ∧
          cs = uniform_listing_calls d (m_program s)).
Proof.
  unfold setupInitialUniforms, uniform_listing_calls. do 2 step.
  eapply runs_bind.
  - unfold for_upto.
    apply (runs_for_each_calls _ _ (λ s', s' = s)
             (λ i, [ glGetActiveUniform (m_program s) i;
                     glGetUniformLocation (m_program s)
                       (drv_activeUniform d (m_program s) i).1.1 ])); [| done].
    intros i s0 tr0 ->. step. by apply (runs_gl d Hnf).
  - intros a s' cs (-> & ->). cbn beta. cbn [calls].
    apply runs_bind_modify. apply runs_modify_post. cbn [shader]. by rewrite app_nil_r.
Qed.

Lemma compileAndLink2_calls s tr :
  length (m_shaders s) = 3%nat → drv_glCreateProgram d ≠ 0 → stages_ok d s = true →
  runs (compileAndLink2 d) (mkWorld s tr)
       (λ r s' cs,
          r = link_ok d ∧
          m_attribLocations s'
          = mkVertexAttribLocations
              (drv_attribLocation d (drv_glCreateProgram d) "attrTangent")
              (drv_attribLocation d (drv_glCreateProgram d) "attrBitangent") ∧
          cs = release_calls s ++ [glCreateProgram] ++ stages_calls d s ++
               geometry_parameter_calls (with_new_program d s) ++
               link_calls (drv_glCreateProgram d) ++
               uniform_listing_calls d (drv_glCreateProgram d) ++
               attribute_listing_calls d (drv_glCreateProgram d) ++
               (if link_ok d then uniform_listing_calls d (drv_glCreateProgram d) else [])).
Proof.
  intros Hlen Hp Hok. unfold compileAndLink2.
  apply runs_bind with (Q := λ _ s' cs, s' = released s ∧ cs = release_calls s).
  { exists tt, (released s), (release_calls s).
    split; [by apply deactivateProgram_exact | done]. }
  intros a s0 cs0 (-> & ->). cbn [calls].
  step_modify_as s1 H1 (λ s', core s' = core s ∧ m_num_output s' = m_num_output s ∧
                              m_geometryInputType s' = m_geometryInputType s ∧
                              m_geometryOutputType s' = m_geometryOutputType s).
  step.
  simple apply runs_bind_modify_inv with (P := build_frame d s);
    [ cbn [shader]; unfold build_frame; cbn in *; intuition congruence
    | cbn [calls]; intros s2 H2 ].
  destruct (Z.eqb_spec (drv_glCreateProgram d) 0) as [| _]; [done |].
  destruct H2 as (Hc2 & Hp2 & Hno2 & Hgi2 & Hgo2). clear dependent s1.
  destruct (stages_congruence d s s2 Hc2) as (Hok2 & _ & _).
  assert (Hst : ∀ i, stage_calls d s2 i = stage_calls d (with_new_program d s) i).
  { intros i.
    destruct (stage_congruence d (with_new_program d s) s2 i) as (_ & _ & H3);
      [by rewrite Hc2 | by rewrite Hp2 |]. done. }
  apply runs_bind with
    (Q := λ r s' cs, r = true ∧ build_frame d s s' ∧ cs = stages_calls d s).
  { destruct (compile_stages_run d Hnf s2 ((tr ++ release_calls s) ++ [glCreateProgram]))
      as (sh & Hrun).
    eexists _, _, _. split; [cbn [calls]; exact Hrun |].
    split; [by rewrite Hok2 |]. split.
    - unfold build_frame. cbn. done.
    - unfold stages_calls. by rewrite !Hst. }
  intros r s3 cs3 (-> & (Hc3 & Hp3 & Hno3 & Hgi3 & Hgo3) & ->). cbn [calls].
  assert (Hgeo : geometry_parameter_calls s3 = geometry_parameter_calls (with_new_program d s)).
  { unfold geometry_parameter_calls. unfold core in Hc3. injection Hc3 as _ _ Hg _.
    rewrite Hg, Hp3, Hno3, Hgi3, Hgo3. reflexivity. }
  apply runs_bind with
    (Q := λ r s' cs,
       r = link_ok d ∧ m_linked s' = r ∧ core s' = core s ∧
       m_program s' = drv_glCreateProgram d ∧
       m_attribLocations s'
       = mkVertexAttribLocations
           (drv_attribLocation d (drv_glCreateProgram d) "attrTangent")
           (drv_attribLocation d (drv_glCreateProgram d) "attrBitangent") ∧
       cs = geometry_parameter_calls (with_new_program d s) ++
            link_calls (drv_glCreateProgram d) ++
            uniform_listing_calls d (drv_glCreateProgram d) ++
            attribute_listing_calls d (drv_glCreateProgram d)).
  { eapply runs_bind; [apply linkAndValidateProgram_calls |].
    intros r s4 cs4 (-> & Hl4 & Hc4 & Hp4 & Ha4 & ->). apply runs_ret. cbn [shader andb].
    rewrite Hp3 in *. rewrite Hgeo, app_nil_r. unfold link_ok.
    repeat (apply conj); congruence. }
  intros r s4 cs4 (-> & Hl4 & Hc4 & Hp4 & Ha4 & ->). cbn [calls].
  destruct (link_ok d) eqn:El.
  - apply runs_bind with
      (Q := λ _ s' cs,
         m_attribLocations s' = m_attribLocations s4 ∧
         cs = uniform_listing_calls d (drv_glCreateProgram d)).
    { eapply runs_bind; [apply setupInitialUniforms_calls |].
      intros a1 s5 cs5 (-> & ->). cbn beta. unfold setupRememberedUniformState.
      apply runs_modify_post. cbn [shader]. rewrite app_nil_r, Hp4. done. }
    intros a1 s5 cs5 (Ha5 & ->). apply runs_ret. cbn [shader].
    rewrite Ha5, app_nil_r, <- ?app_assoc. done.
  - apply runs_bind with (Q := λ _ s' cs, s' = s4 ∧ cs = []); [by apply runs_ret |].
    intros a1 s5 cs5 (-> & ->). apply runs_ret. cbn [shader].
    rewrite ?app_nil_r, <- ?app_assoc. done.
Qed.

End LinkStep.

(** X18: a build on which every stage compiles uses the driver in this order:
    the objects of the build before are released, the program object is
    created, the stages are compiled and attached, the geometry parameters
    are passed (only where the geometry stage is available) before the
    program is linked, the program is validated, the timer is restarted
    and the two attribute locations are asked for whether or not the link
    succeeded, the uniforms and attributes are listed for the log, and
    after a successful link the uniforms are listed once more to build the
    table.  The attribute locations stored are the driver's, also when the
    link failed. *)
Theorem build_calls_in_order (d : Driver) (s : CShader) (tr : list GLcall) :
  no_fault d → length (m_shaders s) = 3%nat →
  drv_glCreateProgram d ≠ 0 → stages_ok d s = true →
  let r := compileAndLink d (mkWorld s tr) in
  let p := drv_glCreateProgram d in
  result_of r = Returned (link_ok d) ∧
  m_attribLocations (shader_after r)
  = mkVertexAttribLocations (drv_attribLocation d p "attrTangent")
                            (drv_attribLocation d p "attrBitangent") ∧
  calls_after r
  = tr ++ release_calls s ++ [glCreateProgram] ++ stages_calls d s ++
    geometry_parameter_calls (with_new_program d s) ++ link_calls p ++
    uniform_listing_calls d p ++ attribute_listing_calls d p ++
    (if link_ok d then uniform_listing_calls d p else []).
Proof.
  intros Hnf Hlen Hp Hok r p. subst r p.
  destruct (compileAndLink_runs d s tr _ (compileAndLink2_calls d Hnf s tr Hlen Hp Hok))
    as (r & s' & cs & -> & -> & Ha & ->).
  unfold result_of, shader_after, calls_after. cbn [fst snd shader calls]. done.
Qed.

Lemma build_calls_in_order_witness :
  calls_after (compileAndLink example_driver (mkWorld example_sources []))
  = [ glUseProgram 0; glCreateProgram;
      glCreateShader GL_VERTEX_SHADER;
      glShaderSource 2 "void main() { gl_Position = ftransform(); }";
      glCompileShader 2; glGetShaderInfoLog 2; glGetShaderiv 2 GL_COMPILE_STATUS;
      glAttachShader 1 2;
      glCreateShader GL_FRAGMENT_SHADER;
      glShaderSource 3 "void main() { gl_FragColor = vec4( 1.0 ); }";
      glCompileShader 3; glGetShaderInfoLog 3; glGetShaderiv 3 GL_COMPILE_STATUS;
      glAttachShader 1 3;
      glLinkProgram 1; glGetProgramInfoLog 1; glGetProgramiv 1 GL_LINK_STATUS;
      glValidateProgram 1; glGetProgramiv 1 GL_VALIDATE_STATUS; glGetProgramInfoLog 1;
      QTime_start;
      glGetAttribLocation 1 "attrTangent"; glGetAttribLocation 1 "attrBitangent";
      glGetProgramiv 1 GL_ACTIVE_UNIFORMS; glGetActiveUniform 1 0;
      glGetUniformLocation 1 "myColor";
      glGetProgramiv 1 GL_ACTIVE_ATTRIBUTES;
      glGetProgramiv 1 GL_ACTIVE_UNIFORMS; glGetActiveUniform 1 0;
      glGetUniformLocation 1 "myColor" ].
Proof.
  pose proof (build_calls_in_order example_driver example_sources []
                example_driver_no_fault eq_refl) as H.
  destruct H as (_ & _ & H); [discriminate | reflexivity |].
  rewrite H. vm_compute. reflexivity.
Defined.

(** ** Binding the state *)

Lemma uniform_calls_location u c :
  c ∈ uniform_calls u →
  ∃ values, uniform_call_values c = Some (m_location u, values) ∧ m_location u ≠ -1.
Proof.
  unfold uniform_calls. destruct (Z.eqb_spec (m_location u) (-1)) as [| Hloc].
  { intros H. by apply elem_of_nil in H. }
  unfold applyToGL_call.
  repeat match goal with
         | |- context [if ?c then _ else _] => destruct c
         end;
    intros H; try (by apply elem_of_nil in H);
    apply list_elem_of_singleton in H as ->; eexists; (split; [reflexivity | done]).
Qed.

Lemma elem_of_concat {A} (x : A) (ls : list (list A)) :
  x ∈ concat ls → ∃ l, x ∈ l ∧ l ∈ ls.
Proof.
  induction ls as [| l ls IH]; cbn; intros H; [by apply elem_of_nil in H |].
  apply elem_of_app in H as [H | H].
  - exists l. split; [done | apply list_elem_of_here].
  - destruct (IH H) as (l' & H1 & H2). exists l'. split; [done |].
    by apply list_elem_of_further.
Qed.

Lemma updateTimeVariable_twice seconds u :
  updateTimeVariable seconds (updateTimeVariable seconds u) = updateTimeVariable seconds u.
Proof.
  unfold updateTimeVariable. destruct (is_time_variable u) eqn:E; [| by rewrite E].
  change (is_time_variable (setValueAsFloat 0 seconds u)) with (is_time_variable u).
  rewrite E. unfold setValueAsFloat. cbn. by rewrite list_insert_insert_eq.
Qed.

(** X19: [bindState] on a linked program changes nothing but the first word of
    the float scalars named "time": every other entry, and every other
    member of the object, is left as it is.  After selecting the program
    it passes the entries to the driver in the order of the table, never
    with the location -1.  A second call with the same time changes
    nothing. *)
Theorem bindState_keeps_user_values
    (d : Driver) (seconds : Z) (s : CShader) (tr : list GLcall) :
  no_fault d → m_linked s = true → m_program s ≠ 0 →
  let r := bindState d seconds (mkWorld s tr) in
  let table := m_activeUniforms (shader_after r) in
  result_of r = Returned (true, m_attribLocations s) ∧
  set_activeUniforms (m_activeUniforms s) (shader_after r) = s ∧
  length table = length (m_activeUniforms s) ∧
  (∀ k e, m_activeUniforms s !! k = Some e → is_time_variable e = false →
          table !! k = Some e) ∧
  calls_after r = tr ++ glUseProgram (m_program s) :: concat (uniform_calls <$> table) ∧
  (∀ c, c ∈ concat (uniform_calls <$> table) →
        ∃ location values, uniform_call_values c = Some (location, values) ∧ location ≠ -1) ∧
  shader_after (bindState d seconds (snd r)) = shader_after r.
Proof.
  intros Hnf Hl Hp r table. subst table r.
  rewrite (bindState_linked d Hnf seconds s tr Hl Hp).
  unfold result_of, shader_after, calls_after.
  cbn [fst snd shader calls m_activeUniforms set_activeUniforms].
  repeat (apply conj).
  - reflexivity.
  - by destruct s.
  - by rewrite length_fmap.
  - intros k e Hk He. rewrite list_lookup_fmap, Hk. cbn.
    unfold updateTimeVariable. by rewrite He.
  - reflexivity.
  - intros c Hc. apply elem_of_concat in Hc as (cs & Hc & Hcs).
    apply list_elem_of_fmap in Hcs as (u & -> & _).
    destruct (uniform_calls_location u c Hc) as (values & H1 & H2). eauto.
  - rewrite (bindState_linked d Hnf seconds _ _); [| done | done].
    cbn [fst snd shader calls m_activeUniforms set_activeUniforms].
    unfold set_activeUniforms. cbn. f_equal. rewrite <- list_fmap_compose.
    apply list_fmap_ext. intros i u _. apply updateTimeVariable_twice.
Qed.

Lemma bindState_keeps_user_values_witness :
  calls_after (bindState example_driver 0x40000000
                 (mkWorld (set_activeUniforms [example_red] example_linked) []))
  = [glUseProgram 1; glUniformfv 4 3 [F32.one; F32.zero; F32.zero; F32.one]].
Proof.
  pose proof (bindState_keeps_user_values example_driver 0x40000000
                (set_activeUniforms [example_red] example_linked) []
                example_driver_no_fault eq_refl) as H.
  destruct H as (_ & _ & _ & _ & H & _); [discriminate |].
  rewrite H. vm_compute. reflexivity.
Defined.

(** ** Exceptions of the driver *)

(** X20: [compileAndLink] is the only operation that catches an exception of
    the driver: it always returns, with false and the text of the critical
    error as the build log when the attempt was ended by an exception.  An
    exception raised by [glUseProgram( 0 )] ends [deactivateProgram],
    [shutdown] and, on a program that is not linked, [bindState]; ending
    [compileAndLink] at its first call, it leaves the program object as it
    was, neither deleted nor set to 0. *)
Theorem only_compileAndLink_catches
    (d : Driver) (seconds : Z) (s : CShader) (tr : list GLcall) :
  let w := mkWorld s tr in
  (∃ r, result_of (compileAndLink d w) = Returned r) ∧
  (result_of (compileAndLink2 d w) = Thrown →
     result_of (compileAndLink d w) = Returned false ∧
     m_log (shader_after (compileAndLink d w)) = critical_error_log ∧
     calls_after (compileAndLink d w) = calls_after (compileAndLink2 d w)) ∧
  (drv_throws d (glUseProgram 0) = true →
     result_of (deactivateProgram d w) = Thrown ∧
     result_of (shutdown d w) = Thrown ∧
     (m_linked s = false → result_of (bindState d seconds w) = Thrown) ∧
     result_of (compileAndLink d w) = Returned false ∧
     calls_after (compileAndLink d w) = tr ++ [glUseProgram 0] ∧
     m_program (shader_after (compileAndLink d w)) = m_program s ∧
     m_linked (shader_after (compileAndLink d w)) = false).
Proof.
  cbn zeta. unfold compileAndLink, try_catch, result_of, shader_after, calls_after.
  split; [| split].
  - destruct (compileAndLink2 d (mkWorld s tr)) as [[r |] w']; cbn; eauto.
  - destruct (compileAndLink2 d (mkWorld s tr)) as [[r |] w']; cbn; [discriminate |].
    done.
  - intros Hthrow.
    assert (Hd : ∀ s0 tr0, deactivateProgram d (mkWorld s0 tr0)
              = (Thrown, mkWorld (set_attribLocations VertexAttribLocations_default
                                    (set_linked false s0)) (tr0 ++ [glUseProgram 0]))).
    { intros s0 tr0. unfold deactivateProgram. rewrite !bind_modify. cbn [shader calls].
      unfold bind at 1. unfold gl. by rewrite Hthrow. }
    repeat (apply conj).
    + by rewrite Hd.
    + unfold shutdown. rewrite bind_modify. cbn [shader calls].
      unfold bind at 1. by rewrite Hd.
    + intros Hl. unfold bindState. rewrite bind_get. cbn [shader]. rewrite Hl, andb_false_r.
      unfold bind, gl. by rewrite Hthrow.
    + unfold compileAndLink2. unfold bind at 1. by rewrite Hd.
    + unfold compileAndLink2. unfold bind at 1. by rewrite Hd.
    + unfold compileAndLink2. unfold bind at 1. by rewrite Hd.
    + unfold compileAndLink2. unfold bind at 1. by rewrite Hd.
Qed.

(** ** The uniforms the widget edits *)

Lemma type_tables_base (u : CUniform) :
  getBaseType u ≠ BASE_TYPE_SAMPLER ∧
  (getBaseType u ≠ BASE_TYPE_BAD →
     m_type u ∈ known_types ∧ (m_type u ∉ sampler_types) ∧ 1 ≤ getComponentCount u).
Proof.
  pose proof (type_tables_check_all (m_type u)) as H.
  pose proof (getComponentCount_range u) as Hr.
  unfold type_tables_check in H.
  change (getComponentCount (mkCUniform EmptyString (m_type u) 0 []))
    with (getComponentCount u) in H.
  change (getBaseType (mkCUniform EmptyString (m_type u) 0 [])) with (getBaseType u) in H.
  cbn zeta in H.
  rewrite <- !type_in_elem.
  generalize dependent (getComponentCount u). intros count.
  generalize (getBaseType u). intros base.
  generalize (isMatrix (mkCUniform EmptyString (m_type u) 0 [])). intros matrix.
  generalize (getColumnCount (mkCUniform EmptyString (m_type u) 0 [])). intros columns.
  generalize (type_in (m_type u) known_types). intros known.
  generalize (type_in (m_type u) sampler_types). intros sampler.
  intros H Hr.
  repeat (apply andb_true_iff in H as [H ?]).
  destruct (Z.eqb_spec count 0), known, sampler, base;
    try discriminate; repeat (apply conj); try done; try lia.
Qed.

Lemma acceptsUniform_parts (u : CUniform) :
  acceptsUniform u = true ↔
  m_location u ≠ -1 ∧ is_time_variable u = false ∧ getBaseType u ≠ BASE_TYPE_BAD.
Proof.
  unfold acceptsUniform, is_time_variable.
  destruct (type_tables_base u) as (Hs & _).
  destruct (Z.eqb_spec (m_location u) (-1)) as [Hloc | Hloc]; [split; [done | by intros (? & _)] |].
  destruct ((m_type u =? GL_FLOAT) && equal_CaseInsensitive "time" (m_name u));
    [split; [done | by intros (_ & ? & _)] |].
  destruct (isMatrix u); cbn [andb];
    destruct (getBaseType u) eqn:Eb; cbn; split; try done; try (by intros (_ & _ & ?)).
Qed.

(** X21: the widget offers a uniform for editing exactly when it has a
    location, is not the float scalar named "time" and has the base type
    bool, int or float (the matrices among them).  So no sampler and no
    unknown type is offered, [bindState] never overwrites an offered
    uniform, and passes each one to the driver by exactly one call. *)
Theorem acceptsUniform_editable (u : CUniform) (seconds : Z) :
  (acceptsUniform u = true ↔
     m_location u ≠ -1 ∧ is_time_variable u = false ∧ getBaseType u ≠ BASE_TYPE_BAD) ∧
  (acceptsUniform u = true →
     m_type u ∈ known_types ∧ (m_type u ∉ sampler_types) ∧
     1 ≤ getComponentCount u ∧
     updateTimeVariable seconds u = u ∧
     ∃ c, uniform_calls u = [c]).
Proof.
  split; [apply acceptsUniform_parts |].
  intros Ha. apply acceptsUniform_parts in Ha as (Hloc & Htime & Hbase).
  destruct (type_tables_base u) as (_ & Hk). destruct (Hk Hbase) as (Hknown & Hsamp & Hcount).
  repeat (apply conj); try done.
  - unfold updateTimeVariable. by rewrite Htime.
  - unfold uniform_calls. destruct (Z.eqb_spec (m_location u) (-1)); [done |].
    rewrite (applyToGL_call_known u Hknown). by eexists.
Qed.

(** ** The index map *)

Lemma getUniform_run index s tr :
  getUniform index (mkWorld s tr)
  = (Returned (if m_linked s
               then default CUniform_default (uniform_at (m_activeUniforms s) index)
               else CUniform_default), mkWorld s tr).
Proof.
  unfold getUniform, bind, get, ret, uniform_at. cbn [shader].
  destruct (m_linked s); [| done]. cbn [andb].
  destruct (Z.leb_spec 0 index), (Z.ltb_spec index 0); try lia;
    destruct (Z.ltb_spec index (Z.of_nat (length (m_activeUniforms s)))),
             (Z.leb_spec (Z.of_nat (length (m_activeUniforms s))) index); try lia;
    cbn [orb andb default]; try done.
  destruct (lookup_lt_is_Some_2 (m_activeUniforms s) (Z.to_nat index)) as (e & He); [lia |].
  by rewrite He, (list_lookup_total_correct _ _ _ He).
Qed.

Lemma fill_indexMap_run s tr (a n : nat) (indexMap : list Z) :
  m_linked s = true → (a + n ≤ length (m_activeUniforms s))%nat →
  fill_indexMap (Z.of_nat <$> seq a n) indexMap (mkWorld s tr)
  = (Returned (indexMap ++
               (Z.of_nat <$> filter (λ i, acceptsUniform (entry_at s i) = true) (seq a n))),
     mkWorld s tr).
Proof.
  intros Hl. revert a indexMap. induction n as [| n IH]; intros a indexMap Hn.
  - cbn. by rewrite app_nil_r.
  - cbn [seq]. rewrite fmap_cons. cbn [fill_indexMap].
    rewrite (run_bind _ _ _ _ _ (getUniform_run (Z.of_nat a) s tr)), Hl.
    destruct (lookup_lt_is_Some_2 (m_activeUniforms s) a) as (e & He); [lia |].
    assert (Hat : uniform_at (m_activeUniforms s) (Z.of_nat a) = Some e)
      by (by apply uniform_at_lookup).
    rewrite Hat. change (default CUniform_default (Some e)) with e.
    assert (Hentry : entry_at s a = e) by (by apply list_lookup_total_correct).
    destruct (acceptsUniform e) eqn:Ea; cbn [negb].
    + rewrite IH by lia. rewrite filter_cons_True by (by rewrite Hentry).
      rewrite fmap_cons. by rewrite <- app_assoc.
    + rewrite IH by lia. rewrite filter_cons_False by (rewrite Hentry, Ea; discriminate).
      done.
Qed.

(** X22: filling the index map in [readContentFromState] changes nothing and
    makes no call.  The map has no index twice and holds exactly the
    indices at which [getUniform] returns a uniform the widget accepts: an
    index below the number of uniforms of a linked program, never that of
    a sampler, of the time variable or of a uniform without location.
    Without a linked program the map is empty. *)
Theorem readContentFromState_indexMap (s : CShader) (tr : list GLcall) :
  ∃ indexMap,
    readContentFromState (mkWorld s tr) = (Returned indexMap, mkWorld s tr) ∧
    NoDup indexMap ∧
    (∀ i, i ∈ indexMap ↔
          m_linked s = true ∧
          ∃ e, uniform_at (m_activeUniforms s) i = Some e ∧ acceptsUniform e = true) ∧
    (∀ i, i ∈ indexMap →
          ∃ e, getUniform i (mkWorld s tr) = (Returned e, mkWorld s tr) ∧
               m_location e ≠ -1 ∧ is_time_variable e = false ∧
               m_type e ∉ sampler_types) ∧
    (m_linked s = false → indexMap = []).
Proof.
  unfold readContentFromState, getActiveUniforms. rewrite bind_assoc, bind_get. cbn [shader].
  destruct (m_linked s) eqn:Hl; cbn [negb]; rewrite bind_ret.
  2: { exists []. cbn. repeat (apply conj); try done.
       - apply NoDup_nil_2.
       - intros i. split; [intros H; by apply elem_of_nil in H | by intros (? & _)].
       - intros i H. by apply elem_of_nil in H. }
  rewrite Nat2Z.id, (fill_indexMap_run s tr 0 _ [] Hl) by lia. cbn [app].
  eexists. split; [reflexivity |].
  assert (Hmem : ∀ i,
            i ∈ Z.of_nat <$> filter (λ i, acceptsUniform (entry_at s i) = true)
                               (seq 0 (length (m_activeUniforms s))) ↔
            true = true ∧
            ∃ e, uniform_at (m_activeUniforms s) i = Some e ∧ acceptsUniform e = true).
  { intros i. rewrite list_elem_of_fmap. split.
    - intros (k & -> & Hk). apply list_elem_of_filter in Hk as (Hacc & Hk).
      apply elem_of_seq in Hk. split; [done |].
      destruct (lookup_lt_is_Some_2 (m_activeUniforms s) k) as (e & He); [lia |].
      exists e. split; [by apply uniform_at_lookup |].
      unfold entry_at in Hacc. by rewrite (list_lookup_total_correct _ _ _ He) in Hacc.
    - intros (_ & e & He & Hacc). apply uniform_at_Some in He as (H0 & Hlt & Hlk).
      exists (Z.to_nat i). split; [lia |]. apply list_elem_of_filter. split.
      + unfold entry_at. by rewrite (list_lookup_total_correct _ _ _ Hlk).
      + apply elem_of_seq. lia. }
  split; [| split; [exact Hmem | split; [| done]]].
  - apply NoDup_fmap_2; [intros x y; lia |]. apply NoDup_filter, NoDup_seq.
  - intros i Hi. apply Hmem in Hi as (_ & e & He & Hacc). exists e.
    split; [by apply getUniform_linked |].
    apply acceptsUniform_parts in Hacc as (? & ? & Hbase).
    destruct (type_tables_base e) as (_ & Hk). destruct (Hk Hbase) as (_ & ? & _). done.
Qed.


(** ** Editing a component *)








